(** * cityImage: barrier relations and station surgery on a rail graph

    A shallow embedding of [cityImage/barriers.py] (the along / crossing /
    within relation queries) and [cityImage/transport_network.py] (graph
    construction from railway lines, station assignment, station merging and
    station extension), with the properties of the natural-language
    specification stated and settled against it.

    Conventions of the embedding.
    - A pandas (Geo)DataFrame is a [frame]: the list of its rows in order,
      each with its index label.  Label lookups that pandas answers with
      [KeyError] are [Raise KeyError] here.
    - shapely is an interface ([Shapely]): the functions below are generic in
      it.  Coordinates, distances and lengths are rationals; floating-point
      rounding is not modelled.
    - A concrete planar instance ([Plane]) is used to run the functions on
      explicit scenes. *)

From Stdlib Require Import ZArith QArith Qminmax List String Bool Lia.
Import ListNotations.

Set Implicit Arguments.

Local Open Scope Z_scope.

(** ** Python exceptions as results *)

Inductive exn : Type := KeyError | ValueError | IndexError | NameError.

Inductive result (A : Type) : Type :=
| Ok (a : A)
| Raise (e : exn).

Arguments Ok {A} a.
Arguments Raise {A} e.

Definition bind {A B : Type} (r : result A) (k : A -> result B) : result B :=
  match r with
  | Ok a => k a
  | Raise e => Raise e
  end.

Declare Scope result_scope.
Delimit Scope result_scope with result.
Notation "x <- r ;; k" := (bind r (fun x => k))
  (at level 61, r at next level, right associativity) : result_scope.
Notation "' p <- r ;; k" := (bind r (fun x => let p := x in k))
  (at level 61, p pattern, r at next level, right associativity) : result_scope.
Local Open Scope result_scope.

(** [mapM f l]: a pandas [apply] over rows, or a list comprehension, whose
    body may raise. *)
Fixpoint mapM {A B : Type} (f : A -> result B) (l : list A) : result (list B) :=
  match l with
  | [] => Ok []
  | a :: l' => b <- f a ;; bs <- mapM f l' ;; Ok (b :: bs)
  end.

(** [foldM f l s]: a [for] loop over [l] threading the state [s]. *)
Fixpoint foldM {A S : Type} (f : A -> S -> result S) (l : list A) (s : S)
  : result S :=
  match l with
  | [] => Ok s
  | a :: l' => s' <- f a s ;; foldM f l' s'
  end.

(** ** Rational comparisons *)

Definition Qleb (a b : Q) : bool := Qle_bool a b.
Definition Qltb (a b : Q) : bool := negb (Qle_bool b a).
Definition Qgtb (a b : Q) : bool := Qltb b a.

(** ** Data frames *)

Definition frame (R : Type) : Type := list (Z * R).

Definition isin (i : Z) (l : list Z) : bool := existsb (Z.eqb i) l.

Section Frames.
Variable R : Type.

Definition index (f : frame R) : list Z := map fst f.
Definition rows (f : frame R) : list R := map snd f.

(** [f.loc[label]]: the row with that label (the first one, should the
    labels not be unique). *)
Fixpoint loc (f : frame R) (label : Z) : result R :=
  match f with
  | [] => Raise KeyError
  | (i, r) :: f' => if i =? label then Ok r else loc f' label
  end.

(** [f.iloc[positions]] *)
Definition iloc (f : frame R) (positions : list nat) : frame R :=
  flat_map (fun p => match nth_error f p with
                     | Some row => [row]
                     | None => []
                     end) positions.

(** [f.drop(labels, axis = 0)]: every label must be present. *)
Definition drop (f : frame R) (labels : list Z) : result (frame R) :=
  if forallb (fun l => isin l (index f)) labels
  then Ok (filter (fun row => negb (isin (fst row) labels)) f)
  else Raise KeyError.

(** [f.at[label, col] = x] on a label that is present: [upd] sets the
    column. *)
Definition at_set (f : frame R) (label : Z) (upd : R -> R) : frame R :=
  map (fun row => if fst row =? label then (fst row, upd (snd row)) else row) f.

(** [f.index.max()]; an empty index has no maximum, 0 stands for it. *)
Definition index_max (f : frame R) : Z :=
  match index f with
  | [] => 0
  | i :: l => fold_left Z.max l i
  end.
End Frames.

(** ** The geometry interface (shapely) *)

Definition pt : Type := (Q * Q)%type.

(** [(minx, miny, maxx, maxy)] *)
Definition bbox : Type := (Q * Q * Q * Q)%type.

Definition bbox_intersects (a b : bbox) : bool :=
  let '(ax0, ay0, ax1, ay1) := a in
  let '(bx0, by0, bx1, by1) := b in
  Qleb ax0 bx1 && Qleb bx0 ax1 && Qleb ay0 by1 && Qleb by0 ay1.

Class Shapely (G : Type) : Type := {
  (** [g.coords], every coordinate cut to its first two ordinates *)
  coords : G -> list pt;
  (** [g.wkb == h.wkb] *)
  wkb_eqb : G -> G -> bool;
  (** [LineString(cs)] *)
  LineString : list pt -> G;
  (** [g.length] *)
  geom_length : G -> Q;
  (** [g.distance(h)] *)
  distance : G -> G -> Q;
  (** [g.intersects(h)] *)
  intersects : G -> G -> bool;
  (** [g.touches(h)] *)
  touches : G -> G -> bool;
  (** [g.buffer(r)] *)
  buffer : G -> Q -> G;
  (** [g.bounds] *)
  bounds : G -> bbox;
  (** [g.interpolate(0.5, normalized = True)] *)
  interpolate_half : G -> G;
  (** [nearest_points(p, g)[1]] *)
  nearest_point : G -> G -> G;
  (** [LineString([p, q])] for two point geometries *)
  LineString2 : G -> G -> G;
  (** [polygonize_full(g)[0][0]] *)
  polygonize_first : G -> result G;
  (** the centroid of the union of two point geometries *)
  centroid2 : G -> G -> G;
  (** Modelled from the spec: [split_line_at_interpolation(p, line)] is
      defined nowhere under src/.  Per section 4.5 it returns the two parts
      of [line] cut at its point nearest to [p], and that point.
      transport_network.py calls it without importing it: see
      [TransportNetwork.global]. *)
  split_line_at_interpolation : G -> G -> (G * G) * G
}.

(** ** Rows *)

Inductive barrier_type : Type := road | water | railway | park.

Definition barrier_type_eqb (a b : barrier_type) : bool :=
  match a, b with
  | road, road | water, water | railway, railway | park, park => true
  | _, _ => false
  end.

Record barrier (G : Type) : Type := mkBarrier {
  barrierID : Z;
  b_geometry : G;
  b_type : barrier_type
}.

Record edge (G : Type) : Type := mkEdge {
  edgeID : Z;
  u : Z;
  v : Z;
  e_geometry : G;
  e_name : option string
}.

Record node (G : Type) : Type := mkNode {
  nodeID : Z;
  n_geometry : G;
  x : Q;
  y : Q;
  stationID : Z;
  n_name : option string
}.

Record station (G : Type) : Type := mkStation {
  s_geometry : G;
  s_name : option string
}.

(** * barriers.py *)

Module Barriers.
Section Relations.
Context {G : Type} `{Shapely G}.

(** [edges_gdf.sindex]: the R-tree holds the bounding box of every row, by
    position. *)
Definition sindex_t : Type := list bbox.

Definition sindex (edges_gdf : frame (edge G)) : sindex_t :=
  map (fun row => bounds (e_geometry (snd row))) edges_gdf.

(** [sindex.intersection(b)]: the positions whose box meets [b]. *)
Definition sindex_intersection (s : sindex_t) (b : bbox) : list nat :=
  map fst (filter (fun pb => bbox_intersects (snd pb) b)
                  (combine (seq 0 (List.length s)) s)).

(** [_crossing_barriers(line_geometry, barriers_gdf)] *)
Definition _crossing_barriers (line_geometry : G) (barriers_gdf : list (barrier G))
  : list Z :=
  let adjacent_barriers := [] in
  let intersecting_barriers :=
    filter (fun b => intersects (b_geometry b) line_geometry) barriers_gdf in
  let touching_barriers :=
    filter (fun b => touches (b_geometry b) line_geometry) barriers_gdf in
  if (List.length intersecting_barriers =? 0)%nat then adjacent_barriers
  else
    let intersecting_barriers :=
      filter (fun b => negb (isin (barrierID b) (map (@barrierID G) touching_barriers)))
             intersecting_barriers in
    map (@barrierID G) intersecting_barriers.

(** [_within_parks(line_geometry, park_polygons)] *)
Definition _within_parks (line_geometry : G) (park_polygons : list (barrier G))
  : list Z :=
  let within := [] in
  let intersecting_parks :=
    filter (fun b => intersects (b_geometry b) line_geometry) park_polygons in
  let touching_parks :=
    filter (fun b => touches (b_geometry b) line_geometry) park_polygons in
  if (List.length intersecting_parks =? 0)%nat then within
  else
    let intersecting_parks :=
      filter (fun b => negb (isin (barrierID b) (map (@barrierID G) touching_parks)))
             intersecting_parks in
    map (@barrierID G) intersecting_parks.

(** The body of the loop of [barriers_along]: is [barrier] seen from the
    midpoint of the edge without another edge of [pm] in between? *)
Definition unobstructed (line_geometry : G) (pm : frame (edge G)) (b : barrier G)
  : bool :=
  let midpoint := interpolate_half line_geometry in
  let line := LineString2 midpoint (nearest_point midpoint (b_geometry b)) in
  negb (1 <=? List.length
                (filter (fun row => intersects (e_geometry (snd row)) line) pm))%nat.

(** [barriers_along(ix_line, edges_gdf, barriers_gdf, edges_gdf_sindex, offset)] *)
Definition barriers_along (ix_line : Z) (edges_gdf : frame (edge G))
           (barriers_gdf : list (barrier G)) (edges_gdf_sindex : sindex_t)
           (offset : Q) : result (list Z) :=
  row <- loc edges_gdf ix_line ;;
  let buffer := buffer (e_geometry row) offset in
  let intersecting_barriers :=
    filter (fun b => intersects (b_geometry b) buffer) barriers_gdf in
  let touching_barriers :=
    filter (fun b => touches (b_geometry b) (e_geometry row)) barriers_gdf in
  let intersecting_barriers :=
    filter (fun b => negb (isin (barrierID b) (map (@barrierID G) touching_barriers)))
           intersecting_barriers in
  if (List.length intersecting_barriers =? 0)%nat then Ok []
  else
    let possible_matches_index := sindex_intersection edges_gdf_sindex (bounds buffer) in
    let pm := iloc edges_gdf possible_matches_index in
    pm <- drop pm [ix_line] ;;
    Ok (map (@barrierID G)
            (filter (unobstructed (e_geometry row) pm) intersecting_barriers)).

(** The columns [along_water] computes for one row, before it drops
    [ac_rivers] and [c_rivers]. *)
Record water_columns : Type := mkWater {
  ac_rivers : list Z;
  c_rivers : list Z;
  bridge : bool;
  a_rivers : list Z
}.

(** [list(set(a) - set(b))] *)
Definition set_minus (a b : list Z) : list Z :=
  nodup Z.eq_dec (filter (fun i => negb (isin i b)) a).

(** [list(set(a + b))] *)
Definition set_union (a b : list Z) : list Z := nodup Z.eq_dec (a ++ b).

(** Lines 302 to 309 for one row.  The column [a_rivers] is assigned twice:
    the set difference of line 308 is overwritten at line 309. *)
Definition along_water_columns (edges_gdf : frame (edge G))
           (barriers_gdf : list (barrier G)) (row : edge G) : result water_columns :=
  let sindex := sindex edges_gdf in
  let tmp := filter (fun b => barrier_type_eqb (b_type b) water) barriers_gdf in
  ac_rivers <- barriers_along (edgeID row) edges_gdf tmp sindex (200 # 1) ;;
  let c_rivers := _crossing_barriers (e_geometry row) tmp in
  let bridge := (0 <? List.length c_rivers)%nat in
  (* excluding bridges *)
  let a_rivers := set_minus ac_rivers c_rivers in
  let a_rivers := if negb bridge then ac_rivers else [] in
  Ok {| ac_rivers := ac_rivers; c_rivers := c_rivers;
        bridge := bridge; a_rivers := a_rivers |}.

(** [along_water(edges_gdf, barriers_gdf)]: every row with its new columns
    [bridge] and [a_rivers]. *)
Definition along_water (edges_gdf : frame (edge G)) (barriers_gdf : list (barrier G))
  : result (frame (edge G * (bool * list Z))) :=
  mapM (fun row =>
          c <- along_water_columns edges_gdf barriers_gdf (snd row) ;;
          Ok (fst row, (snd row, (bridge c, a_rivers c))))
       edges_gdf.

(** The columns [along_within_parks] computes for one row, before it drops
    [a_parks] and [w_parks]. *)
Record park_columns : Type := mkPark {
  a_parks : list Z;
  w_parks : list Z;
  aw_parks : list Z
}.

(** [park_polygons]: the park rows with their geometry polygonized. *)
Definition park_polygons (barriers_gdf : list (barrier G)) : result (list (barrier G)) :=
  mapM (fun b =>
          p <- polygonize_first (b_geometry b) ;;
          Ok {| barrierID := barrierID b; b_geometry := p; b_type := b_type b |})
       (filter (fun b => barrier_type_eqb (b_type b) park) barriers_gdf).

(** Lines 332 to 342 for one row, given the polygonized parks. *)
Definition along_within_parks_columns (edges_gdf : frame (edge G))
           (barriers_gdf : list (barrier G)) (polygons : list (barrier G))
           (row : edge G) : result park_columns :=
  let sindex := sindex edges_gdf in
  let tmp := filter (fun b => barrier_type_eqb (b_type b) park) barriers_gdf in
  a_parks <- barriers_along (edgeID row) edges_gdf tmp sindex (200 # 1) ;;
  let w_parks := _within_parks (e_geometry row) polygons in
  let aw_parks := set_union a_parks w_parks in
  Ok {| a_parks := a_parks; w_parks := w_parks; aw_parks := aw_parks |}.

(** [along_within_parks(edges_gdf, barriers_gdf)]: every row with its new
    column [aw_parks]. *)
Definition along_within_parks (edges_gdf : frame (edge G))
           (barriers_gdf : list (barrier G))
  : result (frame (edge G * list Z)) :=
  a <- mapM (fun row =>
               a_parks <- barriers_along (edgeID (snd row)) edges_gdf
                            (filter (fun b => barrier_type_eqb (b_type b) park) barriers_gdf)
                            (sindex edges_gdf) (200 # 1) ;;
               Ok (fst row, (snd row, a_parks)))
            edges_gdf ;;
  polygons <- park_polygons barriers_gdf ;;
  Ok (map (fun row =>
             let '(i, (e, a_parks)) := row in
             let w_parks := _within_parks (e_geometry e) polygons in
             (i, (e, set_union a_parks w_parks)))
          a).

(** The relation record of one edge (section 3 of the specification): the
    barriers along it (water and parks), crossing it, and those it is
    within. *)
Record relation_record : Type := mkRelations {
  along : list Z;
  crossing : list Z;
  within : list Z
}.

(** The three lists as [along_water] and [along_within_parks] compute them
    for the row. *)
Definition relations (edges_gdf : frame (edge G)) (barriers_gdf : list (barrier G))
           (row : edge G) : result relation_record :=
  w <- along_water_columns edges_gdf barriers_gdf row ;;
  polygons <- park_polygons barriers_gdf ;;
  p <- along_within_parks_columns edges_gdf barriers_gdf polygons row ;;
  Ok {| along := a_rivers w ++ a_parks p;
        crossing := c_rivers w;
        within := w_parks p |}.

Definition disjoint (a b : list Z) : Prop := forall i, In i a -> ~ In i b.

(** ** The other functions of barriers.py *)

(** [assign_structuring_barriers(edges_gdf, barriers_gdf)]: every row with
    its new column [sep_barr]. *)
Definition assign_structuring_barriers (edges_gdf : frame (edge G))
           (barriers_gdf : list (barrier G)) : frame (edge G * bool) :=
  (* parks are disregarded *)
  let tmp := filter (fun b => negb (barrier_type_eqb (b_type b) park)) barriers_gdf in
  map (fun row =>
         let c_barr := _crossing_barriers (e_geometry (snd row)) tmp in
         (fst row, (snd row, (0 <? List.length c_barr)%nat)))
      edges_gdf.

(** Two coordinates are the same key of a dictionary. *)
Definition same_coordinate (a b : pt) : bool :=
  Qeq_bool (fst a) (fst b) && Qeq_bool (snd a) (snd b).

(** [row.geometry.coords[0]] and [row.geometry.coords[-1]] *)
Definition endpoints (g : G) : result (pt * pt) :=
  match coords g with
  | [] => Raise IndexError
  | c :: cs => Ok (c, last cs c)
  end.

(** The columns [from] and [to] of the road features (lines 72 and 73). *)
Definition road_ends (features : list G) : result (list (G * (pt * pt))) :=
  mapM (fun g => e <- endpoints g ;; Ok (g, e)) features.

(** [to_ignore] (lines 75 to 78): the coordinate [k] is an end of exactly one
    feature, once. *)
Definition to_ignore (ends : list (G * (pt * pt))) (k : pt) : bool :=
  let dd_u := List.length (filter (same_coordinate k) (map (fun r => fst (snd r)) ends)) in
  let dd_v := List.length (filter (same_coordinate k) (map (fun r => snd (snd r)) ends)) in
  (dd_u + dd_v =? 1)%nat.

(** Lines 70 to 85 of [road_barriers], from the list [features] of the
    merged roads: the download and the merge before them are not modelled. *)
Definition road_barriers (features : list G) : result (list (G * barrier_type)) :=
  road_barriers <- road_ends features ;;
  let ignored := to_ignore road_barriers in
  (* exclude short sectors which are probably not continuous enough to be
     considered barriers *)
  let road_barriers :=
    filter (fun r => negb ((ignored (fst (snd r)) && ignored (snd (snd r)))
                           && Qltb (geom_length (fst r)) 500))
           road_barriers in
  let road_barriers :=
    filter (fun r => negb ((ignored (fst (snd r)) || ignored (snd (snd r)))
                           && Qltb (geom_length (fst r)) 200))
           road_barriers in
  Ok (map (fun r => (fst r, road)) road_barriers).

End Relations.
End Barriers.


(** * transport_network.py *)

Module TransportNetwork.

(** [clean_settings] and the keyword arguments of [clean_network] *)
Record settings : Type := mkSettings {
  remove_disconnected_islands : bool;
  dead_ends : bool;
  same_uv_edges : bool;
  self_loops : bool;
  fix_topology : bool
}.

Definition clean_settings : settings :=
  {| remove_disconnected_islands := false; dead_ends := false;
     same_uv_edges := false; self_loops := true; fix_topology := false |}.

(** The sentinel of a node that is no station. *)
Definition unassigned : Z := 999999.

(** The names bound at module level: those of the import lines 1 to 15,
    [clean_settings] and the seven functions. *)
Definition module_names : list string :=
  [ "warnings"; "pd"; "np"; "gpd"; "Point"; "LineString"; "Polygon"; "MultiPoint";
    "split"; "unary_union"; "ox";
    "duplicate_nodes"; "correct_edges"; "clean_network";
    "obtain_nodes_gdf"; "join_by_coordinates"; "distance_geometry_gdf";
    "clean_settings"; "get_urban_rail_fromOSM"; "gdfs_from_railways";
    "assign_stations_to_nodes"; "dissolve_stations"; "simplify_stations";
    "merge_station_nodes"; "extend_stations" ]%string.

(** The use of the global [name] inside a function: its [value] when the
    module binds the name, [NameError] otherwise (no builtin is looked up
    this way here). *)
Definition global {A : Type} (name : string) (value : A) : result A :=
  if existsb (String.eqb name) module_names then Ok value else Raise NameError.

Definition graph (G : Type) : Type := (frame (node G) * frame (edge G))%type.

(** Modelled from the spec: the cleanup rules of [clean_network] (clean.py,
    not under src/) that section 4.3 only names by their flag.  They run when
    their flag is set; none of them is set by [clean_settings]. *)
Class CleanRules (G : Type) : Type := {
  islands_rule : graph G -> graph G;
  dead_ends_rule : graph G -> graph G;
  same_uv_rule : graph G -> graph G;
  fix_topology_rule : graph G -> graph G
}.

Section Network.
Context {G : Type} `{Shapely G} `{CleanRules G}.

Definition option_string_eqb (a b : option string) : bool :=
  match a, b with
  | None, None => true
  | Some s, Some t => String.eqb s t
  | _, _ => false
  end.

Definition pt_eqb (a b : pt) : bool :=
  Qeq_bool (fst a) (fst b) && Qeq_bool (snd a) (snd b).

Fixpoint coords_eqb (a b : list pt) : bool :=
  match a, b with
  | [], [] => true
  | p :: a', q :: b' => pt_eqb p q && coords_eqb a' b'
  | _, _ => false
  end.

(** ** Helpers of other modules *)

(** Modelled from the spec: [distance_geometry_gdf(geometry, gdf)]
    (utilities.py, not under src/).  Section 4.5: "compute the minimum
    distance from P to every node and to every edge's geometry".  It returns
    that minimum and the index label of the first row at that distance; an
    empty frame has no minimum. *)
Definition distance_geometry_gdf {R : Type} (geometry_of : R -> G) (geometry : G)
           (gdf : frame R) : result (Q * Z) :=
  match gdf with
  | [] => Raise ValueError
  | (i, r) :: gdf' =>
      Ok (fold_left
            (fun best row =>
               let d := distance geometry (geometry_of (snd row)) in
               if Qltb d (fst best) then (d, fst row) else best)
            gdf' (distance geometry (geometry_of r), i))
  end.

(** The columns [x] and [y] of every node are reset to [r.coords[0][0]] and
    [r.coords[0][1]] of its geometry [r].  The two columns are unpacked from
    the transposed list of pairs: with no node there is nothing to unpack,
    and the assignment raises [ValueError]. *)
Definition recompute_xy (nodes_gdf : frame (node G)) : result (frame (node G)) :=
  let pairs :=
    mapM (fun row =>
            match coords (n_geometry (snd row)) with
            | [] => Raise IndexError
            | c :: _ =>
                Ok (fst row,
                    {| nodeID := nodeID (snd row); n_geometry := n_geometry (snd row);
                       x := fst c; y := snd c;
                       stationID := stationID (snd row); n_name := n_name (snd row) |})
            end)
         nodes_gdf in
  match nodes_gdf with
  | [] => Raise ValueError
  | _ => pairs
  end.

Definition set_geometry (g : G) (e : edge G) : edge G :=
  {| edgeID := edgeID e; u := u e; v := v e; e_geometry := g; e_name := e_name e |}.

Definition set_u (n : Z) (e : edge G) : edge G :=
  {| edgeID := edgeID e; u := n; v := v e; e_geometry := e_geometry e; e_name := e_name e |}.

Definition set_v (n : Z) (e : edge G) : edge G :=
  {| edgeID := edgeID e; u := u e; v := n; e_geometry := e_geometry e; e_name := e_name e |}.

Definition set_edgeID (i : Z) (e : edge G) : edge G :=
  {| edgeID := i; u := u e; v := v e; e_geometry := e_geometry e; e_name := e_name e |}.

Definition set_n_geometry (g : G) (n : node G) : node G :=
  {| nodeID := nodeID n; n_geometry := g; x := x n; y := y n;
     stationID := stationID n; n_name := n_name n |}.

Definition set_station (sid : Z) (name : option string) (n : node G) : node G :=
  {| nodeID := nodeID n; n_geometry := n_geometry n; x := x n; y := y n;
     stationID := sid; n_name := name |}.

(** The coordinates of a line with its two ends replaced. *)
Definition with_endpoints (first last : pt) (cs : list pt) : list pt :=
  first :: removelast (tl cs) ++ [last].

(** Modelled from the spec: [correct_edges(nodes_gdf, edges_gdf)] (clean.py,
    not under src/).  Section 3: the geometry of an edge is an "ordered
    sequence of 2D coordinates (first = position of node u, last = position
    of node v)"; after nodes have moved, the ends of every edge geometry are
    set to the positions of its two nodes.  An edge whose node is absent is a
    [KeyError]. *)
Definition correct_edges (nodes_gdf : frame (node G)) (edges_gdf : frame (edge G))
  : result (frame (edge G)) :=
  mapM (fun row =>
          nu <- loc nodes_gdf (u (snd row)) ;;
          nv <- loc nodes_gdf (v (snd row)) ;;
          Ok (fst row,
              set_geometry
                (LineString (with_endpoints (x nu, y nu) (x nv, y nv)
                                            (coords (e_geometry (snd row)))))
                (snd row)))
       edges_gdf.

(** [code(u, v)]: the smaller node first.  The source builds the string
    [str(min) + "-" + str(max)]; the pair carries the same information. *)
Definition code (e : edge G) : Z * Z :=
  if v e >=? u e then (u e, v e) else (v e, u e).

Definition code_eqb (a b : Z * Z) : bool :=
  (fst a =? fst b) && (snd a =? snd b).

(** Two coordinate sequences equal up to direction. *)
Definition same_line (a b : G) : bool :=
  coords_eqb (coords a) (coords b) || coords_eqb (coords a) (rev (coords b)).

(** [drop_duplicates(keep = 'first')]: a row is kept when no earlier row is
    the [same]. *)
Fixpoint drop_duplicates_from {R : Type} (same : R -> R -> bool) (seen : list R)
         (f : frame R) : frame R :=
  match f with
  | [] => []
  | row :: f' =>
      if existsb (fun r => same r (snd row)) seen
      then drop_duplicates_from same seen f'
      else row :: drop_duplicates_from same (snd row :: seen) f'
  end.

Definition drop_duplicates {R : Type} (same : R -> R -> bool) (f : frame R) : frame R :=
  drop_duplicates_from same [] f.

(** Modelled from the spec: [clean_network(nodes_gdf, edges_gdf, **settings)]
    (clean.py, not under src/), the repair pass of section 4.3:
    1. recompute [code(u, v)] for every edge;
    2. of the edges with the same code and the same coordinate sequence up to
       direction, keep one;
    3. remove the edges with [u == v] and [length < 1.0] (flag [self_loops]);
    4. recompute [x, y] of a node from the first coordinate of the geometry
       of an edge that leaves it, where they differ.
    The rules named only by a flag run when that flag is set. *)
Definition clean_network (g : graph G) (s : settings) : graph G :=
  let g := if remove_disconnected_islands s then islands_rule g else g in
  let g := if dead_ends s then dead_ends_rule g else g in
  let g := if same_uv_edges s then same_uv_rule g else g in
  let g := if fix_topology s then fix_topology_rule g else g in
  let '(nodes_gdf, edges_gdf) := g in
  let edges_gdf :=
    drop_duplicates
      (fun a b => code_eqb (code a) (code b) && same_line (e_geometry a) (e_geometry b))
      edges_gdf in
  let edges_gdf :=
    if self_loops s
    then filter (fun row => negb ((u (snd row) =? v (snd row))
                                  && Qltb (geom_length (e_geometry (snd row))) 1))
                edges_gdf
    else edges_gdf in
  let nodes_gdf :=
    map (fun row =>
           match find (fun e => u (snd e) =? nodeID (snd row)) edges_gdf with
           | Some e =>
               match coords (e_geometry (snd e)) with
               | c :: _ =>
                   if pt_eqb c (x (snd row), y (snd row)) then row
                   else (fst row,
                         {| nodeID := nodeID (snd row); n_geometry := n_geometry (snd row);
                            x := fst c; y := snd c;
                            stationID := stationID (snd row); n_name := n_name (snd row) |})
               | [] => row
               end
           | None => row
           end)
        nodes_gdf in
  (nodes_gdf, edges_gdf).

(** ** Graph construction *)

(** A row of [railways_gdf]. *)
Record railway : Type := mkRailway {
  r_geometry : G;
  r_name : option string
}.

(** [f.reset_index(drop = True)] *)
Definition reset_index {R : Type} (f : frame R) : frame R :=
  combine (map Z.of_nat (seq 0 (List.length f))) (rows f).

Section GraphConstruction.
(** [obtain_nodes_gdf] and [join_by_coordinates] (load.py) and
    [duplicate_nodes] (clean.py) are not under src/: [gdfs_from_railways]
    takes them as they come. *)
Variable obtain_nodes_gdf : frame railway -> frame (node G).
Variable join_by_coordinates :
  frame (node G) -> frame railway -> frame (node G) * frame (edge G).
Variable duplicate_nodes :
  frame (node G) * frame (edge G * (Z * Z)) ->
  frame (node G) * frame (edge G * (Z * Z)).

(** The column [coords]: the coordinates of the geometry, reversed where
    [str(u) + "-" + str(v) != code]. *)
Definition oriented_coords (row : edge G * (Z * Z)) : list pt :=
  if negb (code_eqb (u (fst row), v (fst row)) (snd row))
  then rev (coords (e_geometry (fst row)))
  else coords (e_geometry (fst row)).

(** The edge table of [gdfs_from_railways] just before the node-lines are
    eliminated (lines 89 to 129). *)
Definition deduplicated_edges (railways_gdf : frame railway)
  : frame (node G) * frame (edge G * (Z * Z)) :=
  let edges_gdf := railways_gdf in
  (* creating the dataframes *)
  let edges_gdf :=
    drop_duplicates (fun a b => wkb_eqb (r_geometry a) (r_geometry b)) edges_gdf in
  (* remove z coordinates, if any *)
  let edges_gdf :=
    map (fun row => (fst row,
                     {| r_geometry := LineString (coords (r_geometry (snd row)));
                        r_name := r_name (snd row) |}))
        edges_gdf in
  (* assigning indexes *)
  let nodes_gdf := obtain_nodes_gdf edges_gdf in
  (* linking on coordinates *)
  let nodes_gdf :=
    map (fun row => (fst row,
                     {| nodeID := fst row; n_geometry := n_geometry (snd row);
                        x := x (snd row); y := y (snd row);
                        stationID := stationID (snd row); n_name := n_name (snd row) |}))
        nodes_gdf in
  let '(nodes_gdf, edges_gdf) := join_by_coordinates nodes_gdf edges_gdf in
  let edges_gdf := reset_index edges_gdf in
  let edges_gdf := map (fun row => (fst row, set_edgeID (fst row) (snd row))) edges_gdf in
  (* Assigning codes based on the edge's nodes. *)
  let edges_gdf := map (fun row => (fst row, (snd row, code (snd row)))) edges_gdf in
  (* Reordering coordinates to allow for comparison between edges *)
  let '(nodes_gdf, edges_gdf) := duplicate_nodes (nodes_gdf, edges_gdf) in
  (* dropping edges with same geometry but with coords in different orders *)
  let edges_gdf :=
    drop_duplicates (fun a b => coords_eqb (oriented_coords a) (oriented_coords b))
                    edges_gdf in
  (nodes_gdf, edges_gdf).

(** [gdfs_from_railways(railways_gdf, epsg)] *)
Definition gdfs_from_railways (railways_gdf : frame railway) : graph G :=
  let '(nodes_gdf, edges_gdf) := deduplicated_edges railways_gdf in
  (* eliminate node-lines *)
  let edges_gdf :=
    filter (fun row => negb ((u (fst (snd row)) =? v (fst (snd row)))
                             && Qltb (geom_length (e_geometry (fst (snd row)))) 1))
           edges_gdf in
  (nodes_gdf, map (fun row => (fst row, fst (snd row))) edges_gdf).

End GraphConstruction.

(** ** Station assignment *)

(** What the loop of [assign_stations_to_nodes] does with one station. *)
Inductive attachment : Type :=
| Discarded
| Snapped (node_label : Z)
| Split (edge_label : Z).

(** The branch the loop takes, from the two nearest distances. *)
Definition attach (dist_nodes dist_edges : Q * Z) : attachment :=
  if Qgtb (fst dist_nodes) 50 && Qgtb (fst dist_edges) 50 then Discarded
  else if Qleb (fst dist_nodes) (fst dist_edges) then Snapped (snd dist_nodes)
  else Split (snd dist_edges).

(** The [else] branch (lines 156 to 172): edge [index_edge] is split for the
    station [row_Index] named [name].  The callee of line 157 is looked up
    before its arguments are evaluated. *)
Definition split_for_station (row_Index : Z) (name : option string)
           (station_geometry : G) (index_edge : Z) (g : graph G) : result (graph G) :=
  let '(nodes_gdf, edges_gdf) := g in
  split_line <- global "split_line_at_interpolation" split_line_at_interpolation ;;
  old <- loc edges_gdf index_edge ;;
  let '(lines, point) := split_line station_geometry (e_geometry old) in
  let nodeID := index_max nodes_gdf + 1 in
  (* the cells x and y of the new row stay empty until line 179: 0 here *)
  let nodes_gdf :=
    nodes_gdf ++ [(nodeID, {| nodeID := nodeID; n_geometry := point; x := 0; y := 0;
                              stationID := row_Index; n_name := name |})] in
  let new_index := index_max edges_gdf + 1 in
  let edges_gdf := edges_gdf ++ [(new_index, old)] in
  let edges_gdf := at_set edges_gdf index_edge (set_geometry (fst lines)) in
  let edges_gdf := at_set edges_gdf index_edge (set_v nodeID) in
  let edges_gdf := at_set edges_gdf new_index (set_geometry (snd lines)) in
  let edges_gdf := at_set edges_gdf new_index (set_edgeID new_index) in
  let edges_gdf := at_set edges_gdf new_index (set_u nodeID) in
  Ok (nodes_gdf, edges_gdf).

(** One iteration of the loop of [assign_stations_to_nodes]. *)
Definition assign_station (stations_gdf : frame (station G)) (row : Z * station G)
           (g : graph G) : result (graph G) :=
  let '(nodes_gdf, edges_gdf) := g in
  st <- loc stations_gdf (fst row) ;;
  let station_geometry := s_geometry st in
  dist_nodes <- distance_geometry_gdf (@n_geometry G) station_geometry nodes_gdf ;;
  dist_edges <- distance_geometry_gdf (@e_geometry G) station_geometry edges_gdf ;;
  match attach dist_nodes dist_edges with
  | Discarded => Ok g
  | Snapped label =>
      Ok (at_set nodes_gdf label (set_station (fst row) (s_name st)), edges_gdf)
  | Split index_edge =>
      split_for_station (fst row) (s_name st) station_geometry index_edge g
  end.

(** Lines 139 to 141: every station column of the input is overwritten. *)
Definition reset_stations (nodes_gdf : frame (node G)) : frame (node G) :=
  map (fun row => (fst row, set_station unassigned None (snd row))) nodes_gdf.

(** [nodes_gdf.index = nodes_gdf['nodeID']] *)
Definition index_by_nodeID (nodes_gdf : frame (node G)) : frame (node G) :=
  map (fun row => (nodeID (snd row), snd row)) nodes_gdf.

(** [assign_stations_to_nodes(stations_gdf, nodes_gdf, edges_gdf, name_field)];
    [s_name] is the column [name_field] of a station. *)
Definition assign_stations_to_nodes (stations_gdf : frame (station G)) (g : graph G)
  : result (graph G) :=
  let '(nodes_gdf, edges_gdf) := g in
  let nodes_gdf := reset_stations nodes_gdf in
  '(nodes_gdf, edges_gdf) <-
     foldM (assign_station stations_gdf) stations_gdf (nodes_gdf, edges_gdf) ;;
  let nodes_gdf := index_by_nodeID nodes_gdf in
  nodes_gdf <- recompute_xy nodes_gdf ;;
  edges_gdf <- correct_edges nodes_gdf edges_gdf ;;
  Ok (nodes_gdf, edges_gdf).

(** ** Station merging *)

(** [edges_gdf.loc[edges_gdf.u == old, 'u'] = new] followed by the same for
    [v]. *)
Definition rewire (old new : Z) (edges_gdf : frame (edge G)) : frame (edge G) :=
  let edges_gdf :=
    map (fun row => if u (snd row) =? old then (fst row, set_u new (snd row)) else row)
        edges_gdf in
  map (fun row => if v (snd row) =? old then (fst row, set_v new (snd row)) else row)
      edges_gdf.

(** The state of the two merge loops: nodes, edges and [to_drop]. *)
Definition merge_state : Type := (frame (node G) * frame (edge G) * list Z)%type.

(** [nodes_gdf.loc[[a, b]].geometry.unary_union.centroid] *)
Definition centroid_of (nodes_gdf : frame (node G)) (a b : Z) : result G :=
  na <- loc nodes_gdf a ;;
  nb <- loc nodes_gdf b ;;
  Ok (centroid2 (n_geometry na) (n_geometry nb)).

(** Lines 206 to 211 and 243 to 248: what both merge functions do after
    their loop. *)
Definition finish_merge (s : merge_state) : result (graph G) :=
  let '(nodes_gdf, edges_gdf, to_drop) := s in
  nodes_gdf <- drop nodes_gdf to_drop ;;
  let edges_gdf :=
    filter (fun row => negb (isin (u (snd row)) to_drop && isin (v (snd row)) to_drop))
           edges_gdf in
  nodes_gdf <- recompute_xy nodes_gdf ;;
  edges_gdf <- correct_edges nodes_gdf edges_gdf ;;
  Ok (clean_network (nodes_gdf, edges_gdf) clean_settings).

(** One iteration of the loop of [simplify_stations]. *)
Definition simplify_step (row : Z * edge G) (s : merge_state) : result merge_state :=
  let '(nodes_gdf, edges_gdf, to_drop) := s in
  e <- loc edges_gdf (fst row) ;;
  let u := u e in
  let v := v e in
  nu <- loc nodes_gdf u ;;
  nv <- loc nodes_gdf v ;;
  if option_string_eqb (n_name nu) (n_name nv)
     && negb (option_string_eqb (n_name nu) None)
  then
    let edges_gdf := rewire v u edges_gdf in
    centroid <- centroid_of nodes_gdf u v ;;
    let nodes_gdf := at_set nodes_gdf u (set_n_geometry centroid) in
    Ok (nodes_gdf, edges_gdf, to_drop ++ [v])
  else Ok s.

(** [simplify_stations(nodes_gdf, edges_gdf)] *)
Definition simplify_stations (g : graph G) : result (graph G) :=
  let '(nodes_gdf, edges_gdf) := g in
  s <- foldM simplify_step edges_gdf (nodes_gdf, edges_gdf, []) ;;
  finish_merge s.

(** Does the loop of [merge_station_nodes] merge the ends [nu], [nv] of an
    edge (lines 227 and 228)? *)
Definition mergeable (nu nv : node G) : bool :=
  negb (stationID nu =? stationID nv)
  && ((stationID nu =? unassigned) || (stationID nv =? unassigned)).

(** One iteration of the loop of [merge_station_nodes]. *)
Definition merge_step (old_edges_gdf : frame (edge G)) (tolerance : Q)
           (row : Z * edge G) (s : merge_state) : result merge_state :=
  let '(nodes_gdf, edges_gdf, to_drop) := s in
  e <- loc old_edges_gdf (fst row) ;;
  let u := u e in
  let v := v e in
  if Qgtb (geom_length (e_geometry e)) tolerance then Ok s
  else
    nu <- loc nodes_gdf u ;;
    nv <- loc nodes_gdf v ;;
    if mergeable nu nv then
      let '(nodeID, drop) :=
        if negb (stationID nu =? unassigned) then (u, v) else (v, u) in
      centroid <- centroid_of nodes_gdf u v ;;
      let nodes_gdf := at_set nodes_gdf nodeID (set_n_geometry centroid) in
      let edges_gdf := rewire drop nodeID edges_gdf in
      Ok (nodes_gdf, edges_gdf, to_drop ++ [drop])
    else Ok s.

(** The loop of [merge_station_nodes] (lines 218 to 241). *)
Definition merge_loop (tolerance : Q) (g : graph G) : result merge_state :=
  let '(nodes_gdf, edges_gdf) := g in
  let old_edges_gdf := edges_gdf in
  foldM (merge_step old_edges_gdf tolerance) old_edges_gdf (nodes_gdf, edges_gdf, []).

(** [merge_station_nodes(nodes_gdf, edges_gdf, tolerance = 40)] *)
Definition merge_station_nodes (tolerance : Q) (g : graph G) : result (graph G) :=
  s <- merge_loop tolerance g ;;
  finish_merge s.

(** [dissolve_stations(nodes_gdf, edges_gdf)] *)
Definition dissolve_stations (g : graph G) : result (graph G) :=
  g <- simplify_stations g ;;
  g <- merge_station_nodes 40 g ;;
  simplify_stations g.

(** ** Station extension *)










(** ** Vocabulary of the properties *)

(** The branch the loop of [assign_stations_to_nodes] takes for the station
    [row] in the state [g]. *)
Definition attachment_of (stations_gdf : frame (station G)) (row : Z * station G)
           (g : graph G) : result attachment :=
  st <- loc stations_gdf (fst row) ;;
  dist_nodes <- distance_geometry_gdf (@n_geometry G) (s_geometry st) (fst g) ;;
  dist_edges <- distance_geometry_gdf (@e_geometry G) (s_geometry st) (snd g) ;;
  Ok (attach dist_nodes dist_edges).

(** Node [i] is chosen as attachment target by one of the stations [rows]
    when the loop runs on them from the state [g]. *)
Inductive chosen (stations_gdf : frame (station G)) (i : Z)
  : list (Z * station G) -> graph G -> Prop :=
| chosen_now (row : Z * station G) (rest : list (Z * station G)) (g : graph G) :
    attachment_of stations_gdf row g = Ok (Snapped i) ->
    chosen stations_gdf i (row :: rest) g
| chosen_later (row : Z * station G) (rest : list (Z * station G)) (g g' : graph G) :
    assign_station stations_gdf row g = Ok g' ->
    chosen stations_gdf i rest g' ->
    chosen stations_gdf i (row :: rest) g.

(** The edge [e] of the table is one the loop of [merge_station_nodes]
    merges: it is not longer than the tolerance and its two nodes [nu] and
    [nv] are a station and a plain node. *)
Definition merged_edge (tolerance : Q) (g : graph G) (row : Z * edge G)
           (e : edge G) (nu nv : node G) : Prop :=
  In row (snd g) /\
  loc (snd g) (fst row) = Ok e /\
  Qgtb (geom_length (e_geometry e)) tolerance = false /\
  loc (fst g) (u e) = Ok nu /\
  loc (fst g) (v e) = Ok nv /\
  mergeable nu nv = true.

(** The node that survives the merge of the ends of [e], and the one that
    is dropped. *)
Definition survivor (e : edge G) (nu : node G) : Z :=
  if negb (stationID nu =? unassigned) then u e else v e.

Definition dropped (e : edge G) (nu : node G) : Z :=
  if negb (stationID nu =? unassigned) then v e else u e.

(** An edge with every end at [old] moved to [new]. *)
Definition redirect (old new : Z) (e : edge G) : edge G :=
  {| edgeID := edgeID e;
     u := if u e =? old then new else u e;
     v := if v e =? old then new else v e;
     e_geometry := e_geometry e; e_name := e_name e |}.

(** The stationID of the node labelled [l]. *)
Definition station_of (nodes_gdf : frame (node G)) (l : Z) : result Z :=
  n <- loc nodes_gdf l ;; Ok (stationID n).

(** What the loop of [merge_station_nodes] keeps true: the nodes keep their
    labels and stationIDs, only plain nodes are scheduled for removal, and
    no edge ends at a scheduled node. *)
Definition merge_invariant (nodes_gdf : frame (node G)) (s : merge_state) : Prop :=
  let '(nodes_s, edges_s, to_drop) := s in
  index nodes_s = index nodes_gdf /\
  (forall l, station_of nodes_s l = station_of nodes_gdf l) /\
  (forall d, In d to_drop -> station_of nodes_gdf d = Ok unassigned) /\
  (forall r d, In r edges_s -> In d to_drop -> u (snd r) <> d /\ v (snd r) <> d).

(** The station columns of the node labelled [l]. *)
Definition station_columns (nodes_gdf : frame (node G)) (l : Z)
  : result (Z * option string) :=
  n <- loc nodes_gdf l ;; Ok (stationID n, n_name n).

(** Every row is labelled by its identifier, and no label is used twice. *)
Definition labelled_by {R : Type} (id : R -> Z) (f : frame R) : Prop :=
  (forall row, In row f -> fst row = id (snd row)) /\ NoDup (index f).

(** Both ends of every edge are labels of nodes. *)
Definition ends_are_nodes (g : graph G) : Prop :=
  forall row, In row (snd g) ->
              In (u (snd row)) (index (fst g)) /\ In (v (snd row)) (index (fst g)).

(** The loop of [assign_stations_to_nodes] (lines 139 to 172). *)
Definition assign_loop (stations_gdf : frame (station G)) (g : graph G)
  : result (graph G) :=
  foldM (assign_station stations_gdf) stations_gdf (reset_stations (fst g), snd g).


(** Two node rows with the same label and station columns. *)
Definition same_columns (a b : Z * node G) : Prop :=
  fst a = fst b /\ stationID (snd a) = stationID (snd b) /\ n_name (snd a) = n_name (snd b).

(** What the loop of [simplify_stations] keeps true: the nodes keep their
    labels and station columns, and only named nodes are scheduled for
    removal. *)
Definition simplify_invariant (nodes_gdf : frame (node G)) (s : merge_state) : Prop :=
  let '(nodes_s, edges_s, to_drop) := s in
  index nodes_s = index nodes_gdf /\
  (forall l, station_columns nodes_s l = station_columns nodes_gdf l) /\
  (forall d, In d to_drop ->
             exists sid name, station_columns nodes_gdf d = Ok (sid, name) /\ name <> None).

(** The name of the node labelled [l]. *)
Definition name_of (nodes_gdf : frame (node G)) (l : Z) : result (option string) :=
  n <- loc nodes_gdf l ;; Ok (n_name n).

(** How the row [c] of the edge table inside the loop of
    [simplify_stations] follows the row [o] of the input: same label, ends at
    nodes with the names of the ends of [o], and its end [v] is that of [o]
    unless that node is scheduled for removal. *)
Definition tracks (nodes_gdf : frame (node G)) (to_drop : list Z) (o c : Z * edge G) : Prop :=
  fst o = fst c /\
  name_of nodes_gdf (u (snd c)) = name_of nodes_gdf (u (snd o)) /\
  name_of nodes_gdf (v (snd c)) = name_of nodes_gdf (v (snd o)) /\
  (v (snd c) = v (snd o) \/ In (v (snd o)) to_drop).

(** A node that is no station, or that has the label and the name of a
    station feature. *)
Definition from_station (stations_gdf : frame (station G)) (n : node G) : Prop :=
  (stationID n = unassigned /\ n_name n = None) \/
  exists st, loc stations_gdf (stationID n) = Ok st /\ n_name n = s_name st.

(** Every node is labelled by its nodeID, every edge by its edgeID, no label
    is used twice and both ends of every edge are nodes. *)
Definition well_indexed (g : graph G) : Prop :=
  labelled_by (@nodeID G) (fst g) /\ labelled_by (@edgeID G) (snd g) /\ ends_are_nodes g.


End Network.
End TransportNetwork.

(** * A planar instance of the geometry interface

    Exact rational geometry of points, polylines and simple polygons.  The
    predicates are decided with cross products; the only inexact operation is
    the square root of lengths and distances, taken to six decimals (exact
    on the axis-parallel and Pythagorean scenes below). *)

Module Plane.

Local Open Scope Q_scope.

Inductive kind : Type := KPoint | KLine | KPolygon.

(** [Shape KPoint [p]], [Shape KLine cs], [Shape KPolygon ring] (the closed
    exterior ring), and the buffer of such a shape by a radius. *)
Inductive geom : Type :=
| Shape (k : kind) (cs : list pt)
| Buffered (k : kind) (cs : list pt) (r : Q).

Definition kind_eqb (a b : kind) : bool :=
  match a, b with
  | KPoint, KPoint | KLine, KLine | KPolygon, KPolygon => true
  | _, _ => false
  end.

Definition is_polygon (k : kind) : bool := kind_eqb k KPolygon.

Definition sub (a b : pt) : pt := (fst a - fst b, snd a - snd b).
Definition dot (a b : pt) : Q := fst a * fst b + snd a * snd b.
Definition cross (a b : pt) : Q := fst a * snd b - snd a * fst b.
Definition along_seg (a b : pt) (t : Q) : pt :=
  (Qred (fst a + t * (fst b - fst a)), Qred (snd a + t * (snd b - snd a))).
Definition midpoint (a b : pt) : pt := along_seg a b (1 # 2).
Definition same_pt (a b : pt) : bool :=
  Qeq_bool (fst a) (fst b) && Qeq_bool (snd a) (snd b).

(** The square root to six decimals. *)
Definition Qsqrt (q : Q) : Q :=
  Qred (Z.sqrt (Qnum q * Z.pos (Qden q) * 10 ^ 12) # (Qden q * 10 ^ 6)).

Definition segment : Type := (pt * pt)%type.

(** The segments of a coordinate sequence; a single point is a segment of
    length zero. *)
Fixpoint segments (cs : list pt) : list segment :=
  match cs with
  | [] => []
  | [p] => [(p, p)]
  | p :: ((q :: _) as cs') =>
      (p, q) :: match cs' with [_] => [] | _ => segments cs' end
  end.

(** On which side of the line [a b] is [c]? *)
Definition orient (a b c : pt) : Q := cross (sub b a) (sub c a).

Definition between (lo hi z : Q) : bool :=
  Qleb (Qmin lo hi) z && Qleb z (Qmax lo hi).

Definition on_segment (p : pt) (s : segment) : bool :=
  let '(a, b) := s in
  Qeq_bool (orient a b p) 0
  && between (fst a) (fst b) (fst p) && between (snd a) (snd b) (snd p).

Definition seg_intersects (s t : segment) : bool :=
  let '(a, b) := s in
  let '(c, d) := t in
  (Qltb (orient c d a * orient c d b) 0 && Qltb (orient a b c * orient a b d) 0)
  || on_segment a t || on_segment b t || on_segment c s || on_segment d s.

(** The point of the segment nearest to [p]. *)
Definition nearest_on_segment (p : pt) (s : segment) : pt :=
  let '(a, b) := s in
  let l2 := dot (sub b a) (sub b a) in
  if Qeq_bool l2 0 then a
  else along_seg a b (Qmax 0 (Qmin 1 (dot (sub p a) (sub b a) / l2))).

Definition dist2_pt (p q : pt) : Q := Qred (dot (sub p q) (sub p q)).

Definition dist2_pt_seg (p : pt) (s : segment) : Q :=
  dist2_pt p (nearest_on_segment p s).

Definition dist2_seg (s t : segment) : Q :=
  if seg_intersects s t then 0
  else Qmin (Qmin (dist2_pt_seg (fst s) t) (dist2_pt_seg (snd s) t))
            (Qmin (dist2_pt_seg (fst t) s) (dist2_pt_seg (snd t) s)).

(** The smallest value of [f] over [l], and where. *)
Definition argmin {A : Type} (f : A -> Q) (d : A) (l : list A) : A :=
  match l with
  | [] => d
  | a :: l' => fold_left (fun best c => if Qltb (f c) (f best) then c else best) l' a
  end.

Definition on_ring (p : pt) (cs : list pt) : bool :=
  existsb (on_segment p) (segments cs).

(** Ray casting: does the ray from [p] to the right cross the ring an odd
    number of times? *)
Definition crossings_odd (p : pt) (ring : list pt) : bool :=
  fold_left
    (fun odd s =>
       let '(a, b) := s in
       if negb (Bool.eqb (Qltb (snd p) (snd a)) (Qltb (snd p) (snd b)))
          && Qltb (fst p)
                  (fst a + (snd p - snd a) * (fst b - fst a) / (snd b - snd a))
       then negb odd else odd)
    (segments ring) false.

Definition strictly_inside (p : pt) (ring : list pt) : bool :=
  negb (on_ring p ring) && crossings_odd p ring.

(** Is the point [p] a point of the shape? *)
Definition covers (k : kind) (cs : list pt) (p : pt) : bool :=
  on_ring p cs || (is_polygon k && crossings_odd p cs).

Definition first_inside (k : kind) (cs other : list pt) : bool :=
  match other with
  | [] => false
  | p :: _ => is_polygon k && strictly_inside p cs
  end.

Definition shapes_intersect (k1 : kind) (c1 : list pt) (k2 : kind) (c2 : list pt) : bool :=
  existsb (fun s => existsb (seg_intersects s) (segments c2)) (segments c1)
  || first_inside k1 c1 c2 || first_inside k2 c2 c1.

Definition dist2 (k1 : kind) (c1 : list pt) (k2 : kind) (c2 : list pt) : Q :=
  if shapes_intersect k1 c1 k2 c2 then 0
  else
    let pairs := list_prod (segments c1) (segments c2) in
    match pairs with
    | [] => 0
    | st :: _ =>
        let best := argmin (fun st => dist2_seg (fst st) (snd st)) st pairs in
        dist2_seg (fst best) (snd best)
    end.

(** The boundary of a line is its two ends, unless it is closed. *)
Definition boundary_pts (k : kind) (cs : list pt) : list pt :=
  match k, cs with
  | KLine, p :: _ => if same_pt p (last cs p) then [] else [p; last cs p]
  | _, _ => []
  end.

Definition in_interior (k : kind) (cs : list pt) (p : pt) : bool :=
  match k with
  | KPoint => on_ring p cs
  | KLine => on_ring p cs && negb (existsb (same_pt p) (boundary_pts k cs))
  | KPolygon => strictly_inside p cs
  end.

(** Where the lines through two crossing segments meet. *)
Definition crossing_point (s t : segment) : list pt :=
  let '(a, b) := s in
  let '(c, d) := t in
  let den := cross (sub b a) (sub d c) in
  if Qeq_bool den 0 then []
  else [along_seg a b (cross (sub c a) (sub d c) / den)].

(** The points of the segment [s] where something happens with respect to
    the segments [ts]: its ends, the ends of a [t] that lie on it, the
    crossings; and the middle of any two of them. *)
Definition events (s : segment) (ts : list segment) : list pt :=
  let ev :=
    fst s :: snd s ::
    flat_map (fun t =>
                filter (fun p => on_segment p s && on_segment p t)
                       (fst t :: snd t :: crossing_point s t)) ts in
  ev ++ map (fun pq => midpoint (fst pq) (snd pq)) (list_prod ev ev).

Definition interiors_meet (k1 : kind) (c1 : list pt) (k2 : kind) (c2 : list pt) : bool :=
  let w := flat_map (fun s => events s (segments c2)) (segments c1)
           ++ flat_map (fun t => events t (segments c1)) (segments c2) in
  existsb (fun p => in_interior k1 c1 p && in_interior k2 c2 p) w.

Definition plane_intersects (g h : geom) : bool :=
  match g, h with
  | Shape k1 c1, Shape k2 c2 => shapes_intersect k1 c1 k2 c2
  | Shape k1 c1, Buffered k2 c2 r
  | Buffered k2 c2 r, Shape k1 c1 => Qleb (dist2 k1 c1 k2 c2) (r * r)
  | Buffered k1 c1 r1, Buffered k2 c2 r2 =>
      Qleb (dist2 k1 c1 k2 c2) ((r1 + r2) * (r1 + r2))
  end.

(** Two shapes touch when they meet but their interiors do not; a shape
    touches a buffer when it lies at exactly its radius. *)
Definition plane_touches (g h : geom) : bool :=
  match g, h with
  | Shape k1 c1, Shape k2 c2 =>
      shapes_intersect k1 c1 k2 c2 && negb (interiors_meet k1 c1 k2 c2)
  | Shape k1 c1, Buffered k2 c2 r
  | Buffered k2 c2 r, Shape k1 c1 => Qeq_bool (dist2 k1 c1 k2 c2) (r * r)
  | Buffered k1 c1 r1, Buffered k2 c2 r2 =>
      Qeq_bool (dist2 k1 c1 k2 c2) ((r1 + r2) * (r1 + r2))
  end.

Definition plane_distance (g h : geom) : Q :=
  match g, h with
  | Shape k1 c1, Shape k2 c2 => Qsqrt (dist2 k1 c1 k2 c2)
  | Shape k1 c1, Buffered k2 c2 r
  | Buffered k2 c2 r, Shape k1 c1 => Qmax 0 (Qsqrt (dist2 k1 c1 k2 c2) - r)
  | Buffered k1 c1 r1, Buffered k2 c2 r2 =>
      Qmax 0 (Qsqrt (dist2 k1 c1 k2 c2) - r1 - r2)
  end.

Definition seg_length (s : segment) : Q := Qsqrt (dist2_pt (fst s) (snd s)).

Definition path_length (cs : list pt) : Q :=
  Qred (fold_left (fun acc s => acc + seg_length s) (segments cs) 0).

(** The length of a line, the perimeter of a polygon; the perimeter of a
    buffer is not computed. *)
Definition plane_length (g : geom) : Q :=
  match g with
  | Shape KPoint _ => 0
  | Shape _ cs => path_length cs
  | Buffered _ _ _ => 0
  end.

Definition plane_coords (g : geom) : list pt :=
  match g with
  | Shape _ cs => cs
  | Buffered _ cs _ => cs
  end.

Definition plane_bounds (g : geom) : bbox :=
  let cs := plane_coords g in
  let r := match g with Shape _ _ => 0 | Buffered _ _ r => r end in
  match cs with
  | [] => (0, 0, 0, 0)
  | p :: cs' =>
      (fold_left Qmin (map fst cs') (fst p) - r,
       fold_left Qmin (map snd cs') (snd p) - r,
       fold_left Qmax (map fst cs') (fst p) + r,
       fold_left Qmax (map snd cs') (snd p) + r)
  end.

(** The point at [target] along the segments. *)
Fixpoint walk (ss : list segment) (target : Q) (d : pt) : pt :=
  match ss with
  | [] => d
  | s :: ss' =>
      let l := seg_length s in
      if Qleb target l && negb (Qeq_bool l 0)
      then along_seg (fst s) (snd s) (target / l)
      else walk ss' (target - l) (snd s)
  end.

Definition plane_interpolate_half (g : geom) : geom :=
  let cs := plane_coords g in
  Shape KPoint [walk (segments cs) (path_length cs / 2) (hd (0, 0) cs)].

(** The point of [g] nearest to the point [p]. *)
Definition nearest_on (p : pt) (k : kind) (cs : list pt) : pt :=
  if covers k cs p then p
  else
    let s := argmin (dist2_pt_seg p) (p, p) (segments cs) in
    nearest_on_segment p s.

Definition plane_nearest_point (p g : geom) : geom :=
  match plane_coords p, g with
  | q :: _, Shape k cs => Shape KPoint [nearest_on q k cs]
  | _, _ => p
  end.

Definition plane_LineString2 (p q : geom) : geom :=
  Shape KLine (firstn 1 (plane_coords p) ++ firstn 1 (plane_coords q)).

(** A closed ring encloses one polygon; anything else encloses none. *)
Definition plane_polygonize_first (g : geom) : result geom :=
  match g with
  | Shape KLine (p :: cs) =>
      if same_pt p (last cs p) && (3 <=? List.length cs)%nat
      then Ok (Shape KPolygon (p :: cs))
      else Raise IndexError
  | _ => Raise IndexError
  end.

Definition plane_centroid2 (p q : geom) : geom :=
  match plane_coords p, plane_coords q with
  | a :: _, b :: _ => Shape KPoint [midpoint a b]
  | _, _ => p
  end.

(** Cut the coordinates at the point [q] of the segment number [i]. *)
Definition cut_at (cs : list pt) (i : nat) (q : pt) : list pt * list pt :=
  (firstn (S i) cs ++ [q], q :: skipn (S i) cs).

(** Modelled from the spec: section 4.5, "compute the point on that edge's
    geometry nearest to P (interpolation), split the edge's coordinate
    sequence at that point into two substrings". *)
Definition plane_split (p line : geom) : (geom * geom) * geom :=
  match plane_coords p, plane_coords line with
  | q :: _, c :: cs =>
      let numbered := combine (seq 0 (List.length (segments (c :: cs)))) (segments (c :: cs)) in
      let best := argmin (fun ns => dist2_pt_seg q (snd ns)) (0%nat, (c, c)) numbered in
      let cut := nearest_on_segment q (snd best) in
      let '(a, b) := cut_at (c :: cs) (fst best) cut in
      ((Shape KLine a, Shape KLine b), Shape KPoint [cut])
  | _, _ => ((line, line), p)
  end.

Definition plane_wkb_eqb (g h : geom) : bool :=
  match g, h with
  | Shape k1 c1, Shape k2 c2 =>
      kind_eqb k1 k2 && (Nat.eqb (List.length c1) (List.length c2))
      && forallb (fun pq => same_pt (fst pq) (snd pq)) (combine c1 c2)
  | Buffered k1 c1 r1, Buffered k2 c2 r2 =>
      kind_eqb k1 k2 && (Nat.eqb (List.length c1) (List.length c2))
      && forallb (fun pq => same_pt (fst pq) (snd pq)) (combine c1 c2)
      && Qeq_bool r1 r2
  | _, _ => false
  end.

Definition plane_buffer (g : geom) (r : Q) : geom :=
  match g with
  | Shape k cs => Buffered k cs r
  | Buffered k cs r0 => Buffered k cs (r0 + r)
  end.

#[export] Instance plane_shapely : Shapely geom := {
  coords := plane_coords;
  wkb_eqb := plane_wkb_eqb;
  LineString := Shape KLine;
  geom_length := plane_length;
  distance := plane_distance;
  intersects := plane_intersects;
  touches := plane_touches;
  buffer := plane_buffer;
  bounds := plane_bounds;
  interpolate_half := plane_interpolate_half;
  nearest_point := plane_nearest_point;
  LineString2 := plane_LineString2;
  polygonize_first := plane_polygonize_first;
  centroid2 := plane_centroid2;
  split_line_at_interpolation := plane_split
}.

(** No cleanup rule beyond those of section 4.3. *)
#[export] Instance plane_rules : TransportNetwork.CleanRules geom := {
  TransportNetwork.islands_rule := fun g => g;
  TransportNetwork.dead_ends_rule := fun g => g;
  TransportNetwork.same_uv_rule := fun g => g;
  TransportNetwork.fix_topology_rule := fun g => g
}.

Definition point (x y : Q) : geom := Shape KPoint [(x, y)].
Definition line (cs : list pt) : geom := Shape KLine cs.

End Plane.

(** * Scenes

    Small explicit inputs on which the functions are run. *)

Module Scenes.
Import Plane.

Local Open Scope Q_scope.

(** ** A street over a canal

    Street 0 runs from (0,0) to (100,0) and continues as street 1 to
    (200,0).  Water barrier 1 runs across street 0 at x = 30; water barrier 2
    runs parallel to it, 30 units to the north; water barrier 3 starts at the
    end (100,0) of street 0 and leaves to the north. *)

Definition canal_streets : frame (edge geom) :=
  [ (0%Z, {| edgeID := 0; u := 0; v := 1;
             e_geometry := line [(0, 0); (100, 0)]; e_name := None |});
    (1%Z, {| edgeID := 1; u := 1; v := 2;
             e_geometry := line [(100, 0); (200, 0)]; e_name := None |}) ].

Definition street0 : edge geom :=
  {| edgeID := 0; u := 0; v := 1; e_geometry := line [(0, 0); (100, 0)]; e_name := None |}.

Definition canal_across : barrier geom :=
  {| barrierID := 1; b_geometry := line [(30, -20); (30, 20)]; b_type := water |}.

Definition canal_beside : barrier geom :=
  {| barrierID := 2; b_geometry := line [(0, 30); (100, 30)]; b_type := water |}.

Definition canal_at_end : barrier geom :=
  {| barrierID := 3; b_geometry := line [(100, 0); (100, 40)]; b_type := water |}.

Definition canal_barriers : list (barrier geom) :=
  [canal_across; canal_beside; canal_at_end].

(** The columns [along_water] computes for street 0. *)
Definition street0_columns : Barriers.water_columns :=
  {| Barriers.ac_rivers := [1%Z; 2%Z]; Barriers.c_rivers := [1%Z];
     Barriers.bridge := true; Barriers.a_rivers := [] |}.

(** The relation record of street 0. *)
Definition street0_relations : Barriers.relation_record :=
  {| Barriers.along := []; Barriers.crossing := [1%Z]; Barriers.within := [] |}.

(** ** A path inside a park

    The park barrier 0 is the boundary of the square from (0,0) to (100,100);
    path 0 runs from (40,30) to (60,30), inside the square. *)

Definition park_path : edge geom :=
  {| edgeID := 0; u := 0; v := 1; e_geometry := line [(40, 30); (60, 30)]; e_name := None |}.

Definition park_paths : frame (edge geom) := [(0%Z, park_path)].

Definition park_boundary : barrier geom :=
  {| barrierID := 0;
     b_geometry := line [(0, 0); (100, 0); (100, 100); (0, 100); (0, 0)];
     b_type := park |}.

Definition park_barriers : list (barrier geom) := [park_boundary].

(** A second path, from the point (0,30) of the boundary to (20,30)
    inside the park. *)
Definition park_entry : edge geom :=
  {| edgeID := 0; u := 0; v := 1; e_geometry := line [(0, 30); (20, 30)]; e_name := None |}.

Definition park_entries : frame (edge geom) := [(0%Z, park_entry)].

(** The columns [along_within_parks] computes for the second path. *)
Definition park_entry_columns : Barriers.park_columns :=
  {| Barriers.a_parks := []; Barriers.w_parks := [0%Z]; Barriers.aw_parks := [0%Z] |}.

(** The relation record of the path. *)
Definition park_path_relations : Barriers.relation_record :=
  {| Barriers.along := [0%Z]; Barriers.crossing := []; Barriers.within := [0%Z] |}.

(** ** A track and three station features

    Nodes 0 at (0,0) and 1 at (100,0), joined by edge 0; node 0 comes with
    station columns of an earlier run.  The station features: 7 at (30,16),
    which is 34 units from node 0 and 16 units from the track; 8 at (100,3),
    3 units from node 1; 9 at (500,500), far from everything. *)

Definition plain_node (i : Z) (px py : Q) (sid : Z) (name : option string) : Z * node geom :=
  (i, {| nodeID := i; n_geometry := point px py; x := px; y := py;
         stationID := sid; n_name := name |}).

Definition track_nodes : frame (node geom) :=
  [ plain_node 0 0 0 12 (Some "Old"%string);
    plain_node 1 100 0 TransportNetwork.unassigned None ].

Definition plain_edge (i a b : Z) (cs : list pt) : Z * edge geom :=
  (i, {| edgeID := i; u := a; v := b; e_geometry := line cs; e_name := None |}).

Definition track_edges : frame (edge geom) := [ plain_edge 0 0 1 [(0, 0); (100, 0)] ].

Definition track : TransportNetwork.graph geom := (track_nodes, track_edges).

Definition halt : Z * station geom :=
  (7%Z, {| s_geometry := point 30 16; s_name := Some "Halt"%string |}).

Definition terminus : Z * station geom :=
  (8%Z, {| s_geometry := point 100 3; s_name := Some "Terminus"%string |}).

Definition remote : Z * station geom :=
  (9%Z, {| s_geometry := point 500 500; s_name := Some "Remote"%string |}).

Definition track_stations : frame (station geom) := [halt; terminus; remote].

(** The track when the loop starts. *)
Definition track_reset : TransportNetwork.graph geom :=
  (TransportNetwork.reset_stations track_nodes, track_edges).

(** The stations 8 and 9 alone. *)
Definition served_stations : frame (station geom) := [terminus; remote].

(** What [assign_stations_to_nodes] returns for the track and these two:
    node 1 is station 8. *)
Definition track_served : TransportNetwork.graph geom :=
  ([ plain_node 0 0 0 TransportNetwork.unassigned None;
     plain_node 1 100 0 8 (Some "Terminus"%string) ],
   track_edges).

(** ** A station with two plain nodes behind it

    Node 0 at (0,0) is station 5, "X"; nodes 1 at (10,0) and 2 at (20,0) are
    no stations.  Edge 0 joins 0 and 1, edge 1 joins 1 and 2. *)

Definition chain_nodes : frame (node geom) :=
  [ plain_node 0 0 0 5 (Some "X"%string);
    plain_node 1 10 0 TransportNetwork.unassigned None;
    plain_node 2 20 0 TransportNetwork.unassigned None ].

Definition chain_edges : frame (edge geom) :=
  [ plain_edge 0 0 1 [(0, 0); (10, 0)]; plain_edge 1 1 2 [(10, 0); (20, 0)] ].

Definition chain : TransportNetwork.graph geom := (chain_nodes, chain_edges).

(** The chain dissolved once: node 1 is merged into node 0, which moves to
    (5,0); edge 0 has become a loop of length zero and is gone. *)
Definition chain_once : TransportNetwork.graph geom :=
  ([ plain_node 0 5 0 5 (Some "X"%string);
     plain_node 2 20 0 TransportNetwork.unassigned None ],
   [ plain_edge 1 0 2 [(5, 0); (20, 0)] ]).

(** The chain dissolved twice: node 2 is merged as well. *)
Definition chain_twice : TransportNetwork.graph geom :=
  ([ plain_node 0 (25 # 2) 0 5 (Some "X"%string) ], []).

(** ** Two stations on either side of a track

    Nodes 0 at (0,0) and 1 at (100,0), joined by edge 0.  Node 2 at (50,10)
    is station 1, "A"; node 3 at (50,-5) is station 2, "B". *)




(** ** Three railway lines

    A line from (0,0) to (10,0); a loop of length 40 around the square from
    (0,0) to (10,10); a loop of length one half from (20,0) to (20.25,0) and
    back. *)

Definition rail_lines : frame (TransportNetwork.railway (G := geom)) :=
  [ (0%Z, {| TransportNetwork.r_geometry := line [(0, 0); (10, 0)];
             TransportNetwork.r_name := None |});
    (1%Z, {| TransportNetwork.r_geometry :=
               line [(0, 0); (10, 0); (10, 10); (0, 10); (0, 0)];
             TransportNetwork.r_name := None |});
    (2%Z, {| TransportNetwork.r_geometry := line [(20, 0); (20.25, 0); (20, 0)];
             TransportNetwork.r_name := None |}) ].

(** The end coordinates of the lines, each once, in the order met. *)
Fixpoint end_coordinates (seen : list pt) (lines : list (list pt)) : list pt :=
  match lines with
  | [] => rev seen
  | cs :: lines' =>
      let add p seen := if existsb (same_pt p) seen then seen else p :: seen in
      match cs with
      | [] => end_coordinates seen lines'
      | p :: _ => end_coordinates (add (last cs p) (add p seen)) lines'
      end
  end.

(** Modelled from the spec: [obtain_nodes_gdf] (load.py, not under src/).
    Section 4.2: "a coordinate not yet seen is assigned a new dense nodeID";
    one row per distinct end coordinate. *)
Definition obtain_nodes_gdf (edges_gdf : frame (TransportNetwork.railway (G := geom)))
  : frame (node geom) :=
  let ends :=
    end_coordinates [] (map (fun r => plane_coords (TransportNetwork.r_geometry (snd r)))
                            edges_gdf) in
  map (fun ip => plain_node (Z.of_nat (fst ip)) (fst (snd ip)) (snd (snd ip))
                            TransportNetwork.unassigned None)
      (combine (seq 0 (List.length ends)) ends).

Definition node_at (nodes_gdf : frame (node geom)) (p : pt) : Z :=
  match find (fun r => same_pt (x (snd r), y (snd r)) p) nodes_gdf with
  | Some r => nodeID (snd r)
  | None => (-1)%Z
  end.

(** Modelled from the spec: [join_by_coordinates] (load.py, not under src/).
    Section 4.2: "for each line, its first and last coordinates are looked
    up in a coordinate to nodeID table ... the edge records the two endpoint
    IDs". *)
Definition join_by_coordinates (nodes_gdf : frame (node geom))
           (edges_gdf : frame (TransportNetwork.railway (G := geom)))
  : frame (node geom) * frame (edge geom) :=
  (nodes_gdf,
   map (fun r =>
          let cs := plane_coords (TransportNetwork.r_geometry (snd r)) in
          (fst r,
           {| edgeID := fst r;
              u := node_at nodes_gdf (hd (0, 0) cs);
              v := node_at nodes_gdf (last cs (0, 0));
              e_geometry := TransportNetwork.r_geometry (snd r);
              e_name := TransportNetwork.r_name (snd r) |}))
       edges_gdf).

(** Nodes made from distinct coordinates hold no duplicates: nothing to do. *)
Definition duplicate_nodes
           (g : frame (node geom) * frame (edge geom * (Z * Z)))
  : frame (node geom) * frame (edge geom * (Z * Z)) := g.

(** ** Four roads

    A main road of 600 m from (0, 0) to (600, 0); a spur of 50 m leaving
    its far end; a road of 300 m that meets no other; and a closed ramp of
    120 m. *)

Definition main_road : geom := line [(0, 0); (600, 0)].
Definition spur : geom := line [(600, 0); (650, 0)].
Definition lone_road : geom := line [(0, 100); (300, 100)].
Definition ramp : geom := line [(0, 200); (30, 200); (30, 240); (0, 200)].

Definition road_features : list geom := [main_road; spur; lone_road; ramp].

Definition road_features_kept : list (geom * barrier_type) :=
  [(main_road, road); (ramp, road)].

(** ** What the barrier functions return on the scenes *)

Definition street1 : edge geom :=
  {| edgeID := 1; u := 1; v := 2; e_geometry := line [(100, 0); (200, 0)]; e_name := None |}.

Definition canal_along_water : frame (edge geom * (bool * list Z)) :=
  [ (0%Z, (street0, (true, []))); (1%Z, (street1, (false, [2%Z]))) ].

Definition park_along_within : frame (edge geom * list Z) :=
  [ (0%Z, (park_path, [0%Z])) ].

(** ** Two platforms of one station

    Nodes 0 at (0,0) and 1 at (10,0) are the stations 3 and 4, both named
    "Central"; node 2 at (60,0) is no station.  Edge 0 joins 0 and 1, edge 1
    joins 1 and 2. *)

Definition platform_nodes : frame (node geom) :=
  [ plain_node 0 0 0 3 (Some "Central"%string);
    plain_node 1 10 0 4 (Some "Central"%string);
    plain_node 2 60 0 TransportNetwork.unassigned None ].

Definition platform_edges : frame (edge geom) :=
  [ plain_edge 0 0 1 [(0, 0); (10, 0)]; plain_edge 1 1 2 [(10, 0); (60, 0)] ].

Definition platforms : TransportNetwork.graph geom := (platform_nodes, platform_edges).

(** The platforms merged by name: node 1 is gone, node 0 has moved to (5,0). *)
Definition platforms_simplified : TransportNetwork.graph geom :=
  ([ plain_node 0 5 0 3 (Some "Central"%string);
     plain_node 2 60 0 TransportNetwork.unassigned None ],
   [ plain_edge 1 0 2 [(5, 0); (60, 0)] ]).

End Scenes.

(** * Facts shared by the proofs *)

Unset Implicit Arguments.

Lemma bind_Ok {A B : Type} (r : result A) (k : A -> result B) (b : B) :
  bind r k = Ok b -> exists a, r = Ok a /\ k a = Ok b.
Proof.
  destruct r as [a | e]; simpl; intros Hb; [eauto | discriminate].
Qed.

(** [inv_bind H as x Hx]: the first step of [H : (x <- r ;; k) = Ok b] gave
    [x], by [Hx]; [H] is left with the rest. *)
Tactic Notation "inv_bind" hyp(H) "as" simple_intropattern(x) simple_intropattern(Hx) :=
  apply bind_Ok in H; destruct H as [x [Hx H]].

Lemma isin_In (i : Z) (l : list Z) : isin i l = true <-> In i l.
Proof.
  unfold isin. rewrite existsb_exists. split.
  - intros [j [Hj Heq]]. apply Z.eqb_eq in Heq. now subst.
  - intros Hi. exists i. split; [assumption | apply Z.eqb_refl].
Qed.

Lemma isin_false (i : Z) (l : list Z) : isin i l = false <-> ~ In i l.
Proof.
  rewrite <- isin_In. destruct (isin i l); split; congruence.
Qed.

Lemma NoDup_map_injective {A B : Type} (f : A -> B) (l : list A) (a b : A) :
  NoDup (map f l) -> In a l -> In b l -> f a = f b -> a = b.
Proof.
  induction l as [| c l IH]; simpl; intros Hnd Ha Hb Hf; [contradiction |].
  inversion Hnd as [| ? ? Hnotin Hnd']; subst.
  destruct Ha as [-> | Ha], Hb as [-> | Hb]; auto.
  - exfalso. apply Hnotin. rewrite Hf. now apply in_map.
  - exfalso. apply Hnotin. rewrite <- Hf. now apply in_map.
Qed.


Lemma mapM_Ok_In {A B : Type} (f : A -> result B) (l : list A) (l' : list B) (b : B) :
  mapM f l = Ok l' -> In b l' -> exists a, In a l /\ f a = Ok b.
Proof.
  revert l'. induction l as [| a l IH]; simpl; intros l' Hm Hb.
  - inversion Hm; subst. contradiction.
  - inv_bind Hm as b0 Hb0.
    inv_bind Hm as bs Hbs.
    inversion Hm; subst. destruct Hb as [<- | Hb]; [eauto |].
    destruct (IH bs Hbs Hb) as [a' [Ha' Hf]]. eauto.
Qed.

Lemma mapM_Ok_In_source {A B : Type} (f : A -> result B) (l : list A) (l' : list B) (a : A) :
  mapM f l = Ok l' -> In a l -> exists b, In b l' /\ f a = Ok b.
Proof.
  revert l'. induction l as [| a0 l IH]; simpl; intros l' Hm Ha; [contradiction |].
  inv_bind Hm as b0 Hb0.
  inv_bind Hm as bs Hbs.
  inversion Hm; subst. destruct Ha as [<- | Ha].
  - exists b0. simpl. auto.
  - destruct (IH bs Hbs Ha) as [b [Hb Hf]]. exists b. simpl. auto.
Qed.

(** * Facts about barriers.py *)

Module BarriersFacts.
Import Barriers.

Section Relations.
Context {G : Type} `{Shapely G}.

(** The identifiers that survive the exclusion of the touching barriers
    belong to barriers of the collection that do not touch. *)
Lemma not_touching_ids (keep touching : list (barrier G)) (i : Z) :
  In i (map (@barrierID G)
            (filter (fun b => negb (isin (barrierID b) (map (@barrierID G) touching)))
                    keep)) ->
  In i (map (@barrierID G) keep) /\ ~ In i (map (@barrierID G) touching).
Proof.
  rewrite in_map_iff. intros [b [Hid Hb]]. apply filter_In in Hb.
  destruct Hb as [Hb Hnot]. apply negb_true_iff in Hnot. apply isin_false in Hnot.
  subst i. split; [now apply in_map | assumption].
Qed.

Lemma _crossing_barriers_ids (line_geometry : G) (barriers_gdf : list (barrier G)) (i : Z) :
  In i (_crossing_barriers line_geometry barriers_gdf) ->
  (exists b, In b barriers_gdf /\ barrierID b = i) /\
  ~ In i (map (@barrierID G)
              (filter (fun b => touches (b_geometry b) line_geometry) barriers_gdf)).
Proof.
  unfold _crossing_barriers.
  destruct (List.length _ =? 0)%nat; [intros [] |].
  intros Hi. apply not_touching_ids in Hi. destruct Hi as [Hin Hnot].
  split; [| assumption].
  apply in_map_iff in Hin. destruct Hin as [b [Hid Hb]].
  apply filter_In in Hb. exists b. tauto.
Qed.

Lemma _within_parks_ids (line_geometry : G) (polygons : list (barrier G)) (i : Z) :
  In i (_within_parks line_geometry polygons) ->
  exists b, In b polygons /\ barrierID b = i.
Proof.
  unfold _within_parks.
  destruct (List.length _ =? 0)%nat; [intros [] |].
  intros Hi. apply not_touching_ids in Hi. destruct Hi as [Hin _].
  apply in_map_iff in Hin. destruct Hin as [b [Hid Hb]].
  apply filter_In in Hb. exists b. tauto.
Qed.

Lemma barriers_along_ids (ix_line : Z) (edges_gdf : frame (edge G))
      (barriers_gdf : list (barrier G)) (s : sindex_t) (offset : Q) (l : list Z) (i : Z) :
  barriers_along ix_line edges_gdf barriers_gdf s offset = Ok l ->
  In i l ->
  exists row, loc edges_gdf ix_line = Ok row /\
    (exists b, In b barriers_gdf /\ barrierID b = i) /\
    ~ In i (map (@barrierID G)
                (filter (fun b => touches (b_geometry b) (e_geometry row)) barriers_gdf)).
Proof.
  unfold barriers_along. intros Hl Hi.
  inv_bind Hl as row Hrow. exists row. split; [assumption |].
  destruct (List.length _ =? 0)%nat; [inversion Hl; subst; contradiction |].
  inv_bind Hl as pm _. inversion Hl; subst l; clear Hl.
  apply in_map_iff in Hi. destruct Hi as [b [Hid Hb]].
  apply filter_In in Hb. destruct Hb as [Hb _].
  assert (Hi : In i (map (@barrierID G)
             (filter (fun b0 => negb (isin (barrierID b0)
                (map (@barrierID G)
                   (filter (fun b1 => touches (b_geometry b1) (e_geometry row)) barriers_gdf))))
                (filter (fun b0 => intersects (b_geometry b0) (buffer (e_geometry row) offset))
                        barriers_gdf)))).
  { subst i. now apply in_map. }
  apply not_touching_ids in Hi. destruct Hi as [Hin Hnot]. split; [| assumption].
  apply in_map_iff in Hin. destruct Hin as [b' [Hid' Hb']].
  apply filter_In in Hb'. exists b'. tauto.
Qed.

(** The polygonized parks carry the identifiers and types of park rows. *)
Lemma park_polygons_ids (barriers_gdf polygons : list (barrier G)) (p : barrier G) :
  park_polygons barriers_gdf = Ok polygons -> In p polygons ->
  exists b, In b barriers_gdf /\ b_type b = park /\ barrierID b = barrierID p.
Proof.
  unfold park_polygons. intros Hp Hin.
  eapply mapM_Ok_In in Hp; [| exact Hin]. destruct Hp as [b [Hb Hf]].
  apply filter_In in Hb. destruct Hb as [Hb Ht].
  inv_bind Hf as g _. inversion Hf; subst p; simpl.
  exists b. repeat split; auto.
  destruct (b_type b); simpl in Ht; congruence.
Qed.

(** C7.  A barrier whose geometry touches the geometry of an edge is listed
    neither by [_crossing_barriers] for that edge nor by [barriers_along]:
    both remove every row whose barrierID belongs to a touching barrier. *)
Theorem touching_barrier_excluded
        (edges_gdf : frame (edge G)) (barriers_gdf : list (barrier G))
        (ix_line : Z) (row : edge G) (s : sindex_t) (offset : Q) (b : barrier G) :
  loc edges_gdf ix_line = Ok row ->
  In b barriers_gdf ->
  touches (b_geometry b) (e_geometry row) = true ->
  ~ In (barrierID b) (_crossing_barriers (e_geometry row) barriers_gdf) /\
  (forall l, barriers_along ix_line edges_gdf barriers_gdf s offset = Ok l ->
             ~ In (barrierID b) l).
Proof.
  intros Hrow Hb Htouch.
  assert (Hid : In (barrierID b)
                   (map (@barrierID G)
                        (filter (fun b0 => touches (b_geometry b0) (e_geometry row))
                                barriers_gdf))).
  { apply in_map. apply filter_In. split; assumption. }
  split.
  - intros Hin. apply _crossing_barriers_ids in Hin. tauto.
  - intros l Hl Hin.
    eapply barriers_along_ids in Hl; [| exact Hin].
    destruct Hl as [row' [Hrow' [_ Hnot]]].
    rewrite Hrow in Hrow'. inversion Hrow'; subst row'. tauto.
Qed.

(** What [along_water] computes for one row. *)
Lemma along_water_columns_inv
      (edges_gdf : frame (edge G)) (barriers_gdf : list (barrier G))
      (row : edge G) (c : water_columns) :
  along_water_columns edges_gdf barriers_gdf row = Ok c ->
  let tmp := filter (fun b => barrier_type_eqb (b_type b) water) barriers_gdf in
  barriers_along (edgeID row) edges_gdf tmp (sindex edges_gdf) (200 # 1) = Ok (ac_rivers c) /\
  c_rivers c = _crossing_barriers (e_geometry row) tmp /\
  bridge c = (0 <? List.length (c_rivers c))%nat /\
  a_rivers c = if bridge c then [] else ac_rivers c.
Proof.
  intros Hc tmp. unfold along_water_columns in Hc. fold tmp in Hc.
  inv_bind Hc as ac Hac. inversion Hc; subst c; clear Hc.
  simpl. repeat split; try assumption.
  destruct (0 <? _)%nat; reflexivity.
Qed.

(** C2, as the code has it.  The water barriers listed along an edge are
    the unobstructed candidates when no water barrier crosses the edge, and
    none at all when one does; in both cases they are candidates that do not
    cross it. *)
Theorem along_water_excludes_bridges
        (edges_gdf : frame (edge G)) (barriers_gdf : list (barrier G))
        (row : edge G) (c : water_columns) :
  along_water_columns edges_gdf barriers_gdf row = Ok c ->
  let tmp := filter (fun b => barrier_type_eqb (b_type b) water) barriers_gdf in
  barriers_along (edgeID row) edges_gdf tmp (sindex edges_gdf) (200 # 1) = Ok (ac_rivers c) /\
  c_rivers c = _crossing_barriers (e_geometry row) tmp /\
  (c_rivers c = [] -> a_rivers c = ac_rivers c) /\
  (c_rivers c <> [] -> a_rivers c = []) /\
  (forall i, In i (a_rivers c) -> In i (ac_rivers c) /\ ~ In i (c_rivers c)).
Proof.
  intros Hc tmp. apply along_water_columns_inv in Hc. fold tmp in Hc.
  destruct Hc as [Hac [Hcr [Hbr Ha]]].
  split; [assumption |]. split; [assumption |].
  rewrite Ha, Hbr. destruct (c_rivers c) as [| i0 l0]; simpl.
  - split; [reflexivity |]. split; [congruence |].
    intros i Hi. split; [assumption | intros []].
  - split; [discriminate |]. split; [reflexivity |]. intros i [].
Qed.

(** The column [aw_parks] is the union of the along and within lists,
    each barrier once. *)
Lemma aw_parks_union (edges_gdf : frame (edge G)) (barriers_gdf polygons : list (barrier G))
      (row : edge G) (p : park_columns) :
  along_within_parks_columns edges_gdf barriers_gdf polygons row = Ok p ->
  NoDup (aw_parks p) /\
  (forall i, In i (aw_parks p) <-> In i (a_parks p) \/ In i (w_parks p)).
Proof.
  unfold along_within_parks_columns. intros Hp.
  inv_bind Hp as a _. inversion Hp; subst p; clear Hp.
  simpl. unfold set_union. split; [apply NoDup_nodup |].
  intros i. rewrite nodup_In. apply in_app_iff.
Qed.

(** The rows [along_within_parks] returns carry the column [aw_parks]
    described above. *)
Lemma along_within_parks_rows (edges_gdf : frame (edge G)) (barriers_gdf : list (barrier G))
      (out : frame (edge G * list Z)) :
  along_within_parks edges_gdf barriers_gdf = Ok out ->
  exists polygons,
    park_polygons barriers_gdf = Ok polygons /\
    forall i e aw, In (i, (e, aw)) out ->
      In (i, e) edges_gdf /\
      exists p, along_within_parks_columns edges_gdf barriers_gdf polygons e = Ok p /\
                aw = aw_parks p.
Proof.
  unfold along_within_parks. intros Hout.
  inv_bind Hout as a Ha.
  inv_bind Hout as polygons Hpoly.
  inversion Hout; subst out; clear Hout.
  exists polygons. split; [assumption |]. intros i e aw Hin.
  apply in_map_iff in Hin. destruct Hin as [[j [e0 a0]] [Heq Hin]].
  inversion Heq; subst i e aw; clear Heq.
  eapply mapM_Ok_In in Ha; [| exact Hin]. destruct Ha as [[k e1] [Hrow Hf]].
  simpl in Hf. inv_bind Hf as a1 Ha1.
  inversion Hf; subst j e0 a0; clear Hf.
  split; [assumption |]. unfold along_within_parks_columns. rewrite Ha1. simpl. eauto.
Qed.

(** What the specification tests: a water barrier listed as crossing an edge
    is not listed along it. *)
Lemma crossing_never_along_water (edges_gdf : frame (edge G))
      (barriers_gdf : list (barrier G)) (row : edge G) (c : water_columns) :
  along_water_columns edges_gdf barriers_gdf row = Ok c ->
  disjoint (c_rivers c) (a_rivers c).
Proof.
  intros Hc. apply along_water_columns_inv in Hc. destruct Hc as [_ [_ [Hbr Hriv]]].
  intros i Hi. rewrite Hriv, Hbr. destruct (c_rivers c); [contradiction | simpl; tauto].
Qed.

(** A water barrier that touches an edge is in neither column of
    [along_water] for it. *)
Lemma touching_water_barrier_excluded (edges_gdf : frame (edge G))
      (barriers_gdf : list (barrier G)) (i : Z) (row : edge G) (c : water_columns)
      (b : barrier G) :
  loc edges_gdf (edgeID row) = Ok row ->
  In b barriers_gdf -> b_type b = water ->
  touches (b_geometry b) (e_geometry row) = true ->
  along_water_columns edges_gdf barriers_gdf row = Ok c ->
  ~ In (barrierID b) (c_rivers c) /\ ~ In (barrierID b) (a_rivers c).
Proof.
  intros Hrow Hb Hwater Htouch Hc.
  apply along_water_columns_inv in Hc. destruct Hc as [Hac [Hcr [Hbr Hriv]]].
  assert (Htmp : In (barrierID b)
                    (map (@barrierID G)
                       (filter (fun b0 => touches (b_geometry b0) (e_geometry row))
                          (filter (fun b0 => barrier_type_eqb (b_type b0) water)
                                  barriers_gdf)))).
  { apply in_map. apply filter_In. split; [| assumption].
    apply filter_In. split; [assumption |]. now rewrite Hwater. }
  split.
  - rewrite Hcr. intros Hin. apply _crossing_barriers_ids in Hin. tauto.
  - rewrite Hriv. destruct (bridge c); [intros [] |]. intros Hin.
    eapply barriers_along_ids in Hac; [| exact Hin].
    destruct Hac as [row' [Hrow' [_ Hnot]]].
    rewrite Hrow in Hrow'. inversion Hrow'; subst row'. tauto.
Qed.

(** C1, as the code has it.  When the barrierIDs are distinct, the barriers
    crossing an edge are disjoint from those along it and from those it is
    within.  The along and within lists of the parks are not kept apart: the
    column [aw_parks] is their union, each barrier once. *)
Theorem crossing_disjoint_from_along_and_within
        (edges_gdf : frame (edge G)) (barriers_gdf : list (barrier G))
        (row : edge G) (r : relation_record) :
  NoDup (map (@barrierID G) barriers_gdf) ->
  relations edges_gdf barriers_gdf row = Ok r ->
  disjoint (crossing r) (along r) /\ disjoint (crossing r) (within r) /\
  exists polygons p,
    park_polygons barriers_gdf = Ok polygons /\
    along_within_parks_columns edges_gdf barriers_gdf polygons row = Ok p /\
    within r = w_parks p /\
    NoDup (aw_parks p) /\
    (forall i, In i (aw_parks p) <-> In i (a_parks p) \/ In i (w_parks p)).
Proof.
  intros Hnd Hr. unfold relations in Hr.
  inv_bind Hr as w Hw.
  inv_bind Hr as polygons Hpoly.
  inv_bind Hr as p Hp.
  inversion Hr; subst r; clear Hr. simpl.
  apply along_water_columns_inv in Hw. destruct Hw as [_ [Hcross [Hbr Hriv]]].
  assert (Hsub : forall i, In i (c_rivers w) -> ~ In i (a_rivers w)).
  { intros i Hi. rewrite Hriv, Hbr. destruct (c_rivers w); [contradiction | simpl; tauto]. }
  assert (Hwater : forall i, In i (c_rivers w) ->
            exists b, In b barriers_gdf /\ b_type b = water /\ barrierID b = i).
  { intros i Hi. rewrite Hcross in Hi. apply _crossing_barriers_ids in Hi.
    destruct Hi as [[b [Hb Hid]] _]. apply filter_In in Hb. destruct Hb as [Hb Ht].
    exists b. repeat split; auto. destruct (b_type b); simpl in Ht; congruence. }
  assert (Hpark : forall b1 b2, In b1 barriers_gdf -> In b2 barriers_gdf ->
            b_type b1 = water -> b_type b2 = park -> barrierID b1 <> barrierID b2).
  { intros b1 b2 H1 H2 Ht1 Ht2 Heq.
    assert (b1 = b2) by (eapply NoDup_map_injective; eauto). subst b2. congruence. }
  assert (Hunion := aw_parks_union _ _ _ _ _ Hp).
  assert (Hp' := Hp).
  unfold along_within_parks_columns in Hp.
  inv_bind Hp as a Ha.
  assert (Hap : a_parks p = a /\ w_parks p = _within_parks (e_geometry row) polygons)
    by (inversion Hp; subst p; simpl; auto).
  destruct Hap as [Hap Hwp]. rewrite Hap, Hwp. clear Hp.
  split; [| split]; [| | exists polygons, p; rewrite <- Hwp; tauto]; intros i Hi Hin.
  - apply in_app_or in Hin. destruct Hin as [Hin | Hin].
    + apply (Hsub i Hi Hin).
    + destruct (Hwater i Hi) as [b1 [Hb1 [Ht1 Hid1]]].
      eapply barriers_along_ids in Ha; [| exact Hin].
      destruct Ha as [_ [_ [[b2 [Hb2 Hid2]] _]]].
      apply filter_In in Hb2. destruct Hb2 as [Hb2 Ht2].
      apply (Hpark b1 b2); auto; [| congruence].
      destruct (b_type b2); simpl in Ht2; congruence.
  - destruct (Hwater i Hi) as [b1 [Hb1 [Ht1 Hid1]]].
    apply _within_parks_ids in Hin. destruct Hin as [q [Hq Hidq]].
    eapply park_polygons_ids in Hpoly; [| exact Hq].
    destruct Hpoly as [b2 [Hb2 [Ht2 Hid2]]].
    apply (Hpark b1 b2); auto. congruence.
Qed.

End Relations.
End BarriersFacts.

(** * The barrier relations on the scenes *)

Module BarrierScenes.
Import Barriers Plane Scenes.

(** C7 on the street over the canal: barrier 3 touches street 0 at its end
    and is listed neither as crossing nor as along; barriers 1 and 2 are. *)
Lemma touching_barrier_excluded_witness :
  loc canal_streets 0 = Ok street0 /\
  In canal_at_end canal_barriers /\
  touches (b_geometry canal_at_end) (e_geometry street0) = true /\
  barriers_along 0 canal_streets canal_barriers (sindex canal_streets) (200 # 1)
    = Ok [1; 2] /\
  ~ In (barrierID canal_at_end) (_crossing_barriers (e_geometry street0) canal_barriers) /\
  (forall l, barriers_along 0 canal_streets canal_barriers (sindex canal_streets) (200 # 1)
             = Ok l -> ~ In (barrierID canal_at_end) l).
Proof.
  split; [reflexivity |]. split; [simpl; tauto |].
  split; [vm_compute; reflexivity |]. split; [vm_compute; reflexivity |].
  apply (@BarriersFacts.touching_barrier_excluded geom _ canal_streets canal_barriers
           0 street0 (sindex canal_streets) (200 # 1) canal_at_end).
  - reflexivity.
  - simpl; tauto.
  - vm_compute; reflexivity.
Defined.

(** C2: barrier 2 lies along street 0 and does not cross it, yet it is not
    kept, because barrier 1 crosses the street. *)
Lemma along_water_drops_all_on_bridge :
  along_water_columns canal_streets canal_barriers street0 = Ok street0_columns /\
  ~ (forall i, In i (a_rivers street0_columns) <->
               In i (ac_rivers street0_columns) /\ ~ In i (c_rivers street0_columns)).
Proof.
  split; [vm_compute; reflexivity |].
  intros Hall. destruct (Hall 2) as [_ Hback]. simpl in Hback.
  apply Hback. split; [tauto |]. intros [Heq | []]. discriminate.
Qed.

(** The same street: with barrier 1 across it, nothing is along it. *)
Lemma along_water_excludes_bridges_witness :
  along_water_columns canal_streets canal_barriers street0 = Ok street0_columns /\
  (c_rivers street0_columns <> [] -> a_rivers street0_columns = []) /\
  (forall i, In i (a_rivers street0_columns) ->
             In i (ac_rivers street0_columns) /\ ~ In i (c_rivers street0_columns)).
Proof.
  assert (Hc : along_water_columns canal_streets canal_barriers street0 = Ok street0_columns)
    by (vm_compute; reflexivity).
  split; [exact Hc |].
  exact (proj2 (proj2 (proj2
    (@BarriersFacts.along_water_excludes_bridges geom _ canal_streets canal_barriers
       street0 street0_columns Hc)))).
Defined.

(** C1: the park barrier 0 is both along the path and around it. *)
Lemma park_along_and_within :
  relations park_paths park_barriers park_path = Ok park_path_relations /\
  ~ disjoint (along park_path_relations) (within park_path_relations).
Proof.
  split; [vm_compute; reflexivity |].
  intros Hd. apply (Hd 0); simpl; tauto.
Qed.

(** The column [aw_parks] can hold a barrier that touches the edge: the
    boundary touches the path that starts on it, so it is not along the path,
    but the polygonized park does not merely touch the path and lists it as
    within. *)
Remark touching_boundary_listed_within :
  touches (b_geometry park_boundary) (e_geometry park_entry) = true /\
  exists polygons,
    park_polygons park_barriers = Ok polygons /\
    along_within_parks_columns park_entries park_barriers polygons park_entry
    = Ok park_entry_columns.
Proof.
  split; [vm_compute; reflexivity |].
  eexists. split; [vm_compute; reflexivity |]. vm_compute. reflexivity.
Qed.

(** Street 0 over the canal: barrier 1 crosses it and is in no other list. *)
Lemma crossing_disjoint_witness :
  NoDup (map (@barrierID geom) canal_barriers) /\
  relations canal_streets canal_barriers street0 = Ok street0_relations /\
  disjoint (crossing street0_relations) (along street0_relations) /\
  disjoint (crossing street0_relations) (within street0_relations).
Proof.
  assert (Hnd : NoDup (map (@barrierID geom) canal_barriers)).
  { simpl. repeat constructor; simpl; intuition discriminate. }
  assert (Hr : relations canal_streets canal_barriers street0 = Ok street0_relations)
    by (vm_compute; reflexivity).
  split; [exact Hnd |]. split; [exact Hr |].
  destruct (@BarriersFacts.crossing_disjoint_from_along_and_within geom _ canal_streets
              canal_barriers street0 street0_relations Hnd Hr) as [Ha [Hw _]].
  split; [exact Ha | exact Hw].
Defined.

End BarrierScenes.

(** * Facts about frames and comparisons *)

Lemma Qleb_le (a b : Q) : Qleb a b = true <-> (a <= b)%Q.
Proof. unfold Qleb. apply Qle_bool_iff. Qed.

Lemma Qltb_lt (a b : Q) : Qltb a b = true <-> (a < b)%Q.
Proof.
  unfold Qltb. rewrite negb_true_iff. split.
  - intros Hf. apply Qnot_le_lt. intros Hle. apply Qle_bool_iff in Hle. congruence.
  - intros Hlt. destruct (Qle_bool b a) eqn:Hle; [| reflexivity].
    apply Qle_bool_iff in Hle. exfalso. exact (Qlt_not_le _ _ Hlt Hle).
Qed.

Lemma Qltb_ge (a b : Q) : Qltb a b = false <-> (b <= a)%Q.
Proof.
  unfold Qltb. rewrite negb_false_iff. apply Qle_bool_iff.
Qed.

Lemma Qgtb_lt (a b : Q) : Qgtb a b = true <-> (b < a)%Q.
Proof. unfold Qgtb. apply Qltb_lt. Qed.

Lemma Qgtb_le (a b : Q) : Qgtb a b = false <-> (a <= b)%Q.
Proof. unfold Qgtb. apply Qltb_ge. Qed.

Lemma Qleb_gt (a b : Q) : Qleb a b = false <-> (b < a)%Q.
Proof.
  rewrite <- Qltb_lt. unfold Qltb, Qleb. destruct (Qle_bool a b); simpl; split; congruence.
Qed.

Section FrameFacts.
Variable R : Type.
Implicit Types (f g : frame R) (l : Z) (r : R).

Lemma loc_In f l r : loc f l = Ok r -> In (l, r) f.
Proof.
  induction f as [| [i r0] f IH]; simpl; [discriminate |].
  destruct (Z.eqb_spec i l) as [-> | Hne]; intros Hloc.
  - inversion Hloc; subst. now left.
  - right. now apply IH.
Qed.

Lemma loc_index f l r : loc f l = Ok r -> In l (index f).
Proof.
  intros Hloc. apply loc_In in Hloc. unfold index.
  change l with (fst (l, r)). now apply in_map.
Qed.

Lemma loc_absent f l : ~ In l (index f) -> loc f l = Raise KeyError.
Proof.
  induction f as [| [i r0] f IH]; simpl; [reflexivity |].
  intros Hnot. destruct (Z.eqb_spec i l) as [-> | Hne]; [tauto |].
  apply IH. tauto.
Qed.

Lemma loc_Raise f l (e : exn) : loc f l = Raise e -> e = KeyError.
Proof.
  induction f as [| [i r0] f IH]; simpl; [congruence |].
  destruct (i =? l); [discriminate | assumption].
Qed.

Lemma loc_present f l : In l (index f) -> exists r, loc f l = Ok r.
Proof.
  induction f as [| [i r0] f IH]; simpl; [contradiction |].
  intros [<- | Hin].
  - rewrite Z.eqb_refl. eauto.
  - destruct (i =? l); eauto.
Qed.

Lemma loc_app f g l :
  loc (f ++ g) l = match loc f l with Ok r => Ok r | Raise _ => loc g l end.
Proof.
  induction f as [| [i r0] f IH]; simpl.
  - reflexivity.
  - destruct (i =? l); [reflexivity | apply IH].
Qed.

Lemma index_at_set f l (upd : R -> R) : index (at_set f l upd) = index f.
Proof.
  unfold index, at_set. rewrite map_map. apply map_ext.
  intros [i r]. simpl. now destruct (i =? l).
Qed.

Lemma length_at_set f l (upd : R -> R) : List.length (at_set f l upd) = List.length f.
Proof. unfold at_set. apply length_map. Qed.

Lemma loc_at_set_same f l (upd : R -> R) r :
  loc f l = Ok r -> loc (at_set f l upd) l = Ok (upd r).
Proof.
  induction f as [| [i r0] f IH]; simpl; [discriminate |].
  destruct (Z.eqb_spec i l) as [-> | Hne]; simpl.
  - rewrite Z.eqb_refl. now intros [= ->].
  - destruct (Z.eqb_spec i l); [contradiction | assumption].
Qed.

Lemma loc_at_set_other f l l' (upd : R -> R) :
  l' <> l -> loc (at_set f l upd) l' = loc f l'.
Proof.
  intros Hne. induction f as [| [i r0] f IH]; simpl; [reflexivity |].
  destruct (Z.eqb_spec i l) as [-> | Hil]; simpl.
  - destruct (Z.eqb_spec l l'); [congruence | assumption].
  - destruct (i =? l'); [reflexivity | assumption].
Qed.

Lemma In_at_set_other f l (upd : R -> R) i r :
  i <> l -> In (i, r) f -> In (i, r) (at_set f l upd).
Proof.
  intros Hne Hin. unfold at_set. apply in_map_iff. exists (i, r). simpl.
  destruct (Z.eqb_spec i l); [contradiction | tauto].
Qed.

Lemma fold_max_ge (l : list Z) (a i : Z) :
  (a <= fold_left Z.max l a)%Z /\ (In i l -> (i <= fold_left Z.max l a)%Z).
Proof.
  revert a. induction l as [| b l IH]; simpl; intros a.
  - split; [lia | contradiction].
  - destruct (IH (Z.max a b)) as [Hge Hin]. split; [lia |].
    intros [<- | Hi]; [lia | auto].
Qed.

Lemma index_max_ge f i : In i (index f) -> (i <= index_max f)%Z.
Proof.
  unfold index_max. destruct (index f) as [| a l]; simpl; [contradiction |].
  destruct (fold_max_ge l a i) as [Hge Hin]. intros [<- | Hi]; auto.
Qed.

Lemma drop_Ok f labels f' :
  drop f labels = Ok f' ->
  f' = filter (fun row => negb (isin (fst row) labels)) f.
Proof.
  unfold drop. destruct (forallb _ labels); [now intros [= <-] | discriminate].
Qed.

End FrameFacts.

Lemma foldM_Ok_cons {A S : Type} (f : A -> S -> result S) (a : A) (l : list A) (s s' : S) :
  foldM f (a :: l) s = Ok s' -> exists s1, f a s = Ok s1 /\ foldM f l s1 = Ok s'.
Proof. simpl. apply bind_Ok. Qed.

(** A property kept by every iteration of a loop holds when it ends. *)
Lemma foldM_invariant {A S : Type} (f : A -> S -> result S) (P : S -> Prop) (l : list A) :
  (forall a s s', In a l -> P s -> f a s = Ok s' -> P s') ->
  forall s s', P s -> foldM f l s = Ok s' -> P s'.
Proof.
  induction l as [| a l IH]; simpl; intros Hstep s s' Hs Hf.
  - inversion Hf; now subst.
  - inv_bind Hf as s1 Hs1.
    apply (IH (fun a0 t t' Ha => Hstep a0 t t' (or_intror Ha)) s1 s'); auto.
    apply (Hstep a s s1); auto.
Qed.

(** * Facts about transport_network.py *)

Module NetworkFacts.
Import TransportNetwork.

Section Network.
Context {G : Type} `{Shapely G} `{CleanRules G}.

(** ** The nearest row *)

Lemma nearest_fold {R : Type} (geometry_of : R -> G) (geometry : G)
      (gdf : frame R) (best : Q * Z) :
  let step := fun (best : Q * Z) (row : Z * R) =>
                let d := distance geometry (geometry_of (snd row)) in
                if Qltb d (fst best) then (d, fst row) else best in
  let out := fold_left step gdf best in
  (fst out <= fst best)%Q /\
  (forall row, In row gdf -> (fst out <= distance geometry (geometry_of (snd row)))%Q) /\
  (out = best \/
   exists row, In row gdf /\ out = (distance geometry (geometry_of (snd row)), fst row)).
Proof.
  intros step. revert best. induction gdf as [| row gdf IH]; intros best; simpl.
  - split; [apply Qle_refl |]. split; [contradiction | now left].
  - destruct (IH (step best row)) as [Hle [Hmin Hwho]].
    assert (Hstep : (fst (step best row) <= fst best)%Q /\
                    (fst (step best row) <= distance geometry (geometry_of (snd row)))%Q).
    { unfold step. destruct (Qltb _ (fst best)) eqn:Hlt; simpl.
      - apply Qltb_lt in Hlt. split; [now apply Qlt_le_weak | apply Qle_refl].
      - apply Qltb_ge in Hlt. split; [apply Qle_refl | assumption]. }
    destruct Hstep as [Hs1 Hs2].
    split; [eapply Qle_trans; eassumption |]. split.
    + intros row' [<- | Hin]; [eapply Qle_trans; eassumption | now apply Hmin].
    + destruct Hwho as [Heq | [row' [Hin Heq]]].
      * rewrite Heq. unfold step. destruct (Qltb _ (fst best)); [right | now left].
        exists row. split; [now left | reflexivity].
      * right. exists row'. split; [now right | assumption].
Qed.

(** [distance_geometry_gdf] returns a row of the frame, its distance, and no
    row is nearer. *)
Lemma distance_geometry_gdf_nearest {R : Type} (geometry_of : R -> G) (geometry : G)
      (gdf : frame R) (d : Q) (i : Z) :
  distance_geometry_gdf geometry_of geometry gdf = Ok (d, i) ->
  (exists r, In (i, r) gdf /\ d = distance geometry (geometry_of r)) /\
  (forall row, In row gdf -> (d <= distance geometry (geometry_of (snd row)))%Q).
Proof.
  unfold distance_geometry_gdf. destruct gdf as [| [i0 r0] gdf]; [discriminate |].
  intros [= Hout].
  pose proof (nearest_fold geometry_of geometry gdf
                           (distance geometry (geometry_of r0), i0)) as Hfold.
  simpl in Hfold. rewrite Hout in Hfold. simpl in Hfold.
  destruct Hfold as [Hle [Hmin Hwho]]. split.
  - destruct Hwho as [[= -> ->] | [[j r] [Hin [= -> ->]]]].
    + exists r0. split; [now left | reflexivity].
    + exists r. split; [now right | reflexivity].
  - intros row [<- | Hin]; [exact Hle | now apply Hmin].
Qed.

(** When [recompute_xy] returns, it has recomputed every row. *)
Lemma recompute_xy_rows (nodes_gdf nodes' : frame (node G)) :
  recompute_xy nodes_gdf = Ok nodes' ->
  mapM (fun row =>
          match coords (n_geometry (snd row)) with
          | [] => Raise IndexError
          | c :: _ =>
              Ok (fst row,
                  {| nodeID := nodeID (snd row); n_geometry := n_geometry (snd row);
                     x := fst c; y := snd c;
                     stationID := stationID (snd row); n_name := n_name (snd row) |})
          end)
       nodes_gdf = Ok nodes'.
Proof.
  unfold recompute_xy. destruct nodes_gdf; [discriminate | auto].
Qed.

(** ** Station assignment *)

Lemma attach_cases (dist_nodes dist_edges : Q * Z) :
  match attach dist_nodes dist_edges with
  | Discarded => (50 < fst dist_nodes)%Q /\ (50 < fst dist_edges)%Q
  | Snapped label =>
      label = snd dist_nodes /\
      (fst dist_nodes <= fst dist_edges)%Q /\ (fst dist_nodes <= 50)%Q
  | Split index_edge =>
      index_edge = snd dist_edges /\
      (fst dist_edges < fst dist_nodes)%Q /\ (fst dist_edges <= 50)%Q
  end.
Proof.
  unfold attach.
  destruct (Qgtb (fst dist_nodes) 50) eqn:Hn; simpl.
  - apply Qgtb_lt in Hn. destruct (Qgtb (fst dist_edges) 50) eqn:He; simpl.
    + apply Qgtb_lt in He. tauto.
    + apply Qgtb_le in He. destruct (Qleb _ _) eqn:Hle.
      * apply Qleb_le in Hle. exfalso.
        apply (Qlt_irrefl 50). eapply Qlt_le_trans; [exact Hn |].
        eapply Qle_trans; eassumption.
      * apply Qleb_gt in Hle. tauto.
  - apply Qgtb_le in Hn. destruct (Qleb _ _) eqn:Hle.
    + apply Qleb_le in Hle. tauto.
    + apply Qleb_gt in Hle. repeat split; auto.
      apply Qlt_le_weak. eapply Qlt_le_trans; eassumption.
Qed.

Lemma assign_station_attachment (stations_gdf : frame (station G)) (row : Z * station G)
      (g : graph G) (st : station G) (a : attachment) :
  loc stations_gdf (fst row) = Ok st ->
  attachment_of stations_gdf row g = Ok a ->
  assign_station stations_gdf row g =
  match a with
  | Discarded => Ok g
  | Snapped label =>
      Ok (at_set (fst g) label (set_station (fst row) (s_name st)), snd g)
  | Split index_edge =>
      split_for_station (fst row) (s_name st) (s_geometry st) index_edge g
  end.
Proof.
  unfold attachment_of, assign_station. destruct g as [nodes_gdf edges_gdf]. simpl.
  intros -> Ha. simpl in *.
  destruct (distance_geometry_gdf _ _ nodes_gdf) as [dn | e]; simpl in *; [| discriminate].
  destruct (distance_geometry_gdf _ _ edges_gdf) as [de | e]; simpl in *; [| discriminate].
  inversion Ha; subst a. reflexivity.
Qed.

Lemma assign_station_decides (stations_gdf : frame (station G)) (row : Z * station G)
      (g g' : graph G) :
  assign_station stations_gdf row g = Ok g' ->
  exists st a, loc stations_gdf (fst row) = Ok st /\
               attachment_of stations_gdf row g = Ok a.
Proof.
  unfold attachment_of, assign_station. destruct g as [nodes_gdf edges_gdf].
  cbn [fst snd]. intros Hg.
  inv_bind Hg as st Hst.
  inv_bind Hg as dn Hdn.
  inv_bind Hg as de Hde.
  rewrite Hst. cbn [bind]. rewrite Hdn. cbn [bind]. rewrite Hde. cbn [bind]. eauto.
Qed.

(** C3, as the code has it.  For a station feature whose nearest node is at
    distance [dn] and whose nearest edge is at distance [de]: when both
    exceed 50 the feature is discarded and the graph unchanged; when
    [dn <= de] and [dn <= 50] the feature is snapped to the nearest node and
    the edges are unchanged; when [de < dn] and [de <= 50] the iteration is
    that of the branch for the nearest edge, also when the nearest node is
    within 50 units. *)
Theorem nearer_of_node_and_edge_wins
        (stations_gdf : frame (station G)) (row : Z * station G) (st : station G)
        (nodes_gdf : frame (node G)) (edges_gdf : frame (edge G))
        (dist_nodes dist_edges : Q * Z) :
  loc stations_gdf (fst row) = Ok st ->
  distance_geometry_gdf (@n_geometry G) (s_geometry st) nodes_gdf = Ok dist_nodes ->
  distance_geometry_gdf (@e_geometry G) (s_geometry st) edges_gdf = Ok dist_edges ->
  ((50 < fst dist_nodes)%Q -> (50 < fst dist_edges)%Q ->
   assign_station stations_gdf row (nodes_gdf, edges_gdf) = Ok (nodes_gdf, edges_gdf)) /\
  ((fst dist_nodes <= fst dist_edges)%Q -> (fst dist_nodes <= 50)%Q ->
   assign_station stations_gdf row (nodes_gdf, edges_gdf) =
   Ok (at_set nodes_gdf (snd dist_nodes) (set_station (fst row) (s_name st)), edges_gdf)) /\
  ((fst dist_edges < fst dist_nodes)%Q -> (fst dist_edges <= 50)%Q ->
   assign_station stations_gdf row (nodes_gdf, edges_gdf) =
   split_for_station (fst row) (s_name st) (s_geometry st) (snd dist_edges)
                     (nodes_gdf, edges_gdf)).
Proof.
  intros Hst Hdn Hde.
  assert (Ha : attachment_of stations_gdf row (nodes_gdf, edges_gdf)
               = Ok (attach dist_nodes dist_edges)).
  { unfold attachment_of. cbn [fst snd]. rewrite Hst. cbn [bind].
    rewrite Hdn. cbn [bind]. rewrite Hde. reflexivity. }
  rewrite (assign_station_attachment _ _ _ _ _ Hst Ha). simpl.
  pose proof (attach_cases dist_nodes dist_edges) as Hc.
  destruct (attach dist_nodes dist_edges) as [| label | index_edge].
  - destruct Hc as [Hn He]. split; [reflexivity |]. split; intros H1 H2; exfalso.
    + exact (Qlt_not_le _ _ Hn H2).
    + exact (Qlt_not_le _ _ He H2).
  - destruct Hc as [-> [Hle H50]]. split; [| split].
    + intros Hn _. exfalso. exact (Qlt_not_le _ _ Hn H50).
    + reflexivity.
    + intros Hlt _. exfalso. exact (Qlt_not_le _ _ Hlt Hle).
  - destruct Hc as [-> [Hlt H50]]. split; [| split].
    + intros _ He. exfalso. exact (Qlt_not_le _ _ He H50).
    + intros Hle _. exfalso. exact (Qlt_not_le _ _ Hlt Hle).
    + reflexivity.
Qed.

(** The name called at lines 157 and 263 is not among those the module
    binds. *)
Lemma split_line_unbound {A : Type} (value : A) :
  global "split_line_at_interpolation" value = Raise NameError.
Proof. reflexivity. Qed.

Lemma split_for_station_raises
      (row_Index : Z) (name : option string) (station_geometry : G) (index_edge : Z)
      (g : graph G) :
  split_for_station row_Index name station_geometry index_edge g = Raise NameError.
Proof. destruct g as [nodes_gdf edges_gdf]. reflexivity. Qed.

(** C5, as the code has it.  A station feature whose nearest edge is within
    50 units and strictly nearer than its nearest node sends the loop into
    the branch that splits the edge (lines 156 to 172); the first statement
    of that branch calls [split_line_at_interpolation], a name the module
    does not bind, and the iteration raises [NameError] before any node or
    edge is added. *)
Theorem split_branch_raises
        (stations_gdf : frame (station G)) (row : Z * station G) (st : station G)
        (nodes_gdf : frame (node G)) (edges_gdf : frame (edge G))
        (dist_nodes dist_edges : Q * Z) :
  loc stations_gdf (fst row) = Ok st ->
  distance_geometry_gdf (@n_geometry G) (s_geometry st) nodes_gdf = Ok dist_nodes ->
  distance_geometry_gdf (@e_geometry G) (s_geometry st) edges_gdf = Ok dist_edges ->
  (fst dist_edges < fst dist_nodes)%Q ->
  (fst dist_edges <= 50)%Q ->
  attach dist_nodes dist_edges = Split (snd dist_edges) /\
  assign_station stations_gdf row (nodes_gdf, edges_gdf) = Raise NameError.
Proof.
  intros Hst Hdn Hde Hlt H50.
  assert (Hsplit : attach dist_nodes dist_edges = Split (snd dist_edges)).
  { pose proof (attach_cases dist_nodes dist_edges) as Hc.
    destruct (attach dist_nodes dist_edges) as [| label | index_edge].
    - destruct Hc as [_ He]. exfalso. exact (Qlt_not_le _ _ He H50).
    - destruct Hc as [_ [Hle _]]. exfalso. exact (Qlt_not_le _ _ Hlt Hle).
    - destruct Hc as [-> _]. reflexivity. }
  split; [exact Hsplit |].
  assert (Ha : attachment_of stations_gdf row (nodes_gdf, edges_gdf)
               = Ok (Split (snd dist_edges))).
  { unfold attachment_of. cbn [fst snd]. rewrite Hst. cbn [bind].
    rewrite Hdn. cbn [bind]. rewrite Hde. cbn [bind]. now rewrite Hsplit. }
  rewrite (assign_station_attachment _ _ _ _ _ Hst Ha).
  apply split_for_station_raises.
Qed.

(** ** The nodes no station chooses *)

Lemma reset_stations_idempotent (nodes_gdf : frame (node G)) :
  reset_stations (reset_stations nodes_gdf) = reset_stations nodes_gdf.
Proof.
  unfold reset_stations. rewrite map_map. apply map_ext. intros [i n]. reflexivity.
Qed.

(** A row that no station of the loop chooses is still there, untouched,
    when the loop ends. *)
Lemma unchosen_row_kept (stations_gdf : frame (station G)) (i : Z) (m : node G)
      (rows : list (Z * station G)) :
  forall g g',
    foldM (assign_station stations_gdf) rows g = Ok g' ->
    ~ chosen stations_gdf i rows g ->
    In (i, m) (fst g) -> In (i, m) (fst g').
Proof.
  induction rows as [| row rows IH]; intros g g' Hloop Hnot Hin.
  - simpl in Hloop. inversion Hloop; now subst.
  - apply foldM_Ok_cons in Hloop. destruct Hloop as [g1 [Hstep Hloop]].
    apply (IH g1 g' Hloop).
    + intros Hc. apply Hnot. eapply chosen_later; eassumption.
    + destruct (assign_station_decides _ _ _ _ Hstep) as [st [a [Hst Ha]]].
      rewrite (assign_station_attachment _ _ _ _ _ Hst Ha) in Hstep.
      destruct a as [| label | index_edge].
      * inversion Hstep; now subst.
      * inversion Hstep; subst g1. simpl.
        apply In_at_set_other; [| assumption].
        intros ->. apply Hnot. now apply chosen_now.
      * rewrite split_for_station_raises in Hstep. discriminate.
Qed.

(** C10.  [assign_stations_to_nodes] overwrites the station columns of its
    input, so the result does not depend on them; and a node that no station
    feature chooses as its target leaves with stationID 999999 and no name,
    its nodeID and geometry unchanged, and its x and y those of its
    geometry (unchanged when they agreed with it). *)
Theorem unchosen_nodes_stay_unassigned
        (stations_gdf : frame (station G)) (nodes_gdf : frame (node G))
        (edges_gdf : frame (edge G)) (nodes' : frame (node G)) (edges' : frame (edge G))
        (i : Z) (n : node G) :
  assign_stations_to_nodes stations_gdf (nodes_gdf, edges_gdf) = Ok (nodes', edges') ->
  In (i, n) nodes_gdf ->
  ~ chosen stations_gdf i stations_gdf (reset_stations nodes_gdf, edges_gdf) ->
  assign_stations_to_nodes stations_gdf (reset_stations nodes_gdf, edges_gdf)
  = Ok (nodes', edges') /\
  exists n',
    In (nodeID n, n') nodes' /\
    nodeID n' = nodeID n /\ n_geometry n' = n_geometry n /\
    stationID n' = unassigned /\ n_name n' = None /\
    exists c cs, coords (n_geometry n) = c :: cs /\ x n' = fst c /\ y n' = snd c /\
                 (x n = fst c -> y n = snd c -> x n' = x n /\ y n' = y n).
Proof.
  intros Hrun Hin Hnot. split.
  { unfold assign_stations_to_nodes in *. now rewrite reset_stations_idempotent. }
  unfold assign_stations_to_nodes in Hrun.
  inv_bind Hrun as [nodes1 edges1] Hloop.
  inv_bind Hrun as nodes2 Hxy.
  inv_bind Hrun as edges2 _.
  inversion Hrun; subst nodes2 edges2; clear Hrun.
  assert (Hkept : In (i, set_station unassigned None n) nodes1).
  { apply (unchosen_row_kept _ _ _ _ _ _ Hloop Hnot). simpl.
    unfold reset_stations. apply in_map_iff. exists (i, n). tauto. }
  assert (Hby : In (nodeID n, set_station unassigned None n) (index_by_nodeID nodes1)).
  { unfold index_by_nodeID. apply in_map_iff.
    exists (i, set_station unassigned None n). tauto. }
  apply recompute_xy_rows in Hxy.
  eapply mapM_Ok_In_source in Hxy; [| exact Hby].
  destruct Hxy as [[j n'] [Hn' Hf]]. simpl in Hf.
  destruct (coords (n_geometry n)) as [| c cs] eqn:Hcs; [discriminate |].
  inversion Hf; subst j n'; clear Hf.
  eexists. split; [exact Hn' |]. simpl. repeat split.
  exists c, cs. repeat split; congruence.
Qed.

(** ** Station merging *)

Lemma rewire_redirect (old new : Z) (edges_gdf : frame (edge G)) :
  rewire old new edges_gdf
  = map (fun r => (fst r, redirect old new (snd r))) edges_gdf.
Proof.
  unfold rewire. rewrite map_map. apply map_ext. intros [i e].
  unfold redirect, set_u, set_v. simpl.
  destruct (u e =? old); simpl; destruct (v e =? old); simpl; destruct e; reflexivity.
Qed.

Lemma station_of_at_set_geometry (nodes_gdf : frame (node G)) (l l' : Z) (c : G) :
  station_of (at_set nodes_gdf l (set_n_geometry c)) l' = station_of nodes_gdf l'.
Proof.
  unfold station_of. induction nodes_gdf as [| [i n] f IH]; simpl; [reflexivity |].
  destruct (i =? l); simpl; destruct (i =? l'); simpl; auto.
Qed.

Lemma station_of_loc (nodes_gdf : frame (node G)) (l : Z) (n : node G) :
  loc nodes_gdf l = Ok n -> station_of nodes_gdf l = Ok (stationID n).
Proof. unfold station_of. now intros ->. Qed.

Lemma station_of_Ok (nodes_gdf : frame (node G)) (l k : Z) :
  station_of nodes_gdf l = Ok k ->
  exists n, loc nodes_gdf l = Ok n /\ stationID n = k.
Proof.
  unfold station_of. intros Hs. apply bind_Ok in Hs.
  destruct Hs as [n [Hn Hk]]. inversion Hk. eauto.
Qed.

(** Of two mergeable nodes, the survivor is a station and the dropped one is
    not; so they are different nodes. *)
Lemma mergeable_roles (e : edge G) (nodes_gdf : frame (node G)) (nu nv : node G) :
  loc nodes_gdf (u e) = Ok nu -> loc nodes_gdf (v e) = Ok nv ->
  mergeable nu nv = true ->
  station_of nodes_gdf (dropped e nu) = Ok unassigned /\
  (exists k, station_of nodes_gdf (survivor e nu) = Ok k /\ k <> unassigned) /\
  survivor e nu <> dropped e nu.
Proof.
  intros Hu Hv Hm. unfold mergeable in Hm. apply andb_true_iff in Hm.
  destruct Hm as [Hne Hone]. apply negb_true_iff in Hne. apply Z.eqb_neq in Hne.
  assert (Hroles : station_of nodes_gdf (dropped e nu) = Ok unassigned /\
                   (exists k, station_of nodes_gdf (survivor e nu) = Ok k /\ k <> unassigned)).
  { unfold survivor, dropped. destruct (Z.eqb_spec (stationID nu) unassigned) as [Heq | Hneq]; simpl.
    - split; [rewrite (station_of_loc _ _ _ Hu); congruence |].
      exists (stationID nv). split; [apply (station_of_loc _ _ _ Hv) | congruence].
    - simpl in Hone. apply Z.eqb_eq in Hone.
      split; [rewrite (station_of_loc _ _ _ Hv); congruence |].
      exists (stationID nu). split; [apply (station_of_loc _ _ _ Hu) | assumption]. }
  destruct Hroles as [Hd [k [Hs Hk]]]. split; [assumption |].
  split; [eauto |]. intros Heq. rewrite Heq in Hs. congruence.
Qed.

(** One iteration of the loop of [merge_station_nodes] on a mergeable
    edge. *)
Lemma merge_step_merges (old_edges_gdf : frame (edge G)) (tolerance : Q)
      (row : Z * edge G) (nodes_s : frame (node G)) (edges_s : frame (edge G))
      (to_drop : list Z) (e : edge G) (nu nv : node G) :
  loc old_edges_gdf (fst row) = Ok e ->
  Qgtb (geom_length (e_geometry e)) tolerance = false ->
  loc nodes_s (u e) = Ok nu ->
  loc nodes_s (v e) = Ok nv ->
  mergeable nu nv = true ->
  merge_step old_edges_gdf tolerance row (nodes_s, edges_s, to_drop)
  = Ok (at_set nodes_s (survivor e nu)
               (set_n_geometry (centroid2 (n_geometry nu) (n_geometry nv))),
        rewire (dropped e nu) (survivor e nu) edges_s,
        to_drop ++ [dropped e nu]).
Proof.
  intros He Hlen Hu Hv Hm. unfold merge_step. rewrite He. cbn [bind].
  rewrite Hlen, Hu. cbn [bind]. rewrite Hv. cbn [bind]. rewrite Hm.
  unfold centroid_of, survivor, dropped. rewrite Hu. cbn [bind]. rewrite Hv. cbn [bind].
  destruct (negb (stationID nu =? unassigned)); reflexivity.
Qed.

(** An iteration either leaves the state alone or merges the ends of a
    mergeable edge. *)
Lemma merge_step_cases (old_edges_gdf : frame (edge G)) (tolerance : Q)
      (row : Z * edge G) (s s' : merge_state) :
  merge_step old_edges_gdf tolerance row s = Ok s' ->
  s' = s \/
  exists e nu nv,
    loc old_edges_gdf (fst row) = Ok e /\
    Qgtb (geom_length (e_geometry e)) tolerance = false /\
    loc (fst (fst s)) (u e) = Ok nu /\
    loc (fst (fst s)) (v e) = Ok nv /\
    mergeable nu nv = true.
Proof.
  destruct s as [[nodes_s edges_s] to_drop]. unfold merge_step. intros Hs.
  inv_bind Hs as e He.
  destruct (Qgtb (geom_length (e_geometry e)) tolerance) eqn:Hlen.
  - left. now inversion Hs.
  - inv_bind Hs as nu Hu.
    inv_bind Hs as nv Hv.
    destruct (mergeable nu nv) eqn:Hm.
    + right. exists e, nu, nv. simpl. tauto.
    + left. now inversion Hs.
Qed.

Lemma merge_step_invariant (nodes_gdf : frame (node G)) (old_edges_gdf : frame (edge G))
      (tolerance : Q) (row : Z * edge G) (s s' : merge_state) :
  merge_invariant nodes_gdf s ->
  merge_step old_edges_gdf tolerance row s = Ok s' ->
  merge_invariant nodes_gdf s' /\
  (forall d, In d (snd s) -> In d (snd s')).
Proof.
  intros Hinv Hstep. destruct (merge_step_cases _ _ _ _ _ Hstep) as [-> | Hmerge].
  { split; [assumption | auto]. }
  destruct Hmerge as [e [nu [nv [He [Hlen [Hu [Hv Hm]]]]]]].
  destruct s as [[nodes_s edges_s] to_drop]. simpl in Hu, Hv.
  rewrite (merge_step_merges _ _ _ _ _ _ _ _ _ He Hlen Hu Hv Hm) in Hstep.
  inversion Hstep; subst s'; clear Hstep.
  destruct Hinv as [Hidx [Hsid [Hplain Hends]]].
  destruct (mergeable_roles _ _ _ _ Hu Hv Hm) as [Hd [[k [Hk Hkne]] Hdiff]].
  rewrite Hsid in Hd, Hk.
  split; [| simpl; intros d Hin; apply in_or_app; now left].
  simpl. split; [now rewrite index_at_set |].
  split; [intros l; now rewrite station_of_at_set_geometry |].
  split.
  - intros d Hin. apply in_app_or in Hin. destruct Hin as [Hin | [<- | []]]; auto.
  - intros r d Hr Hin. rewrite rewire_redirect in Hr. apply in_map_iff in Hr.
    destruct Hr as [[i e0] [<- Hr0]]. simpl.
    assert (Hsurv : survivor e nu <> d).
    { intros Hsd. rewrite Hsd in Hk.
      apply in_app_or in Hin. destruct Hin as [Hin | [Heq | []]].
      - apply Hplain in Hin. congruence.
      - congruence. }
    apply in_app_or in Hin. destruct Hin as [Hin | [<- | []]].
    + destruct (Hends _ _ Hr0 Hin) as [Hu0 Hv0]. simpl in Hu0, Hv0.
      split.
      * destruct (u e0 =? dropped e nu); assumption.
      * destruct (v e0 =? dropped e nu); assumption.
    + split.
      * destruct (Z.eqb_spec (u e0) (dropped e nu)); assumption.
      * destruct (Z.eqb_spec (v e0) (dropped e nu)); assumption.
Qed.

(** The loop keeps the invariant and schedules the plain end of every
    mergeable edge it visits. *)
Lemma merge_loop_invariant (nodes_gdf : frame (node G)) (old_edges_gdf : frame (edge G))
      (tolerance : Q) (rows : list (Z * edge G)) :
  forall s s',
    merge_invariant nodes_gdf s ->
    foldM (merge_step old_edges_gdf tolerance) rows s = Ok s' ->
    merge_invariant nodes_gdf s' /\
    (forall d, In d (snd s) -> In d (snd s')) /\
    (forall row e nu nv,
        In row rows ->
        loc old_edges_gdf (fst row) = Ok e ->
        Qgtb (geom_length (e_geometry e)) tolerance = false ->
        loc nodes_gdf (u e) = Ok nu ->
        loc nodes_gdf (v e) = Ok nv ->
        mergeable nu nv = true ->
        In (dropped e nu) (snd s')).
Proof.
  induction rows as [| row0 rows IH]; intros s s' Hinv Hloop.
  - simpl in Hloop. inversion Hloop; subst s'. repeat split; auto.
    intros row e nu nv [].
  - apply foldM_Ok_cons in Hloop. destruct Hloop as [s1 [Hstep Hloop]].
    destruct (merge_step_invariant _ _ _ _ _ _ Hinv Hstep) as [Hinv1 Hgrow1].
    destruct (IH s1 s' Hinv1 Hloop) as [Hinv' [Hgrow' Hvisited]].
    split; [assumption |]. split; [auto |].
    intros row e nu nv [<- | Hin] He Hlen Hu Hv Hm; [| eapply Hvisited; eassumption].
    apply Hgrow'.
    destruct s as [[nodes_s edges_s] to_drop].
    destruct Hinv as [Hidx [Hsid [Hplain Hends]]].
    pose proof (Hsid (u e)) as Hsu. pose proof (Hsid (v e)) as Hsv.
    rewrite (station_of_loc _ _ _ Hu) in Hsu. rewrite (station_of_loc _ _ _ Hv) in Hsv.
    apply station_of_Ok in Hsu. destruct Hsu as [nu_s [Hu_s Hsu]].
    apply station_of_Ok in Hsv. destruct Hsv as [nv_s [Hv_s Hsv]].
    assert (Hm_s : mergeable nu_s nv_s = true).
    { unfold mergeable in *. now rewrite Hsu, Hsv. }
    rewrite (merge_step_merges _ _ _ _ _ _ _ _ _ He Hlen Hu_s Hv_s Hm_s) in Hstep.
    inversion Hstep; subst s1. simpl. apply in_or_app. right.
    unfold dropped. rewrite Hsu. now left.
Qed.

(** The loop of [merge_station_nodes] does not raise when both ends of every
    edge are nodes. *)
Lemma merge_loop_total (tolerance : Q) (nodes_gdf : frame (node G))
      (edges_gdf : frame (edge G)) :
  (forall r, In r edges_gdf ->
             In (u (snd r)) (index nodes_gdf) /\ In (v (snd r)) (index nodes_gdf)) ->
  exists s, merge_loop tolerance (nodes_gdf, edges_gdf) = Ok s.
Proof.
  intros Hends. unfold merge_loop.
  assert (Hgen : forall (rows : list (Z * edge G)) (s : merge_state),
             (forall r, In r rows -> In r edges_gdf) ->
             index (fst (fst s)) = index nodes_gdf ->
             exists s', foldM (merge_step edges_gdf tolerance) rows s = Ok s').
  { intros todo. induction todo as [| row todo IH]; intros s Hsub Hidx; [simpl; eauto |].
    assert (Hstep : exists s1, merge_step edges_gdf tolerance row s = Ok s1 /\
                               index (fst (fst s1)) = index nodes_gdf).
    { destruct s as [[nodes_s edges_s] to_drop]. simpl in Hidx.
      destruct (loc_present _ edges_gdf (fst row)) as [e He].
      { unfold index. apply in_map. apply Hsub. now left. }
      destruct (Hends (fst row, e) (loc_In _ _ _ _ He)) as [Hu Hv]. simpl in Hu, Hv.
      rewrite <- Hidx in Hu, Hv.
      destruct (loc_present _ _ _ Hu) as [nu Hnu]. destruct (loc_present _ _ _ Hv) as [nv Hnv].
      clear Hu Hv. rename Hnu into Hu. rename Hnv into Hv.
      destruct (Qgtb (geom_length (e_geometry e)) tolerance) eqn:Hlen.
      - exists (nodes_s, edges_s, to_drop). unfold merge_step.
        rewrite He. cbn [bind]. rewrite Hlen. auto.
      - destruct (mergeable nu nv) eqn:Hm.
        + eexists. split; [apply (merge_step_merges _ _ _ _ _ _ _ _ _ He Hlen Hu Hv Hm) |].
          simpl. now rewrite index_at_set.
        + exists (nodes_s, edges_s, to_drop). unfold merge_step.
          rewrite He. cbn [bind]. rewrite Hlen, Hu. cbn [bind]. rewrite Hv. cbn [bind].
          rewrite Hm. auto. }
    destruct Hstep as [s1 [Hs1 Hidx1]].
    destruct (IH s1) as [s' Hs']; auto.
    { intros r Hr. apply Hsub. now right. }
    exists s'. simpl. rewrite Hs1. exact Hs'. }
  apply Hgen; auto.
Qed.

(** ** The repair after a merge loop *)

Lemma mapM_labels {A B : Type} (f : Z * A -> result (Z * B)) (l : list (Z * A))
      (l' : list (Z * B)) :
  (forall a b, f a = Ok b -> fst b = fst a) ->
  mapM f l = Ok l' -> map fst l' = map fst l.
Proof.
  intros Hf. revert l'. induction l as [| a l IH]; simpl; intros l' Hm.
  - now inversion Hm.
  - inv_bind Hm as b Hb.
    inv_bind Hm as bs Hbs.
    inversion Hm; subst l'. simpl. now rewrite (Hf a b Hb), (IH bs Hbs).
Qed.

Lemma recompute_xy_index (nodes_gdf nodes' : frame (node G)) :
  recompute_xy nodes_gdf = Ok nodes' -> index nodes' = index nodes_gdf.
Proof.
  intros Hxy. apply recompute_xy_rows in Hxy. revert Hxy.
  unfold index. apply mapM_labels.
  intros [i n] b. simpl. destruct (coords (n_geometry n)); [discriminate |].
  now intros [= <-].
Qed.

(** [correct_edges] changes geometries only. *)
Lemma correct_edges_ends (nodes_gdf : frame (node G)) (edges_gdf edges' : frame (edge G))
      (row' : Z * edge G) :
  correct_edges nodes_gdf edges_gdf = Ok edges' -> In row' edges' ->
  exists row, In row edges_gdf /\ fst row' = fst row /\
              edgeID (snd row') = edgeID (snd row) /\
              u (snd row') = u (snd row) /\ v (snd row') = v (snd row).
Proof.
  unfold correct_edges. intros Hc Hin.
  eapply mapM_Ok_In in Hc; [| exact Hin]. destruct Hc as [row [Hrow Hf]].
  inv_bind Hf as nu _.
  inv_bind Hf as nv _.
  inversion Hf; subst row'. exists row. simpl. tauto.
Qed.

Lemma drop_duplicates_from_In {R : Type} (same : R -> R -> bool) (f : frame R)
      (row : Z * R) :
  forall seen, In row (drop_duplicates_from same seen f) -> In row f.
Proof.
  induction f as [| r f IH]; simpl; intros seen Hin; [assumption |].
  destruct (existsb _ seen).
  - right. eapply IH; eassumption.
  - destruct Hin as [<- | Hin]; [now left | right; eapply IH; eassumption].
Qed.

(** With [clean_settings], [clean_network] keeps every node row in place,
    under its label and with its station columns, and only removes edges. *)
Lemma clean_network_default (nodes_gdf : frame (node G)) (edges_gdf : frame (edge G)) :
  index (fst (clean_network (nodes_gdf, edges_gdf) clean_settings)) = index nodes_gdf /\
  (forall row, In row (snd (clean_network (nodes_gdf, edges_gdf) clean_settings)) ->
               In row edges_gdf).
Proof.
  unfold clean_network, clean_settings. cbn [remove_disconnected_islands dead_ends
    same_uv_edges self_loops fix_topology fst snd]. split.
  - unfold index. rewrite map_map. apply map_ext. intros [i n]. simpl.
    destruct (find _ _) as [e |]; [| reflexivity].
    destruct (coords _); [reflexivity |]. now destruct (pt_eqb _ _).
  - intros row Hin. apply filter_In in Hin. destruct Hin as [Hin _].
    unfold drop_duplicates in Hin. eapply drop_duplicates_from_In; eassumption.
Qed.

(** After the loop: the nodes that remain are those not scheduled for
    removal, and every edge that remains is an edge of the loop with the same
    ends. *)
Lemma finish_merge_inv (nodes_s : frame (node G)) (edges_s : frame (edge G))
      (to_drop : list Z) (g' : graph G) :
  finish_merge (nodes_s, edges_s, to_drop) = Ok g' ->
  (forall l, In l (index (fst g')) <-> In l (index nodes_s) /\ ~ In l to_drop) /\
  (forall row', In row' (snd g') ->
     exists row, In row edges_s /\ u (snd row') = u (snd row) /\ v (snd row') = v (snd row)) /\
  (List.length (fst g') <= List.length nodes_s)%nat.
Proof.
  unfold finish_merge. intros Hf.
  inv_bind Hf as nodes1 Hdrop.
  inv_bind Hf as nodes2 Hxy.
  inv_bind Hf as edges2 Hce.
  inversion Hf; subst g'; clear Hf.
  apply drop_Ok in Hdrop.
  destruct (clean_network_default nodes2 edges2) as [Hidx Hsub].
  assert (Hidx2 : index nodes2 = index nodes1) by now apply recompute_xy_index.
  split; [| split].
  - intros l. rewrite Hidx, Hidx2, Hdrop. unfold index.
    rewrite !in_map_iff. split.
    + intros [[i n] [<- Hin]]. apply filter_In in Hin. destruct Hin as [Hin Hnot].
      simpl in *. apply negb_true_iff, isin_false in Hnot. split; [| assumption].
      exists (i, n). tauto.
    + intros [[[i n] [<- Hin]] Hnot]. exists (i, n). split; [reflexivity |].
      apply filter_In. split; [assumption |]. simpl.
      now apply negb_true_iff, isin_false.
  - intros row' Hin. apply Hsub in Hin.
    destruct (correct_edges_ends _ _ _ _ Hce Hin) as [row [Hrow [_ [_ [Hu Hv]]]]].
    apply filter_In in Hrow. exists row. tauto.
  - assert (Hlen : forall f : frame (node G), List.length f = List.length (index f))
      by (intros f; unfold index; now rewrite length_map).
    rewrite (Hlen (fst _)), Hidx, Hidx2, <- Hlen, Hdrop. apply filter_length_le.
Qed.

(** C6.  In the loop of [merge_station_nodes], an iteration on an edge not
    longer than the tolerance whose ends are a station and a plain node moves
    the station node to the centroid of the two nodes, redirects every edge
    end at the plain node to the station node, and schedules the plain node
    for removal.  When the function returns, for every such edge of the
    input the station node is still a node, the plain node is not, and no
    edge ends at the plain node. *)
Theorem station_merge_rewires_and_drops (tolerance : Q) (g : graph G) :
  (forall (row : Z * edge G) (nodes_s : frame (node G)) (edges_s : frame (edge G))
          (to_drop : list Z) (e : edge G) (nu nv : node G),
      loc (snd g) (fst row) = Ok e ->
      Qgtb (geom_length (e_geometry e)) tolerance = false ->
      loc nodes_s (u e) = Ok nu ->
      loc nodes_s (v e) = Ok nv ->
      mergeable nu nv = true ->
      exists nodes_s' edges_s',
        merge_step (snd g) tolerance row (nodes_s, edges_s, to_drop)
        = Ok (nodes_s', edges_s', to_drop ++ [dropped e nu]) /\
        index nodes_s' = index nodes_s /\
        (exists n, loc nodes_s' (survivor e nu) = Ok n /\
                   stationID n <> unassigned /\
                   n_geometry n = centroid2 (n_geometry nu) (n_geometry nv)) /\
        edges_s' = map (fun r => (fst r, redirect (dropped e nu) (survivor e nu) (snd r)))
                       edges_s /\
        (forall r, In r edges_s' ->
                   u (snd r) <> dropped e nu /\ v (snd r) <> dropped e nu)) /\
  (forall (g' : graph G) (row : Z * edge G) (e : edge G) (nu nv : node G),
      merge_station_nodes tolerance g = Ok g' ->
      merged_edge tolerance g row e nu nv ->
      In (survivor e nu) (index (fst g')) /\
      ~ In (dropped e nu) (index (fst g')) /\
      (forall r, In r (snd g') ->
                 u (snd r) <> dropped e nu /\ v (snd r) <> dropped e nu)).
Proof.
  split.
  - intros row nodes_s edges_s to_drop e nu nv He Hlen Hu Hv Hm.
    eexists. eexists. split; [apply (merge_step_merges _ _ _ _ _ _ _ _ _ He Hlen Hu Hv Hm) |].
    destruct (mergeable_roles _ _ _ _ Hu Hv Hm) as [Hd [[k [Hk Hkne]] Hdiff]].
    split; [apply index_at_set |]. split; [| split].
    + apply station_of_Ok in Hk. destruct Hk as [n [Hn Hsid]].
      exists (set_n_geometry (centroid2 (n_geometry nu) (n_geometry nv)) n).
      split; [now apply loc_at_set_same |]. simpl. split; [congruence | reflexivity].
    + apply rewire_redirect.
    + intros r Hr. rewrite rewire_redirect in Hr. apply in_map_iff in Hr.
      destruct Hr as [[i e0] [<- _]]. simpl. split.
      * destruct (Z.eqb_spec (u e0) (dropped e nu)); assumption.
      * destruct (Z.eqb_spec (v e0) (dropped e nu)); assumption.
  - intros g' row e nu nv Hrun [Hrow [He [Hlen [Hu [Hv Hm]]]]].
    unfold merge_station_nodes in Hrun.
    apply bind_Ok in Hrun. destruct Hrun as [[[nodes_s edges_s] to_drop] [Hloop Hfin]].
    unfold merge_loop in Hloop. destruct g as [nodes_gdf edges_gdf]. simpl in *.
    assert (Hinit : merge_invariant nodes_gdf (nodes_gdf, edges_gdf, [])).
    { simpl. repeat split; auto; intros; contradiction. }
    destruct (merge_loop_invariant _ _ _ _ _ _ Hinit Hloop)
      as [[Hidx [Hsid [Hplain Hends]]] [_ Hvisited]].
    specialize (Hvisited row e nu nv Hrow He Hlen Hu Hv Hm). simpl in Hvisited.
    destruct (mergeable_roles _ _ _ _ Hu Hv Hm) as [Hd [[k [Hk Hkne]] Hdiff]].
    destruct (finish_merge_inv _ _ _ _ Hfin) as [Hnodes [Hedges _]].
    split; [| split].
    + apply Hnodes. split.
      * rewrite Hidx. apply station_of_Ok in Hk. destruct Hk as [n [Hn _]].
        eapply loc_index; eassumption.
      * intros Hin. apply Hplain in Hin. congruence.
    + intros Hin. apply Hnodes in Hin. tauto.
    + intros r Hr. destruct (Hedges r Hr) as [r0 [Hr0 [Hu0 Hv0]]].
      rewrite Hu0, Hv0. now apply Hends.
Qed.

(** ** The node count *)

Lemma simplify_step_length (row : Z * edge G) (s s' : merge_state) :
  simplify_step row s = Ok s' ->
  List.length (fst (fst s')) = List.length (fst (fst s)).
Proof.
  destruct s as [[nodes_s edges_s] to_drop]. unfold simplify_step. intros Hs.
  inv_bind Hs as e _.
  inv_bind Hs as nu _.
  inv_bind Hs as nv _.
  destruct (_ && _).
  - inv_bind Hs as c _. inversion Hs; subst s'. simpl.
    apply length_at_set.
  - now inversion Hs.
Qed.

Lemma merge_step_length (old_edges_gdf : frame (edge G)) (tolerance : Q)
      (row : Z * edge G) (s s' : merge_state) :
  merge_step old_edges_gdf tolerance row s = Ok s' ->
  List.length (fst (fst s')) = List.length (fst (fst s)).
Proof.
  intros Hstep. destruct (merge_step_cases _ _ _ _ _ Hstep) as [-> | Hmerge];
    [reflexivity |].
  destruct Hmerge as [e [nu [nv [He [Hlen [Hu [Hv Hm]]]]]]].
  destruct s as [[nodes_s edges_s] to_drop]. simpl in Hu, Hv.
  rewrite (merge_step_merges _ _ _ _ _ _ _ _ _ He Hlen Hu Hv Hm) in Hstep.
  inversion Hstep; subst s'. simpl. apply length_at_set.
Qed.

Lemma simplify_stations_count (g g' : graph G) :
  simplify_stations g = Ok g' -> (List.length (fst g') <= List.length (fst g))%nat.
Proof.
  unfold simplify_stations. destruct g as [nodes_gdf edges_gdf]. intros Hrun.
  apply bind_Ok in Hrun. destruct Hrun as [[[nodes_s edges_s] to_drop] [Hloop Hfin]].
  apply finish_merge_inv in Hfin. destruct Hfin as [_ [_ Hle]].
  assert (Hlen : List.length nodes_s = List.length nodes_gdf).
  { apply (foldM_invariant simplify_step
             (fun s => List.length (fst (fst s)) = List.length nodes_gdf)
             edges_gdf) with (s := (nodes_gdf, edges_gdf, [])) (s' := (nodes_s, edges_s, to_drop));
      auto.
    intros a s s' _ Hs Hstep. rewrite <- Hs. now apply simplify_step_length with (row := a). }
  simpl. lia.
Qed.

Lemma merge_station_nodes_count (tolerance : Q) (g g' : graph G) :
  merge_station_nodes tolerance g = Ok g' ->
  (List.length (fst g') <= List.length (fst g))%nat.
Proof.
  unfold merge_station_nodes, merge_loop. destruct g as [nodes_gdf edges_gdf]. intros Hrun.
  apply bind_Ok in Hrun. destruct Hrun as [[[nodes_s edges_s] to_drop] [Hloop Hfin]].
  apply finish_merge_inv in Hfin. destruct Hfin as [_ [_ Hle]].
  assert (Hlen : List.length nodes_s = List.length nodes_gdf).
  { apply (foldM_invariant (merge_step edges_gdf tolerance)
             (fun s => List.length (fst (fst s)) = List.length nodes_gdf)
             edges_gdf) with (s := (nodes_gdf, edges_gdf, [])) (s' := (nodes_s, edges_s, to_drop));
      auto.
    intros a s s' _ Hs Hstep. rewrite <- Hs.
    now apply merge_step_length with (old_edges_gdf := edges_gdf) (tolerance := tolerance)
                                     (row := a). }
  simpl. lia.
Qed.

(** C4, as the code has it.  [dissolve_stations] makes one pass: a
    name-identity merge with its repair, a tolerance merge with its repair,
    and a second name-identity merge with its repair; nothing is repeated.
    The node count never increases. *)
Theorem dissolve_is_a_single_pass (g g' : graph G) :
  dissolve_stations g = Ok g' ->
  (exists g1 g2,
      simplify_stations g = Ok g1 /\
      merge_station_nodes 40 g1 = Ok g2 /\
      simplify_stations g2 = Ok g') /\
  (List.length (fst g') <= List.length (fst g))%nat.
Proof.
  unfold dissolve_stations. intros Hrun.
  inv_bind Hrun as g1 H1.
  apply bind_Ok in Hrun. destruct Hrun as [g2 [H2 H3]].
  split; [eauto |].
  apply simplify_stations_count in H1, H3.
  apply merge_station_nodes_count in H2. lia.
Qed.

(** ** Graph construction *)

(** C8.  The edge table returned by [gdfs_from_railways] holds no edge with
    equal ends and a geometry shorter than 1.0; every edge of the
    deduplicated table with different ends, or with a geometry of length at
    least 1.0, is returned. *)
Theorem no_short_self_loops
        (obtain_nodes_gdf : frame railway -> frame (node G))
        (join_by_coordinates :
           frame (node G) -> frame railway -> frame (node G) * frame (edge G))
        (duplicate_nodes :
           frame (node G) * frame (edge G * (Z * Z)) ->
           frame (node G) * frame (edge G * (Z * Z)))
        (railways_gdf : frame railway) :
  let build := gdfs_from_railways obtain_nodes_gdf join_by_coordinates duplicate_nodes in
  let table := deduplicated_edges obtain_nodes_gdf join_by_coordinates duplicate_nodes in
  (forall row, In row (snd (build railways_gdf)) ->
     ~ (u (snd row) = v (snd row) /\ (geom_length (e_geometry (snd row)) < 1)%Q)) /\
  (forall row, In row (snd (table railways_gdf)) ->
     u (fst (snd row)) <> v (fst (snd row)) \/
     (1 <= geom_length (e_geometry (fst (snd row))))%Q ->
     In (fst row, fst (snd row)) (snd (build railways_gdf))).
Proof.
  intros build table. subst build table. unfold gdfs_from_railways.
  destruct (deduplicated_edges _ _ _ railways_gdf) as [nodes_gdf edges_gdf].
  cbn [snd]. split.
  - intros row Hin [Heq Hlt]. apply in_map_iff in Hin.
    destruct Hin as [[i [e c]] [<- Hin]]. apply filter_In in Hin.
    destruct Hin as [_ Hkeep]. simpl in *.
    apply negb_true_iff, andb_false_iff in Hkeep. destruct Hkeep as [Hne | Hlen].
    + apply Z.eqb_neq in Hne. contradiction.
    + apply Qltb_ge in Hlen. exact (Qlt_not_le _ _ Hlt Hlen).
  - intros [i [e c]] Hin Hkeep. simpl in *.
    apply in_map_iff. exists (i, (e, c)). split; [reflexivity |].
    apply filter_In. split; [assumption |]. simpl.
    apply negb_true_iff, andb_false_iff. destruct Hkeep as [Hne | Hlen].
    + left. now apply Z.eqb_neq.
    + right. now apply Qltb_ge.
Qed.

(** ** Station extension *)

Lemma option_string_eqb_eq (a b : option string) :
  option_string_eqb a b = true <-> a = b.
Proof.
  destruct a as [s |], b as [t |]; simpl; try (split; congruence).
  rewrite String.eqb_eq. split; congruence.
Qed.




End Network.
End NetworkFacts.

(** * The network functions on the scenes *)

Module NetworkScenes.
Import TransportNetwork Plane Scenes.

Local Open Scope Q_scope.

(** C3: station 7 is 34 units from node 0, well within 50, and 16 units
    from the track.  It is not snapped to node 0: the loop takes the branch
    for the edge, which returns no graph. *)
Lemma near_node_not_snapped :
  distance_geometry_gdf (@n_geometry geom) (s_geometry (snd halt)) (fst track_reset)
  = Ok (34, 0%Z) /\
  distance_geometry_gdf (@e_geometry geom) (s_geometry (snd halt)) (snd track_reset)
  = Ok (16, 0%Z) /\
  34 <= 50 /\
  attachment_of track_stations halt track_reset = Ok (Split 0%Z) /\
  assign_station track_stations halt track_reset = Raise NameError /\
  assign_station track_stations halt track_reset
  <> Ok (at_set (fst track_reset) 0 (set_station 7 (Some "Halt"%string)), snd track_reset).
Proof.
  repeat split; try (vm_compute; reflexivity).
  - vm_compute. discriminate.
  - vm_compute. discriminate.
Qed.

(** The same station: the edge is nearer than the node, and within 50. *)
Lemma nearer_of_node_and_edge_wins_witness :
  loc track_stations 7 = Ok (snd halt) /\
  (16 < 34 -> 16 <= 50 ->
   assign_station track_stations halt track_reset
   = split_for_station 7 (Some "Halt"%string) (point 30 16) 0 track_reset).
Proof.
  split; [reflexivity |].
  assert (Hdn : distance_geometry_gdf (@n_geometry geom) (s_geometry (snd halt))
                                      (fst track_reset) = Ok (34, 0%Z))
    by (vm_compute; reflexivity).
  assert (Hde : distance_geometry_gdf (@e_geometry geom) (s_geometry (snd halt))
                                      (snd track_reset) = Ok (16, 0%Z))
    by (vm_compute; reflexivity).
  exact (proj2 (proj2
    (NetworkFacts.nearer_of_node_and_edge_wins track_stations halt (snd halt)
       (fst track_reset) (snd track_reset) (34, 0%Z) (16, 0%Z) eq_refl Hdn Hde))).
Defined.

(** C5 on the track: station 7 is nearer to edge 0 than to any node, and
    the iteration that should split edge 0 raises. *)
Lemma split_branch_raises_witness :
  loc track_stations 7 = Ok (snd halt) /\
  distance_geometry_gdf (@n_geometry geom) (s_geometry (snd halt)) (fst track_reset)
  = Ok (34, 0%Z) /\
  distance_geometry_gdf (@e_geometry geom) (s_geometry (snd halt)) (snd track_reset)
  = Ok (16, 0%Z) /\
  16 < 34 /\ 16 <= 50 /\
  attach (34, 0%Z) (16, 0%Z) = Split 0%Z /\
  assign_station track_stations halt track_reset = Raise NameError.
Proof.
  assert (Hdn : distance_geometry_gdf (@n_geometry geom) (s_geometry (snd halt))
                                      (fst track_reset) = Ok (34, 0%Z))
    by (vm_compute; reflexivity).
  assert (Hde : distance_geometry_gdf (@e_geometry geom) (s_geometry (snd halt))
                                      (snd track_reset) = Ok (16, 0%Z))
    by (vm_compute; reflexivity).
  assert (Hlt : 16 < 34) by reflexivity.
  assert (H50 : 16 <= 50) by (vm_compute; discriminate).
  split; [reflexivity |]. split; [exact Hdn |]. split; [exact Hde |].
  split; [exact Hlt |]. split; [exact H50 |].
  exact (NetworkFacts.split_branch_raises track_stations halt (snd halt)
           (fst track_reset) (snd track_reset) (34, 0%Z) (16, 0%Z) eq_refl Hdn Hde Hlt H50).
Defined.

(** C10 on the track with the stations 8 and 9: node 0 is chosen by neither
    and loses the station columns it came with. *)
Lemma node0_not_chosen : ~ chosen served_stations 0 served_stations track_reset.
Proof.
  intros Hc.
  inversion Hc as [row rest g Ha | row rest g g1 Hs Hc1]; subst.
  { vm_compute in Ha. discriminate. }
  assert (Hg1 : g1 = track_served).
  { assert (Hrun : assign_station served_stations terminus track_reset = Ok track_served)
      by (vm_compute; reflexivity).
    rewrite Hrun in Hs. now inversion Hs. }
  subst g1. clear Hs Hc.
  inversion Hc1 as [row rest g Ha | row rest g g2 Hs Hc2]; subst.
  { vm_compute in Ha. discriminate. }
  inversion Hc2.
Defined.

(** Node 0 came as station 12, "Old", and leaves as no station. *)
Lemma unchosen_nodes_stay_unassigned_witness :
  assign_stations_to_nodes served_stations track = Ok track_served /\
  In (plain_node 0 0 0 12 (Some "Old"%string)) track_nodes /\
  ~ chosen served_stations 0 served_stations track_reset /\
  exists n',
    In (0%Z, n') (fst track_served) /\
    stationID n' = unassigned /\ n_name n' = None /\
    n_geometry n' = point 0 0.
Proof.
  assert (Hrun : assign_stations_to_nodes served_stations track = Ok track_served)
    by (vm_compute; reflexivity).
  assert (Hin : In (plain_node 0 0 0 12 (Some "Old"%string)) track_nodes)
    by (simpl; tauto).
  split; [exact Hrun |]. split; [exact Hin |]. split; [exact node0_not_chosen |].
  destruct (NetworkFacts.unchosen_nodes_stay_unassigned served_stations track_nodes
              track_edges (fst track_served) (snd track_served) 0
              (snd (plain_node 0 0 0 12 (Some "Old"%string))) Hrun Hin node0_not_chosen)
    as [_ [n' [Hn' [_ [Hgeo [Hsid [Hname _]]]]]]].
  exists n'. repeat split; assumption.
Defined.

(** C4: dissolving the chain a second time merges one more node and removes
    one more edge. *)
Lemma dissolve_twice_differs :
  dissolve_stations chain = Ok chain_once /\
  dissolve_stations chain_once = Ok chain_twice /\
  List.length (fst chain_twice) <> List.length (fst chain_once) /\
  List.length (snd chain_twice) <> List.length (snd chain_once).
Proof.
  repeat split; try (vm_compute; reflexivity); simpl; discriminate.
Qed.

(** The first application to the chain takes three nodes to two. *)
Lemma dissolve_is_a_single_pass_witness :
  dissolve_stations chain = Ok chain_once /\
  (List.length (fst chain_once) <= List.length (fst chain))%nat.
Proof.
  assert (Hrun : dissolve_stations chain = Ok chain_once) by (vm_compute; reflexivity).
  split; [exact Hrun |].
  exact (proj2 (NetworkFacts.dissolve_is_a_single_pass chain chain_once Hrun)).
Defined.

(** C6 on the chain: edge 0 joins station node 0 and plain node 1. *)
Lemma station_merge_witness :
  merged_edge 40 chain (plain_edge 0 0 1 [(0, 0); (10, 0)])
              (snd (plain_edge 0 0 1 [(0, 0); (10, 0)]))
              (snd (plain_node 0 0 0 5 (Some "X"%string)))
              (snd (plain_node 1 10 0 unassigned None)) /\
  merge_station_nodes 40 chain = Ok chain_once /\
  In 0%Z (index (fst chain_once)) /\
  ~ In 1%Z (index (fst chain_once)) /\
  (forall r, In r (snd chain_once) -> u (snd r) <> 1%Z /\ v (snd r) <> 1%Z) /\
  exists nodes_s' edges_s',
    merge_step (snd chain) 40 (plain_edge 0 0 1 [(0, 0); (10, 0)])
               (fst chain, snd chain, [])
    = Ok (nodes_s', edges_s', [1%Z]) /\
    exists n, loc nodes_s' 0 = Ok n /\ n_geometry n = point 5 0.
Proof.
  assert (Hm : merged_edge 40 chain (plain_edge 0 0 1 [(0, 0); (10, 0)])
                 (snd (plain_edge 0 0 1 [(0, 0); (10, 0)]))
                 (snd (plain_node 0 0 0 5 (Some "X"%string)))
                 (snd (plain_node 1 10 0 unassigned None))).
  { unfold merged_edge. repeat split; try (vm_compute; reflexivity). simpl. tauto. }
  assert (Hrun : merge_station_nodes 40 chain = Ok chain_once) by (vm_compute; reflexivity).
  split; [exact Hm |]. split; [exact Hrun |].
  destruct (NetworkFacts.station_merge_rewires_and_drops 40 chain) as [Hstep Hfinal].
  destruct (Hfinal chain_once _ _ _ _ Hrun Hm) as [Hs [Hd He]].
  split; [exact Hs |]. split; [exact Hd |]. split; [exact He |].
  assert (Hshort : Qgtb (geom_length (e_geometry (snd (plain_edge 0 0 1 [(0, 0); (10, 0)]))))
                        40 = false) by (vm_compute; reflexivity).
  destruct (Hstep (plain_edge 0 0 1 [(0, 0); (10, 0)]) (fst chain) (snd chain) []
                  (snd (plain_edge 0 0 1 [(0, 0); (10, 0)]))
                  (snd (plain_node 0 0 0 5 (Some "X"%string)))
                  (snd (plain_node 1 10 0 unassigned None))
                  eq_refl Hshort eq_refl eq_refl eq_refl)
    as [nodes_s' [edges_s' [Hst [_ [[n [Hn [_ Hgeo]]] _]]]]].
  exists nodes_s', edges_s'. split; [exact Hst |].
  exists n. split; [exact Hn |]. rewrite Hgeo. vm_compute. reflexivity.
Defined.

(** C8 on the three lines: the loop around the square stays, the loop of
    length one half goes. *)
Lemma no_short_self_loops_witness :
  let build := gdfs_from_railways obtain_nodes_gdf join_by_coordinates duplicate_nodes in
  let square := plain_edge 1 0 0 [(0, 0); (10, 0); (10, 10); (0, 10); (0, 0)] in
  let back := plain_edge 2 2 2 [(20, 0); (20.25, 0); (20, 0)] in
  In square (snd (build rail_lines)) /\
  ~ (u (snd square) = v (snd square) /\ geom_length (e_geometry (snd square)) < 1) /\
  ~ In back (snd (build rail_lines)).
Proof.
  intros build square back.
  destruct (NetworkFacts.no_short_self_loops obtain_nodes_gdf join_by_coordinates
              duplicate_nodes rail_lines) as [Hnone Hkept].
  assert (Hin : In square (snd (build rail_lines))).
  { apply (Hkept (1%Z, (snd square, (0%Z, 0%Z)))).
    - vm_compute. tauto.
    - right. vm_compute. discriminate. }
  split; [exact Hin |]. split; [exact (Hnone square Hin) |].
  intros Hback. apply (Hnone back Hback). split; [reflexivity |].
  vm_compute. reflexivity.
Defined.



End NetworkScenes.

(** * More facts about lists, frames and loops *)

Lemma mapM_Forall2 {A B : Type} (f : A -> result B) (l : list A) (l' : list B) :
  mapM f l = Ok l' -> Forall2 (fun a b => f a = Ok b) l l'.
Proof.
  revert l'. induction l as [| a l IH]; simpl; intros l' Hm.
  - inversion Hm. constructor.
  - inv_bind Hm as b Hb. inv_bind Hm as bs Hbs. inversion Hm; subst l'.
    constructor; auto.
Qed.

Lemma length_zero_nil {A : Type} (l : list A) :
  (List.length l =? 0)%nat = true <-> l = [].
Proof.
  destruct l; simpl; split; congruence.
Qed.

Lemma length_pos_In {A : Type} (l : list A) :
  (0 <? List.length l)%nat = true <-> exists a, In a l.
Proof.
  destruct l as [| a l]; simpl; split; try discriminate.
  - intros [a []].
  - eauto.
  - reflexivity.
Qed.

Lemma filter_length_lt {A : Type} (p : A -> bool) (l : list A) (a : A) :
  In a l -> p a = false -> (List.length (filter p l) < List.length l)%nat.
Proof.
  induction l as [| b l IH]; simpl; [contradiction |].
  intros [-> | Hin] Hp.
  - rewrite Hp. pose proof (filter_length_le p l). lia.
  - specialize (IH Hin Hp). destruct (p b); simpl; lia.
Qed.

(** * More facts about barriers.py *)

Module BarriersMore.
Import Barriers.

Section Relations.
Context {G : Type} `{Shapely G}.

(** Which barrierIDs [_crossing_barriers] lists. *)
Lemma _crossing_barriers_iff (line_geometry : G) (barriers_gdf : list (barrier G))
      (i : Z) :
  In i (_crossing_barriers line_geometry barriers_gdf) <->
  (exists b, In b barriers_gdf /\ barrierID b = i /\
             intersects (b_geometry b) line_geometry = true) /\
  (forall b, In b barriers_gdf -> barrierID b = i ->
             touches (b_geometry b) line_geometry = false).
Proof.
  unfold _crossing_barriers.
  destruct (List.length _ =? 0)%nat eqn:Hempty.
  - apply length_zero_nil in Hempty. split; [intros [] |].
    intros [[b [Hb [_ Hint]]] _].
    assert (Hin : In b (filter (fun b0 => intersects (b_geometry b0) line_geometry)
                               barriers_gdf)) by (apply filter_In; tauto).
    rewrite Hempty in Hin. contradiction.
  - rewrite in_map_iff. split.
    + intros [b [Hid Hb]]. apply filter_In in Hb. destruct Hb as [Hb Hnot].
      apply filter_In in Hb. destruct Hb as [Hb Hint].
      apply negb_true_iff, isin_false in Hnot. split; [exists b; tauto |].
      intros b' Hb' Hid'. destruct (touches (b_geometry b') line_geometry) eqn:Ht;
        [| reflexivity].
      exfalso. apply Hnot. rewrite Hid, <- Hid'. apply in_map.
      apply filter_In. tauto.
    + intros [[b [Hb [Hid Hint]]] Hnone]. exists b. split; [assumption |].
      apply filter_In. split; [apply filter_In; tauto |].
      apply negb_true_iff, isin_false. intros Hin. apply in_map_iff in Hin.
      destruct Hin as [b' [Hid' Hb']]. apply filter_In in Hb'.
      destruct Hb' as [Hb' Ht]. rewrite (Hnone b' Hb') in Ht; congruence.
Qed.

(** X2.  A barrierID is listed by [_crossing_barriers] exactly when some
    barrier with that ID intersects the line and no barrier with that ID
    touches it. *)
Theorem crossing_barriers_listed (line_geometry : G) (barriers_gdf : list (barrier G))
        (i : Z) :
  In i (_crossing_barriers line_geometry barriers_gdf) <->
  (exists b, In b barriers_gdf /\ barrierID b = i /\
             intersects (b_geometry b) line_geometry = true) /\
  (forall b, In b barriers_gdf -> barrierID b = i ->
             touches (b_geometry b) line_geometry = false).
Proof. apply _crossing_barriers_iff. Qed.

(** X3.  [assign_structuring_barriers] returns the rows of the edge table in
    order; the column [sep_barr] of an edge is true exactly when a barrier
    that is no park intersects the edge and no such barrier with the same
    barrierID touches it.  Parks alone never make an edge separating. *)
Theorem structuring_barriers_column (edges_gdf : frame (edge G))
        (barriers_gdf : list (barrier G)) :
  let out := assign_structuring_barriers edges_gdf barriers_gdf in
  map (fun r => (fst r, fst (snd r))) out = edges_gdf /\
  (forall i e sep, In (i, (e, sep)) out ->
     (sep = true <->
      exists b, In b barriers_gdf /\ b_type b <> park /\
                intersects (b_geometry b) (e_geometry e) = true /\
                forall b', In b' barriers_gdf -> b_type b' <> park ->
                           barrierID b' = barrierID b ->
                           touches (b_geometry b') (e_geometry e) = false)) /\
  ((forall b, In b barriers_gdf -> b_type b = park) ->
   forall i e sep, In (i, (e, sep)) out -> sep = false).
Proof.
  intros out. subst out. unfold assign_structuring_barriers.
  set (tmp := filter (fun b => negb (barrier_type_eqb (b_type b) park)) barriers_gdf).
  assert (Htmp : forall b, In b tmp <-> In b barriers_gdf /\ b_type b <> park).
  { intros b. unfold tmp. rewrite filter_In, negb_true_iff.
    destruct (b_type b); simpl; split; intros [Hb Ht]; split; congruence. }
  assert (Hsep : forall i e sep,
             In (i, (e, sep))
                (map (fun row => (fst row, (snd row,
                         (0 <? List.length (_crossing_barriers (e_geometry (snd row)) tmp))%nat)))
                     edges_gdf) ->
             sep = (0 <? List.length (_crossing_barriers (e_geometry e) tmp))%nat).
  { intros i e sep Hin. apply in_map_iff in Hin. destruct Hin as [[j e0] [Heq _]].
    simpl in Heq. now inversion Heq. }
  split; [| split].
  - rewrite map_map. simpl. rewrite <- (map_id edges_gdf) at 2.
    apply map_ext. now intros [i e].
  - intros i e sep Hin. rewrite (Hsep i e sep Hin), length_pos_In. split.
    + intros [k Hk]. apply _crossing_barriers_iff in Hk.
      destruct Hk as [[b [Hb [Hid Hint]]] Hnone]. apply Htmp in Hb.
      exists b. repeat split; try tauto.
      intros b' Hb' Ht' Hid'. apply Hnone; [apply Htmp; tauto | congruence].
    + intros [b [Hb [Ht [Hint Hnone]]]]. exists (barrierID b).
      apply _crossing_barriers_iff. split.
      * exists b. split; [apply Htmp; tauto | tauto].
      * intros b' Hb' Hid'. apply Htmp in Hb'. apply Hnone; tauto.
  - intros Hparks i e sep Hin. rewrite (Hsep i e sep Hin).
    destruct (0 <? _)%nat eqn:Hpos; [| reflexivity].
    apply length_pos_In in Hpos. destruct Hpos as [k Hk].
    apply _crossing_barriers_iff in Hk. destruct Hk as [[b [Hb _]] _].
    apply Htmp in Hb. destruct Hb as [Hb Ht]. now apply Hparks in Hb.
Qed.

(** X4.  With distinct barrierIDs, an edge that [along_water] marks as a
    bridge is marked as separating by [assign_structuring_barriers]. *)
Theorem bridge_is_separating (edges_gdf : frame (edge G)) (barriers_gdf : list (barrier G))
        (i : Z) (row : edge G) (c : water_columns) :
  NoDup (map (@barrierID G) barriers_gdf) ->
  In (i, row) edges_gdf ->
  along_water_columns edges_gdf barriers_gdf row = Ok c ->
  bridge c = true ->
  In (i, (row, true)) (assign_structuring_barriers edges_gdf barriers_gdf).
Proof.
  intros Hnd Hrow Hc Hbridge.
  apply BarriersFacts.along_water_columns_inv in Hc.
  destruct Hc as [_ [Hcr [Hbr _]]]. rewrite Hbridge in Hbr. symmetry in Hbr.
  apply length_pos_In in Hbr. destruct Hbr as [k Hk]. rewrite Hcr in Hk.
  apply _crossing_barriers_iff in Hk. destruct Hk as [[b [Hb [Hid Hint]]] Hnone].
  apply filter_In in Hb. destruct Hb as [Hb Hwater].
  unfold assign_structuring_barriers. apply in_map_iff.
  exists (i, row). split; [| exact Hrow]. simpl. do 2 f_equal.
  apply length_pos_In. exists k. apply _crossing_barriers_iff. split.
  - exists b. split; [| tauto]. apply filter_In. split; [assumption |].
    destruct (b_type b); simpl in *; congruence.
  - intros b' Hb' Hid'. apply filter_In in Hb'. destruct Hb' as [Hb' _].
    assert (b' = b) by (eapply NoDup_map_injective; eauto; congruence). subst b'.
    apply Hnone; [| assumption]. apply filter_In. tauto.
Qed.

(** ** The spatial index *)

(** The rows picked through the index built on the frame itself are the
    rows whose box meets the query box. *)
Lemma iloc_sindex (pre rest : frame (edge G)) (b : bbox) :
  flat_map (fun p => match nth_error (pre ++ rest) p with
                     | Some row => [row]
                     | None => []
                     end)
           (map fst (filter (fun pb => bbox_intersects (snd pb) b)
                            (combine (seq (List.length pre) (List.length rest))
                                     (map (fun row => bounds (e_geometry (snd row))) rest))))
  = filter (fun row => bbox_intersects (bounds (e_geometry (snd row))) b) rest.
Proof.
  revert pre. induction rest as [| r rest IH]; intros pre; simpl; [reflexivity |].
  specialize (IH (pre ++ [r])). rewrite <- app_assoc in IH. simpl in IH.
  rewrite length_app in IH. simpl in IH. rewrite Nat.add_1_r in IH.
  destruct (bbox_intersects (bounds (e_geometry (snd r))) b); simpl.
  - rewrite nth_error_app2 by lia. rewrite Nat.sub_diag. simpl. now rewrite IH.
  - exact IH.
Qed.

Lemma iloc_sindex_hits (edges_gdf : frame (edge G)) (b : bbox) :
  iloc edges_gdf (sindex_intersection (sindex edges_gdf) b)
  = filter (fun row => bbox_intersects (bounds (e_geometry (snd row))) b) edges_gdf.
Proof.
  unfold iloc, sindex_intersection, sindex. rewrite length_map.
  apply (iloc_sindex [] edges_gdf b).
Qed.

(** X5.  With the index built on the frame itself, [barriers_along] raises
    [KeyError] when the label is not in the frame, and returns a list when it
    is, provided the box of the edge meets the box of its own buffer. *)
Theorem barriers_along_returns (ix_line : Z) (edges_gdf : frame (edge G))
        (barriers_gdf : list (barrier G)) (offset : Q) :
  (~ In ix_line (index edges_gdf) ->
   barriers_along ix_line edges_gdf barriers_gdf (sindex edges_gdf) offset
   = Raise KeyError) /\
  (forall row,
      loc edges_gdf ix_line = Ok row ->
      bbox_intersects (bounds (e_geometry row)) (bounds (buffer (e_geometry row) offset))
      = true ->
      exists l, barriers_along ix_line edges_gdf barriers_gdf (sindex edges_gdf) offset
                = Ok l).
Proof.
  split.
  - intros Hnot. unfold barriers_along. now rewrite (loc_absent _ _ _ Hnot).
  - intros row Hrow Hbox. unfold barriers_along. rewrite Hrow. cbn [bind].
    destruct (List.length _ =? 0)%nat; [eauto |].
    rewrite iloc_sindex_hits. unfold drop.
    assert (Hin : isin ix_line
                    (index (filter (fun r => bbox_intersects (bounds (e_geometry (snd r)))
                                               (bounds (buffer (e_geometry row) offset)))
                                   edges_gdf)) = true).
    { apply isin_In. unfold index. apply in_map_iff. exists (ix_line, row).
      split; [reflexivity |]. apply filter_In. split; [now apply loc_In | assumption]. }
    simpl. rewrite Hin. simpl. eauto.
Qed.

(** ** The two column functions on a whole frame *)

Lemma mapM_rows {A B : Type} (f : Z * A -> result (Z * B)) (p : B -> A)
      (l : frame A) (l' : frame B) :
  (forall a b, f a = Ok b -> (fst b, p (snd b)) = a) ->
  mapM f l = Ok l' -> map (fun r => (fst r, p (snd r))) l' = l.
Proof.
  intros Hf Hm. apply mapM_Forall2 in Hm.
  induction Hm as [| a b l l' Hab _ IH]; simpl; [reflexivity |].
  now rewrite (Hf a b Hab), IH.
Qed.

(** X6.  When [along_water] returns, it returns the rows of the edge table
    in order, and for every row: [bridge] tells whether some water barrier
    crosses the edge, a bridge has no barrier along it, and the barriers
    along any other edge are those [barriers_along] lists for it. *)
Theorem along_water_rows (edges_gdf : frame (edge G)) (barriers_gdf : list (barrier G))
        (out : frame (edge G * (bool * list Z))) :
  along_water edges_gdf barriers_gdf = Ok out ->
  let tmp := filter (fun b => barrier_type_eqb (b_type b) water) barriers_gdf in
  map (fun r => (fst r, fst (snd r))) out = edges_gdf /\
  forall i e is_bridge a_rivers,
    In (i, (e, (is_bridge, a_rivers))) out ->
    (is_bridge = true <-> _crossing_barriers (e_geometry e) tmp <> []) /\
    (is_bridge = true -> a_rivers = []) /\
    (is_bridge = false ->
     barriers_along (edgeID e) edges_gdf tmp (sindex edges_gdf) (200 # 1) = Ok a_rivers).
Proof.
  intros Hout tmp. unfold along_water in Hout. split.
  - eapply mapM_rows; [| exact Hout].
    intros [i e] b Hb. simpl in Hb. inv_bind Hb as c Hc. now inversion Hb.
  - intros i e is_bridge a Hin.
    eapply mapM_Ok_In in Hout; [| exact Hin]. destruct Hout as [[j e0] [_ Hf]].
    simpl in Hf. inv_bind Hf as c Hc. inversion Hf; subst j e0 is_bridge a; clear Hf.
    apply BarriersFacts.along_water_columns_inv in Hc. fold tmp in Hc.
    destruct Hc as [Hac [Hcr [Hbr Ha]]]. rewrite Ha, Hbr, <- Hcr.
    destruct (c_rivers c) as [| k l]; simpl.
    + split; [split; [discriminate | intros Hn; now elim Hn] |].
      split; [discriminate |]. intros _. exact Hac.
    + split; [split; [discriminate | reflexivity] |].
      split; [reflexivity | discriminate].
Qed.

(** X7.  When [along_within_parks] returns, every park barrier could be
    polygonized, the rows of the edge table are returned in order, and no
    barrierID occurs twice in a column [aw_parks]. *)
Theorem along_within_parks_returns (edges_gdf : frame (edge G))
        (barriers_gdf : list (barrier G)) (out : frame (edge G * list Z)) :
  along_within_parks edges_gdf barriers_gdf = Ok out ->
  (forall b, In b barriers_gdf -> b_type b = park ->
             exists p, polygonize_first (b_geometry b) = Ok p) /\
  map (fun r => (fst r, fst (snd r))) out = edges_gdf /\
  (forall i e aw, In (i, (e, aw)) out -> NoDup aw).
Proof.
  unfold along_within_parks. intros Hout.
  inv_bind Hout as a Ha. inv_bind Hout as polygons Hpoly.
  inversion Hout; subst out; clear Hout. split; [| split].
  - intros b Hb Hpark. unfold park_polygons in Hpoly.
    eapply mapM_Ok_In_source in Hpoly.
    + destruct Hpoly as [q [_ Hq]]. inv_bind Hq as p Hp. eauto.
    + apply filter_In. split; [exact Hb |]. now rewrite Hpark.
  - rewrite map_map.
    erewrite map_ext; [eapply mapM_rows with (p := fun x => fst x); [| exact Ha] |].
    + intros [i e] b Hb. simpl in Hb. inv_bind Hb as l Hl. now inversion Hb.
    + intros [i [e l]]. reflexivity.
  - intros i e aw Hin. apply in_map_iff in Hin.
    destruct Hin as [[j [e0 l]] [Heq _]]. inversion Heq. apply NoDup_nodup.
Qed.

(** ** Short road sectors *)

Lemma road_ends_rows (features : list G) (ends : list (G * (pt * pt))) :
  road_ends features = Ok ends ->
  map fst ends = features /\
  forall g a b, In (g, (a, b)) ends -> endpoints g = Ok (a, b).
Proof.
  intros Hm. split.
  - apply mapM_Forall2 in Hm.
    induction Hm as [| g r l l' Hr _ IH]; simpl; [reflexivity |].
    inv_bind Hr as e He. inversion Hr; subst r. simpl. now rewrite IH.
  - intros g a b Hin. eapply mapM_Ok_In in Hm; [| exact Hin].
    destruct Hm as [g0 [_ Hg0]]. inv_bind Hg0 as e He. inversion Hg0; subst. exact He.
Qed.

Lemma filter_length_pos {A : Type} (p : A -> bool) (l : list A) (a : A) :
  In a l -> p a = true -> (1 <= List.length (filter p l))%nat.
Proof.
  induction l as [| b l IH]; simpl; [contradiction |].
  intros [-> | Hin] Hp.
  - rewrite Hp. simpl. lia.
  - specialize (IH Hin Hp). destruct (p b); simpl; lia.
Qed.

Lemma same_coordinate_refl (a : pt) : same_coordinate a a = true.
Proof. unfold same_coordinate. now rewrite !Qeq_bool_refl. Qed.

Lemma same_coordinate_sym (a b : pt) :
  same_coordinate a b = true -> same_coordinate b a = true.
Proof.
  unfold same_coordinate. rewrite !andb_true_iff.
  intros [Hx Hy]. split; now apply Qeq_bool_sym.
Qed.

(** A coordinate that starts one feature and ends one feature is not ignored. *)
Lemma to_ignore_from_and_to (ends : list (G * (pt * pt))) (k : pt)
      (g g' : G) (a b a' b' : pt) :
  In (g, (a, b)) ends -> same_coordinate k a = true ->
  In (g', (a', b')) ends -> same_coordinate k b' = true ->
  to_ignore ends k = false.
Proof.
  intros Hg Ha Hg' Hb'. unfold to_ignore. apply Nat.eqb_neq.
  assert (Hu : (1 <= List.length (filter (same_coordinate k)
                                          (map (fun r => fst (snd r)) ends)))%nat).
  { apply filter_length_pos with (a := a); [| exact Ha].
    apply in_map_iff. now exists (g, (a, b)). }
  assert (Hv : (1 <= List.length (filter (same_coordinate k)
                                          (map (fun r => snd (snd r)) ends)))%nat).
  { apply filter_length_pos with (a := b'); [| exact Hb'].
    apply in_map_iff. now exists (g', (a', b')). }
  lia.
Qed.

(** Which features [road_barriers] keeps. *)
Lemma road_barriers_kept (features : list G) (out : list (G * barrier_type))
      (ends : list (G * (pt * pt))) :
  road_ends features = Ok ends ->
  road_barriers features = Ok out ->
  forall g a b,
    In (g, (a, b)) ends ->
    (In (g, road) out <->
     (to_ignore ends a && to_ignore ends b) && Qltb (geom_length g) 500 = false /\
     (to_ignore ends a || to_ignore ends b) && Qltb (geom_length g) 200 = false).
Proof.
  intros Hends Hout g a b Hin. unfold road_barriers in Hout. rewrite Hends in Hout.
  cbn [bind] in Hout. inversion Hout; subst out; clear Hout.
  rewrite in_map_iff. split.
  - intros [[g0 [a0 b0]] [Heq Hr]]. simpl in Heq. inversion Heq; subst g0; clear Heq.
    apply filter_In in Hr. destruct Hr as [Hr H200].
    apply filter_In in Hr. destruct Hr as [Hr H500]. simpl in H200, H500.
    apply (road_ends_rows _ _ Hends) in Hr. apply (road_ends_rows _ _ Hends) in Hin.
    rewrite Hr in Hin. inversion Hin; subst a0 b0.
    apply negb_true_iff in H200, H500. now split.
  - intros [H500 H200]. exists (g, (a, b)). split; [reflexivity |].
    apply filter_In. split; [| simpl; now rewrite H200].
    apply filter_In. split; [exact Hin | simpl; now rewrite H500].
Qed.

(** X8.  When [road_barriers] returns, every row it returns is an input
    feature typed [road]; and an input feature is returned exactly when it is
    at least 500 long if both its ends are ignored and at least 200 long if
    one of them is, the ignored coordinates being those that are an end of
    exactly one feature of the whole input. *)
Theorem road_barriers_pruning (features : list G) (out : list (G * barrier_type)) :
  road_barriers features = Ok out ->
  exists ends,
    road_ends features = Ok ends /\ map fst ends = features /\
    (forall g t, In (g, t) out -> t = road /\ In g features) /\
    (forall g a b,
        In (g, (a, b)) ends ->
        (In (g, road) out <->
         (to_ignore ends a = true -> to_ignore ends b = true ->
          500 <= geom_length g) /\
         (to_ignore ends a = true \/ to_ignore ends b = true ->
          200 <= geom_length g)))%Q.
Proof.
  intros Hout. pose proof Hout as Hrun. unfold road_barriers in Hrun.
  inv_bind Hrun as ends Hends. exists ends.
  destruct (road_ends_rows _ _ Hends) as [Hfst _].
  split; [exact Hends |]. split; [exact Hfst |]. split.
  - intros g t Hin. inversion Hrun; subst out; clear Hrun.
    apply in_map_iff in Hin. destruct Hin as [[g0 e] [Heq Hr]].
    inversion Heq; subst. split; [reflexivity |].
    apply filter_In in Hr. destruct Hr as [Hr _].
    apply filter_In in Hr. destruct Hr as [Hr _].
    apply in_map_iff. now exists (g, e).
  - intros g a b Hin. rewrite (road_barriers_kept _ _ _ Hends Hout g a b Hin).
    destruct (to_ignore ends a), (to_ignore ends b); simpl;
      rewrite ?Qltb_ge; intuition discriminate.
Qed.

(** X9.  A feature that ends where it starts is always kept by
    [road_barriers], however short it is. *)
Theorem closed_road_kept (features : list G) (out : list (G * barrier_type))
        (g : G) (a b : pt) :
  road_barriers features = Ok out ->
  In g features ->
  endpoints g = Ok (a, b) ->
  same_coordinate a b = true ->
  In (g, road) out.
Proof.
  intros Hout Hg He Hab. pose proof Hout as Hrun. unfold road_barriers in Hrun.
  inv_bind Hrun as ends Hends. clear Hrun.
  assert (Hin : In (g, (a, b)) ends).
  { destruct (mapM_Ok_In_source _ _ _ g Hends Hg) as [r [Hr Hf]].
    rewrite He in Hf. cbn [bind] in Hf. inversion Hf; now subst r. }
  apply (road_barriers_kept _ _ _ Hends Hout g a b Hin).
  rewrite (to_ignore_from_and_to ends a g g a b a b Hin (same_coordinate_refl a) Hin Hab).
  rewrite (to_ignore_from_and_to ends b g g a b a b Hin
             (same_coordinate_sym _ _ Hab) Hin (same_coordinate_refl b)).
  now split.
Qed.

(** X10.  [road_barriers] returns when every feature has a coordinate, and
    raises [IndexError] when some feature has none. *)
Theorem road_barriers_returns (features : list G) :
  ((forall g, In g features -> coords g <> []) ->
   exists out, road_barriers features = Ok out) /\
  ((exists g, In g features /\ coords g = []) ->
   road_barriers features = Raise IndexError).
Proof.
  unfold road_barriers, road_ends. split.
  - intros Hall.
    assert (Hends : exists ends,
               mapM (fun g => e <- endpoints g ;; Ok (g, e)) features = Ok ends).
    { induction features as [| g l IH]; simpl; [eauto |].
      destruct IH as [ends Hends]; [intros g' Hg'; apply Hall; now right |].
      unfold endpoints at 1. destruct (coords g) eqn:Hc.
      - exfalso. apply (Hall g); [now left | exact Hc].
      - cbn [bind]. rewrite Hends. cbn [bind]. eauto. }
    destruct Hends as [ends Hends]. rewrite Hends. cbn [bind]. eauto.
  - intros [g [Hg Hc]].
    assert (Hends : mapM (fun g => e <- endpoints g ;; Ok (g, e)) features
                    = Raise IndexError).
    { induction features as [| g0 l IH]; simpl; [contradiction |].
      unfold endpoints at 1. destruct (coords g0) eqn:Hc0; [reflexivity |].
      cbn [bind]. destruct Hg as [-> | Hg]; [congruence |].
      now rewrite (IH Hg). }
    now rewrite Hends.
Qed.

End Relations.
End BarriersMore.

(** * More facts about transport_network.py *)

Module NetworkMore.
Import TransportNetwork.

Section Network.
Context {G : Type} `{Shapely G} `{CleanRules G}.

(** ** The station columns through the merge functions *)

Lemma station_columns_at_set_geometry (nodes_gdf : frame (node G)) (l l' : Z) (c : G) :
  station_columns (at_set nodes_gdf l (set_n_geometry c)) l' = station_columns nodes_gdf l'.
Proof.
  unfold station_columns. induction nodes_gdf as [| [i n] f IH]; simpl; [reflexivity |].
  destruct (i =? l); simpl; destruct (i =? l'); simpl; auto.
Qed.

Lemma station_columns_Ok (nodes_gdf : frame (node G)) (l : Z) (c : Z * option string) :
  station_columns nodes_gdf l = Ok c ->
  exists n, loc nodes_gdf l = Ok n /\ stationID n = fst c /\ n_name n = snd c.
Proof.
  unfold station_columns. intros Hs. inv_bind Hs as n Hn. inversion Hs. simpl. eauto.
Qed.

Lemma station_columns_loc (nodes_gdf : frame (node G)) (l : Z) (n : node G) :
  loc nodes_gdf l = Ok n -> station_columns nodes_gdf l = Ok (stationID n, n_name n).
Proof. unfold station_columns. now intros ->. Qed.

Lemma station_columns_rowwise (f f' : frame (node G)) :
  Forall2 same_columns f f' ->
  forall l, station_columns f' l = station_columns f l.
Proof.
  unfold station_columns.
  induction 1 as [| [i n] [i' n'] f f' [Hi [Hs Hn]] _ IH]; intros l; simpl; [reflexivity |].
  simpl in Hi, Hs, Hn. subst i'. destruct (i =? l); [| apply IH].
  simpl. now rewrite Hs, Hn.
Qed.

Lemma recompute_xy_columns (nodes_gdf nodes' : frame (node G)) :
  recompute_xy nodes_gdf = Ok nodes' -> Forall2 same_columns nodes_gdf nodes'.
Proof.
  intros Hxy. apply NetworkFacts.recompute_xy_rows in Hxy. apply mapM_Forall2 in Hxy.
  induction Hxy as [| a b l l' Hab _ IH]; constructor; [| exact IH].
  destruct (coords (n_geometry (snd a))); [discriminate |].
  inversion Hab; subst b. now repeat split.
Qed.

Lemma clean_network_columns (nodes_gdf : frame (node G)) (edges_gdf : frame (edge G)) :
  Forall2 same_columns nodes_gdf
          (fst (clean_network (nodes_gdf, edges_gdf) clean_settings)).
Proof.
  unfold clean_network, clean_settings. cbn [remove_disconnected_islands dead_ends
    same_uv_edges self_loops fix_topology fst snd].
  induction nodes_gdf as [| [i n] f IH]; simpl; constructor; [| exact IH].
  destruct (find _ _) as [e |]; [| now repeat split].
  destruct (coords _); [now repeat split |].
  destruct (pt_eqb _ _); now repeat split.
Qed.

Lemma station_columns_drop (f : frame (node G)) (to_drop : list Z) (l : Z) :
  ~ In l to_drop ->
  station_columns (filter (fun row => negb (isin (fst row) to_drop)) f) l
  = station_columns f l.
Proof.
  intros Hnot. unfold station_columns.
  induction f as [| [i n] f IH]; simpl; [reflexivity |].
  destruct (isin i to_drop) eqn:Hi; simpl.
  - destruct (Z.eqb_spec i l) as [-> | _]; [| exact IH].
    apply isin_In in Hi. contradiction.
  - destruct (i =? l); [reflexivity | exact IH].
Qed.

(** After the loop: a node that stays has the station columns it had. *)
Lemma finish_merge_columns (nodes_s : frame (node G)) (edges_s : frame (edge G))
      (to_drop : list Z) (g' : graph G) (l : Z) :
  finish_merge (nodes_s, edges_s, to_drop) = Ok g' ->
  ~ In l to_drop ->
  station_columns (fst g') l = station_columns nodes_s l.
Proof.
  unfold finish_merge. intros Hf Hnot.
  inv_bind Hf as nodes1 Hdrop.
  inv_bind Hf as nodes2 Hxy.
  inv_bind Hf as edges2 Hce.
  inversion Hf; subst g'; clear Hf.
  apply drop_Ok in Hdrop.
  rewrite (station_columns_rowwise _ _ (clean_network_columns nodes2 edges2)).
  rewrite (station_columns_rowwise _ _ (recompute_xy_columns _ _ Hxy)).
  rewrite Hdrop. now apply station_columns_drop.
Qed.


(** ** [simplify_stations] *)

Lemma simplify_step_cases (row : Z * edge G) (nodes_s : frame (node G))
      (edges_s : frame (edge G)) (to_drop : list Z) (s' : merge_state) :
  simplify_step row (nodes_s, edges_s, to_drop) = Ok s' ->
  exists e nu nv,
    loc edges_s (fst row) = Ok e /\
    loc nodes_s (u e) = Ok nu /\ loc nodes_s (v e) = Ok nv /\
    ((s' = (nodes_s, edges_s, to_drop) /\
      (n_name nu <> n_name nv \/ n_name nu = None)) \/
     (n_name nu = n_name nv /\ n_name nu <> None /\
      s' = (at_set nodes_s (u e)
                   (set_n_geometry (centroid2 (n_geometry nu) (n_geometry nv))),
            rewire (v e) (u e) edges_s, to_drop ++ [v e]))).
Proof.
  unfold simplify_step. intros Hs.
  inv_bind Hs as e He. inv_bind Hs as nu Hu. inv_bind Hs as nv Hv.
  exists e, nu, nv. repeat (split; [assumption |]).
  destruct (option_string_eqb (n_name nu) (n_name nv)) eqn:Hsame; simpl in Hs.
  - destruct (option_string_eqb (n_name nu) None) eqn:Hnone; simpl in Hs.
    + left. inversion Hs. split; [reflexivity |]. right.
      now apply NetworkFacts.option_string_eqb_eq.
    + right. unfold centroid_of in Hs. rewrite Hu, Hv in Hs. cbn [bind] in Hs.
      inversion Hs. split; [now apply NetworkFacts.option_string_eqb_eq |].
      split; [| reflexivity]. intros Hn.
      apply NetworkFacts.option_string_eqb_eq in Hn. congruence.
  - left. inversion Hs. split; [reflexivity |]. left. intros Hn.
    apply NetworkFacts.option_string_eqb_eq in Hn. congruence.
Qed.

(** What the loop of [simplify_stations] keeps true. *)
Lemma simplify_loop_invariant (nodes_gdf : frame (node G)) (rows : list (Z * edge G)) :
  forall s s',
    simplify_invariant nodes_gdf s ->
    foldM simplify_step rows s = Ok s' ->
    simplify_invariant nodes_gdf s'.
Proof.
  apply foldM_invariant. intros row [[nodes_s edges_s] to_drop] s' _ [Hidx [Hcol Hdrop]] Hstep.
  destruct (simplify_step_cases _ _ _ _ _ Hstep)
    as [e [nu [nv [He [Hu [Hv [[-> _] | [Hsame [Hnone ->]]]]]]]]].
  - now repeat split.
  - split; [| split].
    + rewrite index_at_set. exact Hidx.
    + intros l. rewrite station_columns_at_set_geometry. apply Hcol.
    + intros d Hd. apply in_app_or in Hd. destruct Hd as [Hd | [<- | []]]; [now apply Hdrop |].
      exists (stationID nv), (n_name nv). split; [| congruence].
      rewrite <- Hcol. now apply station_columns_loc.
Qed.

Lemma simplify_stations_columns (g g' : graph G) :
  simplify_stations g = Ok g' ->
  (forall l, In l (index (fst g')) ->
             In l (index (fst g)) /\
             station_columns (fst g') l = station_columns (fst g) l) /\
  (forall l sid, station_columns (fst g) l = Ok (sid, None) -> In l (index (fst g'))).
Proof.
  unfold simplify_stations. destruct g as [nodes_gdf edges_gdf]. intros Hrun.
  apply bind_Ok in Hrun. destruct Hrun as [[[nodes_s edges_s] to_drop] [Hloop Hfin]].
  assert (Hinit : simplify_invariant nodes_gdf (nodes_gdf, edges_gdf, [])).
  { simpl. repeat split; auto. intros d []. }
  destruct (simplify_loop_invariant _ _ _ _ Hinit Hloop) as [Hidx [Hcol Hdrop]].
  destruct (NetworkFacts.finish_merge_inv _ _ _ _ Hfin) as [Hnodes _].
  simpl. split.
  - intros l Hl. apply Hnodes in Hl. destruct Hl as [Hl Hnot].
    split; [now rewrite <- Hidx |].
    rewrite (finish_merge_columns _ _ _ _ _ Hfin Hnot). apply Hcol.
  - intros l sid Hl. apply Hnodes. split.
    + rewrite Hidx. apply station_columns_Ok in Hl. destruct Hl as [n [Hn _]].
      eapply loc_index; eassumption.
    + intros Hin. destruct (Hdrop l Hin) as [sid' [name [Hc Hname]]].
      rewrite Hl in Hc. inversion Hc. congruence.
Qed.

(** X11.  [simplify_stations] removes no node without a name, and every
    node it keeps is a node of its input with the stationID and the name it
    had. *)
Theorem simplify_stations_keeps_unnamed (g g' : graph G) :
  simplify_stations g = Ok g' ->
  (forall l, In l (index (fst g')) ->
             In l (index (fst g)) /\
             station_columns (fst g') l = station_columns (fst g) l) /\
  (forall l sid, station_columns (fst g) l = Ok (sid, None) -> In l (index (fst g'))).
Proof. apply simplify_stations_columns. Qed.

(** ** [merge_station_nodes] *)

Lemma merge_loop_columns (nodes_gdf : frame (node G)) (old_edges_gdf : frame (edge G))
      (tolerance : Q) (rows : list (Z * edge G)) :
  forall s s',
    (forall l, station_columns (fst (fst s)) l = station_columns nodes_gdf l) ->
    foldM (merge_step old_edges_gdf tolerance) rows s = Ok s' ->
    (forall l, station_columns (fst (fst s')) l = station_columns nodes_gdf l).
Proof.
  apply (foldM_invariant (merge_step old_edges_gdf tolerance)
           (fun s => forall l, station_columns (fst (fst s)) l = station_columns nodes_gdf l)).
  intros row s s' _ Hcol Hstep.
  destruct (NetworkFacts.merge_step_cases _ _ _ _ _ Hstep) as [-> | Hmerge]; [exact Hcol |].
  destruct Hmerge as [e [nu [nv [He [Hlen [Hu [Hv Hm]]]]]]].
  destruct s as [[nodes_s edges_s] to_drop]. simpl in Hu, Hv, Hcol.
  rewrite (NetworkFacts.merge_step_merges _ _ _ _ _ _ _ _ _ He Hlen Hu Hv Hm) in Hstep.
  inversion Hstep; subst s'. simpl. intros l.
  rewrite station_columns_at_set_geometry. apply Hcol.
Qed.

Lemma merge_station_nodes_columns (tolerance : Q) (g g' : graph G) :
  merge_station_nodes tolerance g = Ok g' ->
  (forall l, In l (index (fst g')) ->
             In l (index (fst g)) /\
             station_columns (fst g') l = station_columns (fst g) l) /\
  (forall l sid name, station_columns (fst g) l = Ok (sid, name) ->
                      sid <> unassigned -> In l (index (fst g'))).
Proof.
  unfold merge_station_nodes, merge_loop. destruct g as [nodes_gdf edges_gdf]. intros Hrun.
  apply bind_Ok in Hrun. destruct Hrun as [[[nodes_s edges_s] to_drop] [Hloop Hfin]].
  assert (Hinit : merge_invariant nodes_gdf (nodes_gdf, edges_gdf, [])).
  { simpl. repeat split; auto; intros; contradiction. }
  destruct (NetworkFacts.merge_loop_invariant _ _ _ _ _ _ Hinit Hloop)
    as [[Hidx [_ [Hplain _]]] _].
  pose proof (merge_loop_columns nodes_gdf _ _ _ (nodes_gdf, edges_gdf, []) _
                (fun l => eq_refl) Hloop) as Hcol.
  destruct (NetworkFacts.finish_merge_inv _ _ _ _ Hfin) as [Hnodes _].
  simpl in *. split.
  - intros l Hl. apply Hnodes in Hl. destruct Hl as [Hl Hnot].
    split; [now rewrite <- Hidx |].
    rewrite (finish_merge_columns _ _ _ _ _ Hfin Hnot). apply Hcol.
  - intros l sid name Hl Hsid. apply station_columns_Ok in Hl.
    destruct Hl as [n [Hn [Hs _]]]. simpl in Hs. apply Hnodes. split.
    + rewrite Hidx. eapply loc_index; eassumption.
    + intros Hin. apply Hplain in Hin.
      rewrite (NetworkFacts.station_of_loc _ _ _ Hn) in Hin. congruence.
Qed.

(** X12.  [merge_station_nodes] removes no station node, and every node it
    keeps is a node of its input with the stationID and the name it had. *)
Theorem merge_station_nodes_keeps_stations (tolerance : Q) (g g' : graph G) :
  merge_station_nodes tolerance g = Ok g' ->
  (forall l, In l (index (fst g')) ->
             In l (index (fst g)) /\
             station_columns (fst g') l = station_columns (fst g) l) /\
  (forall l sid name, station_columns (fst g) l = Ok (sid, name) ->
                      sid <> unassigned -> In l (index (fst g'))).
Proof. apply merge_station_nodes_columns. Qed.

(** X13.  Every node [dissolve_stations] returns is a node of its input,
    under its label and with the stationID and the name it had: stations are
    merged, never renamed or renumbered. *)
Theorem dissolve_stations_keeps_columns (g g' : graph G) :
  dissolve_stations g = Ok g' ->
  forall l, In l (index (fst g')) ->
            In l (index (fst g)) /\
            station_columns (fst g') l = station_columns (fst g) l.
Proof.
  unfold dissolve_stations. intros Hrun l Hl.
  inv_bind Hrun as g1 H1.
  apply bind_Ok in Hrun. destruct Hrun as [g2 [H2 H3]].
  destruct (proj1 (simplify_stations_columns _ _ H3) l Hl) as [Hl2 Hc3].
  destruct (proj1 (merge_station_nodes_columns _ _ _ H2) l Hl2) as [Hl1 Hc2].
  destruct (proj1 (simplify_stations_columns _ _ H1) l Hl1) as [Hl0 Hc1].
  split; [exact Hl0 | congruence].
Qed.

(** X14.  When [merge_station_nodes] merges at least one edge, it returns
    fewer nodes than it was given; when no edge of the table is short enough
    with a station at one end only, it returns the same node labels. *)
Theorem merge_station_nodes_shrinks (tolerance : Q) (g g' : graph G) :
  merge_station_nodes tolerance g = Ok g' ->
  ((exists row e nu nv, merged_edge tolerance g row e nu nv) ->
   (List.length (fst g') < List.length (fst g))%nat) /\
  ((forall row e nu nv, ~ merged_edge tolerance g row e nu nv) ->
   index (fst g') = index (fst g)).
Proof.
  unfold merge_station_nodes, merge_loop. destruct g as [nodes_gdf edges_gdf]. intros Hrun.
  apply bind_Ok in Hrun. destruct Hrun as [[[nodes_s edges_s] to_drop] [Hloop Hfin]].
  split.
  - intros [row [e [nu [nv [Hrow [He [Hlen [Hu [Hv Hm]]]]]]]]]. simpl in *.
    assert (Hinit : merge_invariant nodes_gdf (nodes_gdf, edges_gdf, [])).
    { simpl. repeat split; auto; intros; contradiction. }
    destruct (NetworkFacts.merge_loop_invariant _ _ _ _ _ _ Hinit Hloop)
      as [[Hidx _] [_ Hvisited]].
    specialize (Hvisited row e nu nv Hrow He Hlen Hu Hv Hm). simpl in Hvisited.
    assert (Hd : In (dropped e nu) (index nodes_s)).
    { rewrite Hidx. unfold dropped. destruct (negb _); eapply loc_index; eassumption. }
    unfold finish_merge in Hfin.
    inv_bind Hfin as nodes1 Hdrop. inv_bind Hfin as nodes2 Hxy.
    inv_bind Hfin as edges2 Hce. inversion Hfin; subst g'; clear Hfin.
    apply drop_Ok in Hdrop.
    assert (Hlen' : forall f : frame (node G), List.length f = List.length (index f))
      by (intros f; unfold index; now rewrite length_map).
    rewrite (Hlen' (fst _)), (proj1 (NetworkFacts.clean_network_default nodes2 edges2)),
      (NetworkFacts.recompute_xy_index _ _ Hxy), <- Hlen', Hdrop.
    replace (List.length nodes_gdf) with (List.length nodes_s)
      by (now rewrite (Hlen' nodes_s), Hidx, <- Hlen').
    unfold index in Hd. apply in_map_iff in Hd. destruct Hd as [[i n] [Hi Hd]].
    simpl in Hi. subst i.
    apply filter_length_lt with (a := (dropped e nu, n)); [exact Hd |].
    simpl. apply negb_false_iff. now apply isin_In.
  - intros Hnone. simpl in *.
    assert (Hsame : (nodes_s, edges_s, to_drop) = (nodes_gdf, edges_gdf, [])).
    { assert (Hall : forall rows s s',
                 (forall r, In r rows -> In r edges_gdf) ->
                 s = (nodes_gdf, edges_gdf, []) ->
                 foldM (merge_step edges_gdf tolerance) rows s = Ok s' ->
                 s' = (nodes_gdf, edges_gdf, [])).
      { intros todo. induction todo as [| row todo IH]; intros s s' Hsub -> Hf.
        - simpl in Hf. now inversion Hf.
        - apply foldM_Ok_cons in Hf. destruct Hf as [s1 [Hstep Hrest]].
          apply (IH s1 s'); [intros r Hr; apply Hsub; now right | | exact Hrest].
          destruct (NetworkFacts.merge_step_cases _ _ _ _ _ Hstep) as [-> | Hmerge];
            [reflexivity |].
          destruct Hmerge as [e [nu [nv [He [Hlen [Hu [Hv Hm]]]]]]]. simpl in Hu, Hv.
          exfalso. apply (Hnone row e nu nv). unfold merged_edge. simpl.
          repeat split; try assumption. apply Hsub. now left. }
      apply (Hall edges_gdf (nodes_gdf, edges_gdf, []) _ (fun r Hr => Hr) eq_refl Hloop). }
    inversion Hsame; subst nodes_s edges_s to_drop.
    unfold finish_merge in Hfin.
    inv_bind Hfin as nodes1 Hdrop. inv_bind Hfin as nodes2 Hxy.
    inv_bind Hfin as edges2 Hce. inversion Hfin; subst g'; clear Hfin.
    apply drop_Ok in Hdrop. simpl in Hdrop.
    rewrite (proj1 (NetworkFacts.clean_network_default nodes2 edges2)),
      (NetworkFacts.recompute_xy_index _ _ Hxy), Hdrop.
    f_equal. clear. induction nodes_gdf as [| r f IH]; simpl; [reflexivity |].
    now rewrite IH.
Qed.


(** ** The node at [v] of a named edge *)

Lemma loc_NoDup {R : Type} (f : frame R) (i : Z) (r : R) :
  NoDup (index f) -> In (i, r) f -> loc f i = Ok r.
Proof.
  induction f as [| [j r0] f IH]; simpl; intros Hnd Hin; [contradiction |].
  inversion Hnd as [| ? ? Hnot Hnd']; subst.
  destruct Hin as [Heq | Hin].
  - inversion Heq; subst. now rewrite Z.eqb_refl.
  - destruct (Z.eqb_spec j i) as [-> | _]; [| now apply IH].
    exfalso. apply Hnot. unfold index. apply in_map_iff. now exists (i, r).
Qed.

Lemma Forall2_loc {R : Type} (P : Z * R -> Z * R -> Prop) (f f' : frame R) :
  Forall2 P f f' ->
  (forall a b, P a b -> fst a = fst b) ->
  forall i o, loc f i = Ok o -> exists c, loc f' i = Ok c /\ P (i, o) (i, c).
Proof.
  intros Hall Hfst.
  induction Hall as [| [j o0] [j' c0] f f' Hp _ IH]; intros i o Hloc; simpl in *;
    [discriminate |].
  pose proof (Hfst _ _ Hp) as Hj. simpl in Hj. subst j'.
  destruct (Z.eqb_spec j i) as [-> | _].
  - inversion Hloc; subst o0. eauto.
  - now apply IH.
Qed.

Lemma Forall2_map_right {A B : Type} (P P' : A -> B -> Prop) (g : B -> B)
      (l : list A) (l' : list B) :
  (forall a b, P a b -> P' a (g b)) ->
  Forall2 P l l' -> Forall2 P' l (map g l').
Proof.
  intros Hg Hall. induction Hall; simpl; constructor; auto.
Qed.

Lemma Forall2_same {A : Type} (P : A -> A -> Prop) (l : list A) :
  (forall a, P a a) -> Forall2 P l l.
Proof. intros Hp. induction l; constructor; auto. Qed.

Lemma name_of_columns (f f' : frame (node G)) (l : Z) :
  station_columns f l = station_columns f' l -> name_of f l = name_of f' l.
Proof.
  unfold station_columns, name_of.
  destruct (loc f l) as [n | e], (loc f' l) as [n' | e']; simpl; congruence.
Qed.

Lemma name_of_loc (f : frame (node G)) (l : Z) (n : node G) :
  loc f l = Ok n -> name_of f l = Ok (n_name n).
Proof. unfold name_of. now intros ->. Qed.

(** One iteration of the loop of [simplify_stations] on the row labelled as
    the row [o] of the input. *)
Lemma simplify_step_tracks (nodes_gdf : frame (node G)) (edges_gdf : frame (edge G))
      (row : Z * edge G) (s s' : merge_state) :
  simplify_invariant nodes_gdf s ->
  Forall2 (tracks nodes_gdf (snd s)) edges_gdf (snd (fst s)) ->
  simplify_step row s = Ok s' ->
  Forall2 (tracks nodes_gdf (snd s')) edges_gdf (snd (fst s')) /\
  (forall d, In d (snd s) -> In d (snd s')) /\
  (forall e name,
      loc edges_gdf (fst row) = Ok e ->
      name_of nodes_gdf (u e) = Ok (Some name) ->
      name_of nodes_gdf (v e) = Ok (Some name) ->
      In (v e) (snd s')).
Proof.
  destruct s as [[nodes_s edges_s] to_drop]. intros [Hidx [Hcol Hdrop]] Htr Hstep.
  simpl in Htr.
  assert (Hname : forall l, name_of nodes_s l = name_of nodes_gdf l)
    by (intros l; apply name_of_columns, Hcol).
  destruct (simplify_step_cases _ _ _ _ _ Hstep)
    as [e [nu [nv [He [Hu [Hv [[-> Hno] | [Hsame [Hnone ->]]]]]]]]]; simpl.
  - split; [exact Htr |]. split; [auto |].
    intros o name Ho Hnu Hnv.
    destruct (Forall2_loc _ _ _ Htr (fun a b Hab => proj1 Hab) _ _ Ho)
      as [c [Hc [_ [Hcu [Hcv Hend]]]]].
    simpl in Hcu, Hcv, Hend. rewrite He in Hc. inversion Hc; subst c.
    rewrite <- Hname, (name_of_loc _ _ _ Hu) in Hcu.
    rewrite <- Hname, (name_of_loc _ _ _ Hv) in Hcv.
    rewrite Hnu in Hcu. rewrite Hnv in Hcv. exfalso.
    destruct Hno as [Hno | Hno]; congruence.
  - assert (Hmerged : name_of nodes_gdf (v e) = name_of nodes_gdf (u e)).
    { rewrite <- !Hname, (name_of_loc _ _ _ Hu), (name_of_loc _ _ _ Hv). congruence. }
    split; [| split].
    + rewrite NetworkFacts.rewire_redirect.
      apply Forall2_map_right with (P := tracks nodes_gdf to_drop); [| exact Htr].
      intros o c [Hl [Hcu [Hcv Hend]]]. unfold tracks, redirect. simpl.
      split; [exact Hl |]. split; [| split].
      * destruct (Z.eqb_spec (u (snd c)) (v e)) as [Heq | _]; [| exact Hcu].
        rewrite <- Hcu, Heq. now symmetry.
      * destruct (Z.eqb_spec (v (snd c)) (v e)) as [Heq | _]; [| exact Hcv].
        rewrite <- Hcv, Heq. now symmetry.
      * destruct Hend as [Hend | Hend]; [| right; apply in_or_app; now left].
        destruct (Z.eqb_spec (v (snd c)) (v e)) as [Heq | _]; [| now left].
        right. apply in_or_app. right. left. congruence.
    + intros d Hd. apply in_or_app. now left.
    + intros o name Ho _ _.
      destruct (Forall2_loc _ _ _ Htr (fun a b Hab => proj1 Hab) _ _ Ho)
        as [c [Hc [_ [_ [_ Hend]]]]].
      simpl in Hend. rewrite He in Hc. inversion Hc; subst c.
      apply in_or_app. destruct Hend as [<- | Hend]; [right; now left | now left].
Qed.

Lemma tracks_more (nodes_gdf : frame (node G)) (to_drop to_drop' : list Z)
      (edges_gdf edges_s : frame (edge G)) :
  (forall d, In d to_drop -> In d to_drop') ->
  Forall2 (tracks nodes_gdf to_drop) edges_gdf edges_s ->
  Forall2 (tracks nodes_gdf to_drop') edges_gdf edges_s.
Proof.
  intros Hsub Hall. induction Hall as [| o c l l' Hoc _ IH]; constructor; [| exact IH].
  destruct Hoc as [Hl [Hcu [Hcv Hend]]]. repeat split; auto.
  destruct Hend; [now left | right; auto].
Qed.

Lemma simplify_loop_tracks (nodes_gdf : frame (node G)) (edges_gdf : frame (edge G))
      (rows : list (Z * edge G)) :
  forall s s',
    simplify_invariant nodes_gdf s ->
    Forall2 (tracks nodes_gdf (snd s)) edges_gdf (snd (fst s)) ->
    foldM simplify_step rows s = Ok s' ->
    (forall d, In d (snd s) -> In d (snd s')) /\
    (forall row e name,
        In row rows ->
        loc edges_gdf (fst row) = Ok e ->
        name_of nodes_gdf (u e) = Ok (Some name) ->
        name_of nodes_gdf (v e) = Ok (Some name) ->
        In (v e) (snd s')).
Proof.
  induction rows as [| row rows IH]; intros s s' Hinv Htr Hloop.
  - simpl in Hloop. inversion Hloop; subst s'. split; [auto |].
    intros row e name [].
  - apply foldM_Ok_cons in Hloop. destruct Hloop as [s1 [Hstep Hloop]].
    destruct (simplify_step_tracks _ _ _ _ _ Hinv Htr Hstep) as [Htr1 [Hsub1 Hnow]].
    assert (Hinv1 : simplify_invariant nodes_gdf s1).
    { apply (simplify_loop_invariant nodes_gdf [row] s s1 Hinv).
      simpl. rewrite Hstep. reflexivity. }
    destruct (IH s1 s' Hinv1 Htr1 Hloop) as [Hsub Hlater].
    split; [auto |].
    intros r e name [<- | Hr] He Hnu Hnv.
    + apply Hsub. eapply Hnow; eassumption.
    + eapply Hlater; eassumption.
Qed.

(** X15.  With distinct edge labels, for every edge of the input whose two
    ends carry the same name, the node at its end [v] is not among the nodes
    [simplify_stations] returns; so the node of a loop edge is removed with
    it. *)
Theorem simplify_stations_drops_v (g g' : graph G) (i : Z) (e : edge G)
        (su sv : Z) (name : string) :
  NoDup (index (snd g)) ->
  simplify_stations g = Ok g' ->
  In (i, e) (snd g) ->
  station_columns (fst g) (u e) = Ok (su, Some name) ->
  station_columns (fst g) (v e) = Ok (sv, Some name) ->
  ~ In (v e) (index (fst g')).
Proof.
  destruct g as [nodes_gdf edges_gdf]. simpl. intros Hnd Hrun Hin Hcu Hcv.
  unfold simplify_stations in Hrun.
  apply bind_Ok in Hrun. destruct Hrun as [[[nodes_s edges_s] to_drop] [Hloop Hfin]].
  assert (Hinit : simplify_invariant nodes_gdf (nodes_gdf, edges_gdf, [])).
  { simpl. repeat split; auto. intros d []. }
  assert (Htr : Forall2 (tracks nodes_gdf []) edges_gdf edges_gdf).
  { apply Forall2_same. intros a. unfold tracks. auto. }
  destruct (simplify_loop_tracks nodes_gdf edges_gdf edges_gdf _ _ Hinit Htr Hloop)
    as [_ Hvisited].
  assert (Hname : forall l s, station_columns nodes_gdf l = Ok (s, Some name) ->
                              name_of nodes_gdf l = Ok (Some name)).
  { intros l s Hl. apply station_columns_Ok in Hl. destruct Hl as [n [Hn [_ Hnm]]].
    rewrite (name_of_loc _ _ _ Hn). simpl in Hnm. congruence. }
  specialize (Hvisited (i, e) e name Hin (loc_NoDup _ _ _ Hnd Hin)
                (Hname _ _ Hcu) (Hname _ _ Hcv)).
  simpl in Hvisited.
  destruct (NetworkFacts.finish_merge_inv _ _ _ _ Hfin) as [Hnodes _].
  intros Hv. apply Hnodes in Hv. tauto.
Qed.


(** ** [assign_stations_to_nodes] *)

Lemma In_at_set_inv {R : Type} (f : frame R) (l : Z) (upd : R -> R) (row : Z * R) :
  In row (at_set f l upd) ->
  In row f \/ exists r0, In (l, r0) f /\ row = (l, upd r0).
Proof.
  unfold at_set. intros Hin. apply in_map_iff in Hin.
  destruct Hin as [[i r0] [Heq Hin]]. simpl in Heq.
  destruct (Z.eqb_spec i l) as [-> | _]; subst row; eauto.
Qed.

(** The two things an iteration of the loop can do when it returns. *)
Lemma assign_station_cases (stations_gdf : frame (station G)) (row : Z * station G)
      (g g' : graph G) :
  assign_station stations_gdf row g = Ok g' ->
  exists st,
    loc stations_gdf (fst row) = Ok st /\
    (g' = g \/
     exists label, In label (index (fst g)) /\
                   g' = (at_set (fst g) label (set_station (fst row) (s_name st)), snd g)).
Proof.
  intros Hstep.
  destruct (NetworkFacts.assign_station_decides _ _ _ _ Hstep) as [st [a [Hst Ha]]].
  rewrite (NetworkFacts.assign_station_attachment _ _ _ _ _ Hst Ha) in Hstep.
  exists st. split; [exact Hst |].
  destruct a as [| label | index_edge].
  - left. now inversion Hstep.
  - right. exists label. split; [| now inversion Hstep].
    unfold attachment_of in Ha. rewrite Hst in Ha. cbn [bind] in Ha.
    inv_bind Ha as dn Hdn. inv_bind Ha as de Hde. inversion Ha as [Hat].
    pose proof (NetworkFacts.attach_cases dn de) as Hc. rewrite Hat in Hc.
    destruct Hc as [-> _]. destruct dn as [d i].
    apply NetworkFacts.distance_geometry_gdf_nearest in Hdn.
    destruct Hdn as [[r [Hr _]] _]. simpl.
    unfold index. apply in_map_iff. now exists (i, r).
  - rewrite NetworkFacts.split_for_station_raises in Hstep. discriminate.
Qed.



Lemma assign_loop_from_station (stations_gdf : frame (station G))
      (rows : list (Z * station G)) :
  forall g g',
    (forall row, In row (fst g) -> from_station stations_gdf (snd row)) ->
    foldM (assign_station stations_gdf) rows g = Ok g' ->
    (forall row, In row (fst g') -> from_station stations_gdf (snd row)).
Proof.
  apply (foldM_invariant (assign_station stations_gdf)
           (fun g => forall row, In row (fst g) -> from_station stations_gdf (snd row))).
  intros row g g1 _ Hinv Hstep.
  destruct (assign_station_cases _ _ _ _ Hstep) as [st [Hst [-> | [label [_ ->]]]]].
  - exact Hinv.
  - simpl. intros r Hr. apply In_at_set_inv in Hr.
    destruct Hr as [Hr | [r0 [_ ->]]]; [now apply Hinv |].
    right. exists st. simpl. split; [exact Hst | reflexivity].
Qed.

(** X17.  Every node [assign_stations_to_nodes] returns is either no
    station, with stationID 999999 and no name, or carries the label of a
    station feature as stationID and the name of that feature. *)
Theorem assigned_columns_from_stations (stations_gdf : frame (station G))
        (g g' : graph G) (i : Z) (n : node G) :
  assign_stations_to_nodes stations_gdf g = Ok g' ->
  In (i, n) (fst g') ->
  (stationID n = unassigned /\ n_name n = None) \/
  exists st, loc stations_gdf (stationID n) = Ok st /\ n_name n = s_name st.
Proof.
  destruct g as [nodes_gdf edges_gdf]. unfold assign_stations_to_nodes. intros Hrun Hin.
  inv_bind Hrun as [nodes1 edges1] Hloop.
  inv_bind Hrun as nodes2 Hxy.
  inv_bind Hrun as edges2 Hce.
  inversion Hrun; subst g'; clear Hrun. simpl in Hin.
  assert (Hinit : forall row, In row (fst (reset_stations nodes_gdf, edges_gdf)) ->
                              from_station stations_gdf (snd row)).
  { simpl. intros row Hrow. unfold reset_stations in Hrow. apply in_map_iff in Hrow.
    destruct Hrow as [r0 [<- _]]. left. simpl. auto. }
  pose proof (assign_loop_from_station _ _ _ _ Hinit Hloop) as Hall. simpl in Hall.
  apply NetworkFacts.recompute_xy_rows in Hxy. eapply mapM_Ok_In in Hxy; [| exact Hin].
  destruct Hxy as [[j m] [Hm Hf]]. simpl in Hf.
  destruct (coords (n_geometry m)); [discriminate |]. inversion Hf; subst i n; clear Hf.
  unfold index_by_nodeID in Hm. apply in_map_iff in Hm.
  destruct Hm as [[j0 m0] [Heq Hm0]]. simpl in Heq. inversion Heq; subst j m.
  exact (Hall _ Hm0).
Qed.


(** ** Labels and ends *)

Lemma assign_station_well_indexed (stations_gdf : frame (station G))
      (row : Z * station G) (g g' : graph G) :
  well_indexed g ->
  assign_station stations_gdf row g = Ok g' ->
  well_indexed g'.
Proof.
  intros [[Hnl Hnn] [[Hel Hen] Hends]] Hstep.
  destruct (assign_station_cases _ _ _ _ Hstep) as [st [Hst [-> | [label [_ ->]]]]].
  - exact (conj (conj Hnl Hnn) (conj (conj Hel Hen) Hends)).
  - split; [| split].
    + split; simpl.
      * intros r Hr. apply In_at_set_inv in Hr.
        destruct Hr as [Hr | [r0 [Hr0 ->]]]; [now apply Hnl |].
        simpl. apply (Hnl _ Hr0).
      * now rewrite index_at_set.
    + now split.
    + intros r Hr. simpl. rewrite index_at_set. now apply Hends.
Qed.

(** X18.  When every node is labelled by its nodeID and every edge by its
    edgeID, no label is used twice and both ends of every edge are nodes,
    the same holds of what [assign_stations_to_nodes] returns. *)
Theorem assign_stations_well_indexed (stations_gdf : frame (station G)) (g g' : graph G) :
  well_indexed g ->
  assign_stations_to_nodes stations_gdf g = Ok g' ->
  well_indexed g'.
Proof.
  destruct g as [nodes_gdf edges_gdf]. unfold assign_stations_to_nodes.
  intros [[Hnl Hnn] [[Hel Hen] Hends]] Hrun. simpl in *.
  inv_bind Hrun as [nodes1 edges1] Hloop.
  inv_bind Hrun as nodes2 Hxy.
  inv_bind Hrun as edges2 Hce.
  inversion Hrun; subst g'; clear Hrun.
  assert (Hinit : well_indexed (reset_stations nodes_gdf, edges_gdf)).
  { assert (Hidx : index (reset_stations nodes_gdf) = index nodes_gdf).
    { unfold reset_stations, index. rewrite map_map. now apply map_ext. }
    split; [| split]; simpl.
    - split; [| now rewrite Hidx].
      intros r Hr. unfold reset_stations in Hr. apply in_map_iff in Hr.
      destruct Hr as [r0 [<- Hr0]]. simpl. now apply Hnl.
    - now split.
    - intros r Hr. simpl. rewrite Hidx. now apply Hends. }
  assert (Hloop' : well_indexed (nodes1, edges1)).
  { apply (foldM_invariant (assign_station stations_gdf) well_indexed stations_gdf)
      with (s := (reset_stations nodes_gdf, edges_gdf)); [| exact Hinit | exact Hloop].
    intros a s s' _ Hs Hstep. eapply assign_station_well_indexed; eassumption. }
  destruct Hloop' as [[Hnl1 Hnn1] [[Hel1 Hen1] Hends1]]. simpl in *.
  assert (Hby : index_by_nodeID nodes1 = nodes1).
  { unfold index_by_nodeID. rewrite <- (map_id nodes1) at 2. apply map_ext_in.
    intros [i n] Hin. simpl. f_equal. symmetry. apply (Hnl1 _ Hin). }
  rewrite Hby in Hxy.
  pose proof (NetworkFacts.recompute_xy_index _ _ Hxy) as Hidx2.
  assert (Hidx3 : index edges2 = index edges1).
  { unfold correct_edges in Hce. eapply NetworkFacts.mapM_labels; [| exact Hce].
    intros a b Hab. simpl in Hab. inv_bind Hab as nu Hnu. inv_bind Hab as nv Hnv.
    now inversion Hab. }
  split; [| split]; simpl.
  - split; [| now rewrite Hidx2].
    intros r Hr. apply NetworkFacts.recompute_xy_rows in Hxy.
    eapply mapM_Ok_In in Hxy; [| exact Hr].
    destruct Hxy as [r0 [Hr0 Hf]]. destruct (coords (n_geometry (snd r0))); [discriminate |].
    inversion Hf; subst r. simpl. now apply Hnl1.
  - split; [| now rewrite Hidx3].
    intros r Hr.
    destruct (NetworkFacts.correct_edges_ends _ _ _ _ Hce Hr) as [r0 [Hr0 [Hl [Hid _]]]].
    rewrite Hl, Hid. now apply Hel1.
  - intros r Hr. simpl. rewrite Hidx2.
    destruct (NetworkFacts.correct_edges_ends _ _ _ _ Hce Hr) as [r0 [Hr0 [_ [_ [Hu Hv]]]]].
    rewrite Hu, Hv. now apply Hends1.
Qed.


(** ** The loops of [extend_stations] *)






(** ** Duplicate rows *)

Lemma drop_duplicates_from_distinct {R : Type} (same : R -> R -> bool) (f : frame R) :
  forall seen,
    (forall row r, In row (drop_duplicates_from same seen f) -> In r seen ->
                   same r (snd row) = false) /\
    ForallOrdPairs (fun a b => same (snd a) (snd b) = false)
                   (drop_duplicates_from same seen f) /\
    (forall row, In row f ->
                 In row (drop_duplicates_from same seen f) \/
                 exists r, (In r seen \/ In r (rows (drop_duplicates_from same seen f))) /\
                           same r (snd row) = true).
Proof.
  induction f as [| row f IH]; intros seen; simpl.
  - split; [intros ? ? [] |]. split; [constructor | intros ? []].
  - destruct (existsb (fun r => same r (snd row)) seen) eqn:Hex.
    + destruct (IH seen) as [Hseen [Hpairs Hall]].
      split; [exact Hseen |]. split; [exact Hpairs |].
      intros r0 [<- | Hin]; [| now apply Hall].
      right. apply existsb_exists in Hex. destruct Hex as [r [Hr Hs]]. eauto.
    + destruct (IH (snd row :: seen)) as [Hseen [Hpairs Hall]].
      split; [| split].
      * intros r0 r [<- | Hin] Hr.
        -- destruct (same r (snd row)) eqn:Hs; [| reflexivity].
           assert (existsb (fun r => same r (snd row)) seen = true)
             by (apply existsb_exists; eauto).
           congruence.
        -- apply (Hseen r0 r Hin). now right.
      * constructor; [| exact Hpairs].
        apply Forall_forall. intros r0 Hr0. apply (Hseen r0 (snd row) Hr0). now left.
      * intros r0 [<- | Hin]; [left; now left |].
        destruct (Hall r0 Hin) as [Hkept | [r [[[<- | Hr] | Hr] Hs]]].
        -- left. now right.
        -- right. exists (snd row). split; [right; simpl; now left | exact Hs].
        -- right. exists r. split; [now left | exact Hs].
        -- right. exists r. split; [right; simpl; now right | exact Hs].
Qed.

(** X20.  In the edge table of [gdfs_from_railways] before the node-lines
    are eliminated, no two rows have the same oriented coordinate
    sequence. *)
Theorem no_duplicate_tracks
        (obtain_nodes_gdf : frame railway -> frame (node G))
        (join_by_coordinates :
           frame (node G) -> frame railway -> frame (node G) * frame (edge G))
        (duplicate_nodes :
           frame (node G) * frame (edge G * (Z * Z)) ->
           frame (node G) * frame (edge G * (Z * Z)))
        (railways_gdf : frame railway) :
  ForallOrdPairs
    (fun a b => coords_eqb (oriented_coords (snd a)) (oriented_coords (snd b)) = false)
    (snd (deduplicated_edges obtain_nodes_gdf join_by_coordinates duplicate_nodes
                             railways_gdf)).
Proof.
  unfold deduplicated_edges.
  destruct (join_by_coordinates _ _) as [n1 e1].
  destruct (duplicate_nodes _) as [n2 e2].
  simpl. unfold drop_duplicates.
  apply (drop_duplicates_from_distinct
           (fun a b => coords_eqb (oriented_coords a) (oriented_coords b)) e2 []).
Qed.

End Network.
End NetworkMore.

(** ** The barrier functions on the scenes *)

Module BarriersMoreScenes.
Import Barriers Plane Scenes.

(** X4 on the street over the canal: street 0 is a bridge and separating. *)
Lemma bridge_is_separating_witness :
  NoDup (map (@barrierID geom) canal_barriers) /\
  In (0%Z, street0) canal_streets /\
  along_water_columns canal_streets canal_barriers street0 = Ok street0_columns /\
  bridge street0_columns = true /\
  In (0%Z, (street0, true)) (assign_structuring_barriers canal_streets canal_barriers).
Proof.
  assert (Hnd : NoDup (map (@barrierID geom) canal_barriers)).
  { simpl. repeat constructor; simpl; intuition discriminate. }
  assert (Hrow : In (0%Z, street0) canal_streets) by (simpl; tauto).
  assert (Hc : along_water_columns canal_streets canal_barriers street0
               = Ok street0_columns) by (vm_compute; reflexivity).
  split; [exact Hnd |]. split; [exact Hrow |]. split; [exact Hc |].
  split; [reflexivity |].
  exact (@BarriersMore.bridge_is_separating geom _ canal_streets canal_barriers
           0%Z street0 street0_columns Hnd Hrow Hc eq_refl).
Defined.

(** X5 on the same scene: street 0 is in the table, label 5 is not. *)
Lemma barriers_along_returns_witness :
  ~ In 5%Z (index canal_streets) /\
  barriers_along 5 canal_streets canal_barriers (sindex canal_streets) (200 # 1)
  = Raise KeyError /\
  loc canal_streets 0 = Ok street0 /\
  exists l, barriers_along 0 canal_streets canal_barriers (sindex canal_streets) (200 # 1)
            = Ok l.
Proof.
  assert (Hnot : ~ In 5%Z (index canal_streets)) by (simpl; intuition discriminate).
  destruct (@BarriersMore.barriers_along_returns geom _ 5%Z canal_streets canal_barriers
              (200 # 1)) as [Hraise _].
  destruct (@BarriersMore.barriers_along_returns geom _ 0%Z canal_streets canal_barriers
              (200 # 1)) as [_ Hok].
  split; [exact Hnot |]. split; [exact (Hraise Hnot) |]. split; [reflexivity |].
  apply (Hok street0); [reflexivity | vm_compute; reflexivity].
Defined.

(** X6 on the same scene. *)
Lemma along_water_rows_witness :
  along_water canal_streets canal_barriers = Ok canal_along_water /\
  map (fun r => (fst r, fst (snd r))) canal_along_water = canal_streets /\
  (forall i e is_bridge a_rivers,
      In (i, (e, (is_bridge, a_rivers))) canal_along_water ->
      is_bridge = true -> a_rivers = []).
Proof.
  assert (Hout : along_water canal_streets canal_barriers = Ok canal_along_water)
    by (vm_compute; reflexivity).
  pose proof (@BarriersMore.along_water_rows geom _ canal_streets canal_barriers
                canal_along_water Hout) as [Hrows Hcols].
  split; [exact Hout |]. split; [exact Hrows |].
  intros i e is_bridge a_rivers Hin. exact (proj1 (proj2 (Hcols i e is_bridge a_rivers Hin))).
Defined.

(** X7 on the path inside the park. *)
Lemma along_within_parks_returns_witness :
  along_within_parks park_paths park_barriers = Ok park_along_within /\
  (forall b, In b park_barriers -> b_type b = park ->
             exists p, polygonize_first (b_geometry b) = Ok p) /\
  map (fun r => (fst r, fst (snd r))) park_along_within = park_paths /\
  (forall i e aw, In (i, (e, aw)) park_along_within -> NoDup aw).
Proof.
  assert (Hout : along_within_parks park_paths park_barriers = Ok park_along_within)
    by (vm_compute; reflexivity).
  split; [exact Hout |].
  exact (@BarriersMore.along_within_parks_returns geom _ park_paths park_barriers
           park_along_within Hout).
Defined.

(** X8 on the four roads: the spur and the lone road are removed. *)
Lemma road_barriers_pruning_witness :
  road_barriers road_features = Ok road_features_kept /\
  exists ends,
    road_ends road_features = Ok ends /\ map fst ends = road_features /\
    (forall g t, In (g, t) road_features_kept -> t = road /\ In g road_features) /\
    (forall g a b,
        In (g, (a, b)) ends ->
        (In (g, road) road_features_kept <->
         (to_ignore ends a = true -> to_ignore ends b = true ->
          500 <= geom_length g) /\
         (to_ignore ends a = true \/ to_ignore ends b = true ->
          200 <= geom_length g)))%Q.
Proof.
  assert (Hout : road_barriers road_features = Ok road_features_kept)
    by (vm_compute; reflexivity).
  split; [exact Hout |].
  exact (@BarriersMore.road_barriers_pruning geom _ road_features road_features_kept Hout).
Defined.

(** X9 on the four roads: the ramp of 120 m is kept. *)
Lemma closed_road_kept_witness :
  road_barriers road_features = Ok road_features_kept /\
  In ramp road_features /\
  endpoints ramp = Ok ((0, 200), (0, 200))%Q /\
  In (ramp, road) road_features_kept.
Proof.
  assert (Hout : road_barriers road_features = Ok road_features_kept)
    by (vm_compute; reflexivity).
  assert (Hin : In ramp road_features) by (simpl; tauto).
  assert (He : endpoints ramp = Ok ((0, 200), (0, 200))%Q) by reflexivity.
  split; [exact Hout |]. split; [exact Hin |]. split; [exact He |].
  exact (@BarriersMore.closed_road_kept geom _ road_features road_features_kept ramp
           (0, 200)%Q (0, 200)%Q Hout Hin He eq_refl).
Defined.

End BarriersMoreScenes.

(** ** The network functions on the scenes *)

Module NetworkMoreScenes.
Import TransportNetwork Plane Scenes.

(** X11 on the two platforms: node 2, without a name, stays. *)
Lemma simplify_stations_keeps_unnamed_witness :
  simplify_stations platforms = Ok platforms_simplified /\
  (forall l, In l (index (fst platforms_simplified)) ->
             In l (index (fst platforms)) /\
             station_columns (fst platforms_simplified) l
             = station_columns (fst platforms) l) /\
  (forall l sid, station_columns (fst platforms) l = Ok (sid, None) ->
                 In l (index (fst platforms_simplified))).
Proof.
  assert (Hrun : simplify_stations platforms = Ok platforms_simplified)
    by (vm_compute; reflexivity).
  split; [exact Hrun |].
  exact (NetworkMore.simplify_stations_keeps_unnamed platforms
           platforms_simplified Hrun).
Defined.

(** X12 on the chain: the station node 0 stays. *)
Lemma merge_station_nodes_keeps_stations_witness :
  merge_station_nodes 40 chain = Ok chain_once /\
  (forall l, In l (index (fst chain_once)) ->
             In l (index (fst chain)) /\
             station_columns (fst chain_once) l = station_columns (fst chain) l) /\
  (forall l sid name, station_columns (fst chain) l = Ok (sid, name) ->
                      sid <> unassigned -> In l (index (fst chain_once))).
Proof.
  assert (Hrun : merge_station_nodes 40 chain = Ok chain_once)
    by (vm_compute; reflexivity).
  split; [exact Hrun |].
  exact (NetworkMore.merge_station_nodes_keeps_stations 40 chain chain_once Hrun).
Defined.

(** X13 on the chain. *)
Lemma dissolve_stations_keeps_columns_witness :
  dissolve_stations chain = Ok chain_once /\
  forall l, In l (index (fst chain_once)) ->
            In l (index (fst chain)) /\
            station_columns (fst chain_once) l = station_columns (fst chain) l.
Proof.
  assert (Hrun : dissolve_stations chain = Ok chain_once) by (vm_compute; reflexivity).
  split; [exact Hrun |].
  exact (NetworkMore.dissolve_stations_keeps_columns chain chain_once Hrun).
Defined.

(** X14 on the chain: edge 0 is merged, and a node is lost. *)
Lemma merge_station_nodes_shrinks_witness :
  merge_station_nodes 40 chain = Ok chain_once /\
  merged_edge 40 chain (plain_edge 0 0 1 [(0, 0); (10, 0)]%Q)
              (snd (plain_edge 0 0 1 [(0, 0); (10, 0)]%Q))
              (snd (plain_node 0 0 0 5 (Some "X"%string)))
              (snd (plain_node 1 10 0 unassigned None)) /\
  (List.length (fst chain_once) < List.length (fst chain))%nat.
Proof.
  assert (Hrun : merge_station_nodes 40 chain = Ok chain_once)
    by (vm_compute; reflexivity).
  assert (Hm : merged_edge 40 chain (plain_edge 0 0 1 [(0, 0); (10, 0)]%Q)
                           (snd (plain_edge 0 0 1 [(0, 0); (10, 0)]%Q))
                           (snd (plain_node 0 0 0 5 (Some "X"%string)))
                           (snd (plain_node 1 10 0 unassigned None))).
  { unfold merged_edge. split; [simpl; tauto |].
    repeat split; vm_compute; reflexivity. }
  split; [exact Hrun |]. split; [exact Hm |].
  apply (proj1 (NetworkMore.merge_station_nodes_shrinks 40 chain chain_once Hrun)).
  eexists _, _, _, _. exact Hm.
Defined.

(** X15 on the two platforms: node 1, the end [v] of edge 0, is removed. *)
Lemma simplify_stations_drops_v_witness :
  NoDup (index (snd platforms)) /\
  simplify_stations platforms = Ok platforms_simplified /\
  In (plain_edge 0 0 1 [(0, 0); (10, 0)]%Q) (snd platforms) /\
  station_columns (fst platforms) 0 = Ok (3, Some "Central"%string) /\
  station_columns (fst platforms) 1 = Ok (4, Some "Central"%string) /\
  ~ In 1 (index (fst platforms_simplified)).
Proof.
  assert (Hnd : NoDup (index (snd platforms))).
  { simpl. repeat constructor; simpl; intuition discriminate. }
  assert (Hrun : simplify_stations platforms = Ok platforms_simplified)
    by (vm_compute; reflexivity).
  assert (Hin : In (plain_edge 0 0 1 [(0, 0); (10, 0)]%Q) (snd platforms))
    by (simpl; tauto).
  split; [exact Hnd |]. split; [exact Hrun |]. split; [exact Hin |].
  split; [reflexivity |]. split; [reflexivity |].
  exact (NetworkMore.simplify_stations_drops_v platforms platforms_simplified
           0 (snd (plain_edge 0 0 1 [(0, 0); (10, 0)]%Q)) 3 4 "Central"%string
           Hnd Hrun Hin eq_refl eq_refl).
Defined.


(** X17 on the track: node 1 carries the label and the name of station 8. *)
Lemma assigned_columns_from_stations_witness :
  assign_stations_to_nodes served_stations track = Ok track_served /\
  In (plain_node 1 100 0 8 (Some "Terminus"%string)) (fst track_served) /\
  ((8 = unassigned /\ Some "Terminus"%string = None) \/
   exists st, loc served_stations 8 = Ok st /\ Some "Terminus"%string = s_name st).
Proof.
  assert (Hrun : assign_stations_to_nodes served_stations track = Ok track_served)
    by (vm_compute; reflexivity).
  assert (Hin : In (plain_node 1 100 0 8 (Some "Terminus"%string)) (fst track_served))
    by (simpl; tauto).
  split; [exact Hrun |]. split; [exact Hin |].
  exact (NetworkMore.assigned_columns_from_stations served_stations track
           track_served 1 (snd (plain_node 1 100 0 8 (Some "Terminus"%string))) Hrun Hin).
Defined.

(** X18 on the track. *)
Lemma assign_stations_well_indexed_witness :
  well_indexed track /\
  assign_stations_to_nodes served_stations track = Ok track_served /\
  well_indexed track_served.
Proof.
  assert (Hwell : well_indexed track).
  { split; [| split].
    - split.
      + intros row Hin. vm_compute in Hin. intuition (subst; reflexivity).
      + simpl. repeat constructor; simpl; intuition discriminate.
    - split.
      + intros row Hin. vm_compute in Hin. intuition (subst; reflexivity).
      + simpl. repeat constructor; simpl; intuition discriminate.
    - intros row Hin. vm_compute in Hin.
      destruct Hin as [<- | []]. simpl. tauto. }
  assert (Hrun : assign_stations_to_nodes served_stations track = Ok track_served)
    by (vm_compute; reflexivity).
  split; [exact Hwell |]. split; [exact Hrun |].
  exact (NetworkMore.assign_stations_well_indexed served_stations track
           track_served Hwell Hrun).
Defined.


End NetworkMoreScenes.
